(** * A grading system: weighted totals, bulk ingestion, outliers

    Shallow embedding of [grading_system.py]: the [Course] aggregate with its
    students and assignments, [bulk_import_grades_csv],
    [calculate_weighted_scores], [detect_outliers] and [numeric_to_letter].

    Conventions of the embedding.
    - A Python [dict] is an insertion-ordered association list ([Dict.t]):
      iteration order is the list order, [d[k] = v] replaces in place or
      appends.  The order matters here: floating-point sums depend on it, and
      so does the order of the outlier list.
    - Python's [float] is IEEE 754 binary64, i.e. Rocq's primitive [float];
      the true division [/] raises [ZeroDivisionError] on a zero divisor and
      is therefore a partial operation ([py_div]).  The arithmetic the code
      uses is collected in the class [Number], with the binary64 instance
      [float64] the program runs on.  Where a bound on a computed total is
      proved, a float is read as the real number it stands for ([F2R]) and
      every IEEE operation is bounded against the exact one.
    - A raised exception is [None] in the [option] monad.
    - Text is ASCII ([string]); the rows handed over by [csv.reader] are
      lists of strings.  The builtin [float(str)] is a parameter of the
      ingestion code, [statistics.mean] and [statistics.stdev] are parameters
      of the outlier detector; all three may raise.
    - A method that mutates the course returns the new course; the
      [self.save()] that follows the mutation leaves the in-memory course
      untouched and is modelled on its own, over a file store given by two
      parameters, [read_file] and [write_file].
    - [ValueError] and [KeyError] raised on purpose by [add_assignment] and
      [enter_grade] are the left summand of [exn + _], with their message. *)

From Stdlib Require Import ZArith List String Ascii Bool Reals Floats Lia Lra.
Import ListNotations.

Set Implicit Arguments.
Set Warnings "-inexact-float".

(* ================================================================== *)
(** * Exceptions: the option monad *)

Definition bind {A B : Type} (m : option A) (k : A -> option B) : option B :=
  match m with
  | Some a => k a
  | None => None
  end.

Notation "x <- m ;; k" := (bind m (fun x => k))
  (at level 61, m at next level, right associativity).

(** A [for] loop whose body may raise: the state is threaded through the
    items, the first exception ends the loop. *)
Fixpoint for_each {A S : Type} (body : S -> A -> option S) (items : list A) (s : S)
  : option S :=
  match items with
  | [] => Some s
  | x :: rest => s' <- body s x ;; for_each body rest s'
  end.

(* ================================================================== *)
(** * Python dictionaries *)

Module Dict.
Section Defs.
Variable V : Type.

Definition t := list (string * V).

(** [d.get(k)] *)
Fixpoint get (d : t) (k : string) : option V :=
  match d with
  | [] => None
  | (k', v) :: rest => if String.eqb k' k then Some v else get rest k
  end.

(** [k in d] *)
Definition contains (d : t) (k : string) : bool :=
  match get d k with
  | Some _ => true
  | None => false
  end.

(** [d.get(k, default)] *)
Definition get_default (d : t) (k : string) (default : V) : V :=
  match get d k with
  | Some v => v
  | None => default
  end.

(** [d[k] = v]: an existing key keeps its place, a new key goes last. *)
Fixpoint set (d : t) (k : string) (v : V) : t :=
  match d with
  | [] => [(k, v)]
  | (k', v') :: rest =>
      if String.eqb k' k then (k', v) :: rest else (k', v') :: set rest k v
  end.

Definition keys (d : t) : list string := map fst d.
Definition values (d : t) : list V := map snd d.

(** The representation invariant of a dictionary: keys are unique. *)
Definition wf (d : t) : Prop := NoDup (keys d).
End Defs.

(** [{k: f(v) for k, v in d.items()}] *)
Definition comprehension {V W : Type} (f : V -> W) (d : t V) : t W :=
  fold_left (fun acc kv => set acc (fst kv) (f (snd kv))) d [].
End Dict.

(* ================================================================== *)
(** * Numbers *)

(** The arithmetic [grading_system.py] performs on scores, weights and
    totals.  [of_Z] reads an [int] literal (or a literal such as [100.0]
    whose value is integral). *)
Class Number (num : Type) := {
  of_Z : Z -> num;
  add : num -> num -> num;
  sub : num -> num -> num;
  mul : num -> num -> num;
  quot : num -> num -> num;      (* the quotient, for a non-zero divisor *)
  absolute : num -> num;         (* [abs(x)] *)
  eq0 : num -> bool;             (* [x == 0]; [bool(x)] is its negation *)
  gt : num -> num -> bool;       (* [x > y] *)
  ge : num -> num -> bool;       (* [x >= y] *)
  round2 : num -> num;           (* [round(x, 2)] *)
  one_nonzero : eq0 (of_Z 1) = false
}.

(** [x / y]: [ZeroDivisionError] when [y == 0]. *)
Definition py_div {num : Type} `{Number num} (x y : num) : option num :=
  if eq0 y then None else Some (quot x y).

(** ** binary64 *)

(** The integer nearest to [a / b] for [b > 0], ties to the even one. *)
Definition nearest_even_quot (a b : Z) : Z :=
  let q := (a / b)%Z in
  match (2 * (a mod b) ?= b)%Z with
  | Lt => q
  | Gt => (q + 1)%Z
  | Eq => if Z.even q then q else (q + 1)%Z
  end.

(** [round(x, 2)] on a float, as CPython computes it: the exact binary value
    is rounded to two decimals (ties to even), and the decimal [n / 100] is
    then read back as the nearest float.  Zeros, infinities and NaN are
    returned as they are; the sign is kept ([round(-0.001, 2)] is [-0.0]). *)
Definition float_round2 (x : float) : float :=
  match Prim2SF x with
  | S754_finite s m e =>
      let n := if (0 <=? e)%Z
               then (Zpos m * 2 ^ e * 100)%Z
               else nearest_even_quot (Zpos m * 100) (2 ^ (- e)) in
      let r := match n with
               | Zpos p => SF2Prim (SFdiv prec emax (S754_finite false p 0)
                                                    (S754_finite false 100 0))
               | _ => 0%float
               end in
      if s then (- r)%float else r
  | _ => x
  end.

(** An [int] as a float (exact for the literals of the program). *)
Definition float_of_Z (z : Z) : float :=
  match z with
  | Z0 => 0%float
  | Zpos _ => PrimFloat.of_uint63 (Uint63.of_Z z)
  | Zneg p => (- PrimFloat.of_uint63 (Uint63.of_Z (Zpos p)))%float
  end.

#[export] Instance float64 : Number float := {
  of_Z := float_of_Z;
  add := PrimFloat.add;
  sub := PrimFloat.sub;
  mul := PrimFloat.mul;
  quot := PrimFloat.div;
  absolute := PrimFloat.abs;
  eq0 := fun x => PrimFloat.eqb x 0%float;
  gt := fun x y => PrimFloat.ltb y x;
  ge := fun x y => PrimFloat.leb y x;
  round2 := float_round2;
  one_nonzero := eq_refl
}.

(* ================================================================== *)
(** * Domain model *)

Record Student (num : Type) := mkStudent {
  id : string;
  name : string;
  scores : Dict.t num          (* assignment name -> score *)
}.

Record Assignment (num : Type) := mkAssignment {
  a_name : string;
  weight : num;
  max_score : num
}.

Record Course (num : Type) := mkCourse {
  course_code : string;
  title : string;
  students : Dict.t (Student num);        (* id -> Student *)
  assignments : Dict.t (Assignment num)   (* name -> Assignment *)
}.

(* ================================================================== *)
(** * The weighted-score engine *)

Section Engine.
Context {num : Type} `{Number num}.

Definition zero : num := of_Z 0.
Definition one : num := of_Z 1.
Definition hundred : num := of_Z 100.

(** [sum(values)]: starts from [0], adds left to right. *)
Definition py_sum (values : list num) : num := fold_left add values zero.

(** Lines 169-172: the divisor of every weight. *)
Definition total_weight (c : Course num) : num :=
  let weights := Dict.comprehension (@weight num) (assignments c) in
  let total_weight := py_sum (Dict.values weights) in
  if eq0 total_weight then one else total_weight.

(** Line 179: [(score / max_score) * 100 if max_score else 0.0]. *)
Definition percentage (a : Assignment num) (score : num) : option num :=
  if negb (eq0 (max_score a))
  then q <- py_div score (max_score a) ;; Some (mul q hundred)
  else Some zero.

(** Lines 177-180: what one assignment adds to a student's total. *)
Definition contribution (tw : num) (st : Student num) (aname : string)
           (a : Assignment num) : option num :=
  let score := Dict.get_default (scores st) aname zero in
  perc <- percentage a score ;;
  share <- py_div (weight a) tw ;;
  Some (mul perc share).

(** Lines 175-180: the inner loop over the assignments. *)
Definition student_total (tw : num) (catalog : Dict.t (Assignment num))
           (st : Student num) : option num :=
  for_each (fun total kv =>
              x <- contribution tw st (fst kv) (snd kv) ;;
              Some (add total x))
           catalog zero.

(** Lines 163-183. *)
Definition calculate_weighted_scores (c : Course num) : option (Dict.t num) :=
  let tw := total_weight c in
  for_each (fun results kv =>
              total <- student_total tw (assignments c) (snd kv) ;;
              Some (Dict.set results (fst kv) (round2 total)))
           (students c) [].
End Engine.

Open Scope string_scope.
Open Scope float_scope.

(** Lines 283-292. *)
Definition numeric_to_letter {num : Type} `{Number num} (score : num) : string :=
  if ge score (of_Z 90) then "A"
  else if ge score (of_Z 80) then "B"
  else if ge score (of_Z 70) then "C"
  else if ge score (of_Z 60) then "D"
  else "F".

(* ================================================================== *)
(** * The outlier detector *)

Section Outliers.
Context {num : Type} `{Number num}.

(** [statistics.mean] and [statistics.stdev] (the sample standard
    deviation, with the N-1 divisor) of the Python standard library.  Either
    may raise on the data it is given ([None]); the detector has no handler,
    so the exception leaves [detect_outliers]. *)
Variable statistics_mean : list num -> option num.
Variable statistics_stdev : list num -> option num.

(** Lines 189-192: the recorded scores, in the order of the students. *)
Definition collect_scores (c : Course num) (assignment_name : string)
  : list (string * num) :=
  fold_left (fun acc s =>
               match Dict.get (scores s) assignment_name with
               | Some v => (acc ++ [(id s, v)])%list
               | None => acc
               end)
            (Dict.values (students c)) [].

(** Lines 185-206. *)
Definition detect_outliers (c : Course num) (assignment_name : string)
           (threshold_stddev : num) : option (list (string * num)) :=
  let recorded := collect_scores c assignment_name in
  match recorded with
  | [] => Some []                             (* if not scores: return [] *)
  | _ =>
      let values := map snd recorded in
      if (List.length values <? 2)%nat then Some []
      else
        mean <- statistics_mean values ;;
        stdev <- statistics_stdev values ;;
        Some (fold_left (fun outliers sv =>
                           if eq0 stdev then outliers
                           else if gt (absolute (sub (snd sv) mean))
                                      (mul threshold_stddev stdev)
                                then (outliers ++ [sv])%list
                                else outliers)
                        recorded [])
  end.
End Outliers.

(* ================================================================== *)
(** * Text *)

(** The ASCII characters [str.isspace] accepts. *)
Definition is_space (c : ascii) : bool :=
  let n := N_of_ascii c in
  ((9 <=? n) && (n <=? 13) || (28 <=? n) && (n <=? 32))%N.

Fixpoint lstrip (s : string) : string :=
  match s with
  | String c rest => if is_space c then lstrip rest else s
  | EmptyString => EmptyString
  end.

Fixpoint reverse (s acc : string) : string :=
  match s with
  | String c rest => reverse rest (String c acc)
  | EmptyString => acc
  end.

(** [s.strip()] *)
Definition strip (s : string) : string :=
  reverse (lstrip (reverse (lstrip s) EmptyString)) EmptyString.

Definition lower_char (c : ascii) : ascii :=
  let n := N_of_ascii c in
  if ((65 <=? n) && (n <=? 90))%N then ascii_of_N (n + 32) else c.

(** [s.lower()] *)
Fixpoint lower (s : string) : string :=
  match s with
  | String c rest => String (lower_char c) (lower rest)
  | EmptyString => EmptyString
  end.

(* ================================================================== *)
(** * Bulk ingestion *)

Section Ingestion.
Context {num : Type} `{Number num}.

(** The builtin [float(s)] on a string: [None] is [ValueError]. *)
Variable py_float : string -> option num.

(** The running state of an import: the course and the two counters. *)
Definition import_state : Type := Course num * nat * nat.

(** [Assignment(aname, 0.0)]: weight 0.0 and the default max_score 100.0. *)
Definition placeholder (aname : string) : Assignment num :=
  mkAssignment aname zero hundred.

(** Lines 136-138 and 156-157: a placeholder for an unknown assignment. *)
Definition register_assignment (catalog : Dict.t (Assignment num)) (aname : string)
  : Dict.t (Assignment num) :=
  if negb (Dict.contains catalog aname)
  then Dict.set catalog aname (placeholder aname)
  else catalog.

(** The student object after [scores[aname] = score]. *)
Definition with_score (st : Student num) (aname : string) (score : num) : Student num :=
  mkStudent (id st) (name st) (Dict.set (scores st) aname score).

(** [students[sid].scores[aname] = score]; [None] is the [KeyError] of
    [students[sid]]. *)
Definition set_score (roster : Dict.t (Student num)) (sid aname : string) (score : num)
  : option (Dict.t (Student num)) :=
  match Dict.get roster sid with
  | Some st => Some (Dict.set roster sid (with_score st aname score))
  | None => None
  end.

(** Lines 136-139 and 156-158. *)
Definition record_score (c : Course num) (sid aname : string) (score : num)
  : option (Course num) :=
  let catalog := register_assignment (assignments c) aname in
  roster <- set_score (students c) sid aname score ;;
  Some (mkCourse (course_code c) (title c) roster catalog).

(** Lines 128-139: one cell of a wide row; [i] is its column. *)
Definition import_cell (sid : string) (row : list string) (c : Course num)
           (cell : nat * string) : option (Course num) :=
  let (i, aname) := cell in
  match nth_error row i with
  | None => Some c                            (* i >= len(row) *)
  | Some field =>
      let val := strip field in
      if String.eqb val "" then Some c
      else match py_float val with
           | None => Some c                   (* except ValueError: continue *)
           | Some score => record_score c sid aname score
           end
  end.

(** [enumerate(names, start)] *)
Fixpoint enumerate (start : nat) (names : list string) : list (nat * string) :=
  match names with
  | [] => []
  | n :: rest => (start, n) :: enumerate (S start) rest
  end.

(** Lines 121-140: one data row of the wide format. *)
Definition import_wide_row (assignment_names : list string) (state : import_state)
           (row : list string) : option import_state :=
  let '(c, processed, failed) := state in
  match row with
  | [] => Some state                          (* if not row: continue *)
  | field0 :: _ =>
      let sid := strip field0 in
      if negb (Dict.contains (students c) sid)
      then Some (c, processed, S failed)
      else
        c' <- for_each (import_cell sid row) (enumerate 1 assignment_names) c ;;
        Some (c', S processed, failed)
  end.

(** Lines 143-159: one row of the narrow format. *)
Definition import_narrow_row (state : import_state) (row : list string)
  : option import_state :=
  let '(c, processed, failed) := state in
  match row with
  | field0 :: field1 :: field2 :: _ =>
      let sid := strip field0 in
      let aname := strip field1 in
      let score_str := strip field2 in
      match py_float score_str with
      | None => Some (c, processed, S failed)
      | Some score =>
          if negb (Dict.contains (students c) sid)
          then Some (c, processed, S failed)
          else
            c' <- record_score c sid aname score ;;
            Some (c', S processed, failed)
      end
  | _ => Some (c, processed, S failed)        (* len(row) < 3 *)
  end.

(** Line 118: the first row is a header whose first cell reads [id]. *)
Definition is_wide (first : list string) : bool :=
  match first with
  | [] => false
  | field0 :: _ => String.eqb (lower (strip field0)) "id"
  end.

(** Lines 103-161, on the rows [csv.reader] yields. *)
Definition bulk_import_grades_csv (c : Course num) (rows : list (list string))
  : option import_state :=
  match rows with
  | [] => Some (c, 0%nat, 0%nat)
  | first :: data =>
      if is_wide first
      then
        let headers := map strip first in
        let assignment_names := tl headers in
        for_each (import_wide_row assignment_names) data (c, 0%nat, 0%nat)
      else for_each import_narrow_row rows (c, 0%nat, 0%nat)
  end.
End Ingestion.

(* ================================================================== *)
(** * Roster, catalog and single grades *)

(** The exceptions the operations raise, with their messages. *)
Inductive exn : Type :=
| ValueError (msg : string)
| KeyError (msg : string).

Section Operations.
Context {num : Type}.

(** Lines 77-84: one row of the roster file. *)
Definition import_student_row (state : Course num * nat) (row : list string)
  : Course num * nat :=
  let (c, count) := state in
  match row with
  | [] => state                                 (* if not row: continue *)
  | field0 :: rest =>
      let sid := strip field0 in
      let student_name := match rest with
                          | field1 :: _ => strip field1
                          | [] => sid           (* len(row) <= 1 *)
                          end in
      if Dict.contains (students c) sid then state
      else (mkCourse (course_code c) (title c)
                     (Dict.set (students c) sid (mkStudent sid student_name []))
                     (assignments c),
            S count)
  end.

(** Lines 73-86, on the rows [csv.reader] yields. *)
Definition import_students_from_csv (c : Course num) (rows : list (list string))
  : Course num * nat :=
  fold_left import_student_row rows (c, 0%nat).

(** Lines 88-92. *)
Definition add_assignment (c : Course num) (aname : string) (w m : num)
  : exn + Course num :=
  if Dict.contains (assignments c) aname
  then inl (ValueError "Assignment with that name already exists.")
  else inr (mkCourse (course_code c) (title c) (students c)
                     (Dict.set (assignments c) aname (mkAssignment aname w m))).

(** Lines 94-101; [float(score)] leaves a float as it is. *)
Definition enter_grade (c : Course num) (student_id assignment_name : string)
           (score : num) : exn + Course num :=
  if negb (Dict.contains (students c) student_id)
  then inl (KeyError "Student not found.")
  else if negb (Dict.contains (assignments c) assignment_name)
       then inl (KeyError "Assignment not found.")
       else match set_score (students c) student_id assignment_name score with
            | Some roster =>
                inr (mkCourse (course_code c) (title c) roster (assignments c))
            | None => inl (KeyError student_id)
            end.
End Operations.

(* ================================================================== *)
(** * Reporting *)

(** A row of the class report: the keys [id], [name], [weighted_total],
    [scores] and, when asked for, [letter]. *)
Record ReportRow (num : Type) := mkReportRow {
  row_id : string;
  row_name : string;
  row_weighted_total : num;
  row_scores : Dict.t num;
  row_letter : option string
}.

(** A cell handed to [csv.writer]: a text or a number. *)
Inductive Cell (num : Type) : Type :=
| Text (s : string)
| Num (x : num).

Arguments Text {num} s.
Arguments Num {num} x.

Section Reporting.
Context {num : Type} `{Number num}.

(** Lines 213-220: the row of one student. *)
Definition report_row (weighted : Dict.t num) (include_letter : bool)
           (sid : string) (student : Student num) : ReportRow num :=
  let total := Dict.get_default weighted sid zero in
  mkReportRow sid (name student) total (scores student)
              (if include_letter then Some (numeric_to_letter total) else None).

(** Lines 209-222. *)
Definition generate_class_report (c : Course num) (include_letter : bool)
  : option (list (ReportRow num)) :=
  weighted <- calculate_weighted_scores c ;;
  Some (fold_left (fun report kv =>
                     (report ++ [report_row weighted include_letter (fst kv) (snd kv)])%list)
                  (students c) []).

(** Lines 233-238: the cells of one row; [None] is the [KeyError] of
    [r["letter"]]. *)
Definition export_row (assignment_names : list string) (r : ReportRow num)
  : option (list (Cell num)) :=
  letter <- row_letter r ;;
  Some ([Text (row_id r); Text (row_name r)]
        ++ map (fun an => match Dict.get (row_scores r) an with
                          | Some v => Num v
                          | None => Text ""
                          end)
               assignment_names
        ++ [Num (row_weighted_total r); Text letter])%list.

(** Lines 224-239: the rows written, the header first. *)
Definition export_report_csv (c : Course num) : option (list (list (Cell num))) :=
  report <- generate_class_report c true ;;
  let assignment_names := Dict.keys (assignments c) in
  let header := map Text (["id"; "name"] ++ assignment_names
                          ++ ["weighted_total"; "letter"])%list in
  rows <- for_each (fun written r =>
                      row <- export_row assignment_names r ;;
                      Some (written ++ [row])%list)
                   report [] ;;
  Some (header :: rows).
End Reporting.

(* ================================================================== *)
(** * Persistence *)

(** [s.endswith(suffix)] *)
Definition endswith (s suffix : string) : bool :=
  let n := String.length s in
  let m := String.length suffix in
  ((m <=? n)%nat && String.eqb (substring (n - m) m s) suffix)%bool.

(** [s[:-k]] for a positive [k]. *)
Definition drop_last (k : nat) (s : string) : string :=
  substring 0 (String.length s - k) s.

(** Lines 295-297, on the names [os.listdir] yields. *)
Definition list_saved_courses (listing : list string) : list string :=
  map (drop_last 5) (filter (fun f => endswith f ".json") listing).

Definition DATA_FOLDER : string := "grade_data".

(** [os.path.join(a, b)] on POSIX. *)
Definition path_join (a b : string) : string :=
  match b with
  | String "/" _ => b
  | _ => if (String.eqb a "" || endswith a "/")%bool
         then (a ++ b)%string
         else (a ++ "/" ++ b)%string
  end.

(** Lines 44 and 57: the file of a course. *)
Definition course_path (code : string) : string :=
  path_join DATA_FOLDER (code ++ ".json").

(** What [to_dict] returns and [load] reads: the keys [load] reads with
    [.get] may be missing. *)
Record StudentDict (num : Type) := mkStudentDict {
  d_id : string;
  d_name : string;
  d_scores : option (Dict.t num)
}.

Record AssignmentDict (num : Type) := mkAssignmentDict {
  d_aname : string;
  d_weight : num;
  d_max_score : option num
}.

Record Payload (num : Type) := mkPayload {
  p_course_code : string;
  p_title : string;
  p_students : Dict.t (StudentDict num);
  p_assignments : Dict.t (AssignmentDict num)
}.

Section Persistence.
Context {num : Type} `{Number num}.

(** Lines 21-22. *)
Definition student_to_dict (s : Student num) : StudentDict num :=
  mkStudentDict (id s) (name s) (Some (scores s)).

(** Lines 31-32. *)
Definition assignment_to_dict (a : Assignment num) : AssignmentDict num :=
  mkAssignmentDict (a_name a) (weight a) (Some (max_score a)).

(** Lines 45-50. *)
Definition payload_of (c : Course num) : Payload num :=
  mkPayload (course_code c) (title c)
            (Dict.comprehension student_to_dict (students c))
            (Dict.comprehension assignment_to_dict (assignments c)).

(** Lines 64-65. *)
Definition student_of_dict (sd : StudentDict num) : Student num :=
  mkStudent (d_id sd) (d_name sd)
            (match d_scores sd with Some sc => sc | None => [] end).

(** Line 68. *)
Definition assignment_of_dict (ad : AssignmentDict num) : Assignment num :=
  mkAssignment (d_aname ad) (d_weight ad)
               (match d_max_score ad with Some m => m | None => hundred end).

(** Lines 62-70. *)
Definition course_of_payload (p : Payload num) : Course num :=
  mkCourse (p_course_code p) (p_title p)
           (fold_left (fun roster kv => Dict.set roster (fst kv) (student_of_dict (snd kv)))
                      (p_students p) [])
           (fold_left (fun catalog kv =>
                         Dict.set catalog (fst kv) (assignment_of_dict (snd kv)))
                      (p_assignments p) []).

(** The files of the data folder: [read_file] is [json.load] of a file that
    exists, [write_file] is [json.dump]. *)
Variable store : Type.
Variable read_file : string -> store -> option (Payload num).
Variable write_file : string -> Payload num -> store -> store.

(** Lines 43-53. *)
Definition save (c : Course num) (fs : store) : store :=
  write_file (course_path (course_code c)) (payload_of c) fs.

(** Lines 55-70. *)
Definition load (course_code : string) (fs : store) : option (Course num) :=
  match read_file (course_path course_code) fs with
  | None => None                                (* not os.path.exists(path) *)
  | Some payload => Some (course_of_payload payload)
  end.
End Persistence.


Unset Implicit Arguments.

(* ================================================================== *)
(** * Notions used in the statements *)

(** ** The values of the engine *)

Section EngineValues.
Context {num : Type} `{Number num}.

(** The values the engine computes, once its divisions are known to be
    safe. *)
Definition percentage_value (a : Assignment num) (score : num) : num :=
  if eq0 (max_score a) then zero else mul (quot score (max_score a)) hundred.

Definition contribution_value (tw : num) (st : Student num)
           (kv : string * Assignment num) : num :=
  mul (percentage_value (snd kv) (Dict.get_default (scores st) (fst kv) zero))
      (quot (weight (snd kv)) tw).

Definition total_value (tw : num) (catalog : Dict.t (Assignment num))
           (st : Student num) : num :=
  fold_left (fun total kv => add total (contribution_value tw st kv)) catalog zero.

(** The result dictionary, as the loop over the students fills it. *)
Definition results_of (c : Course num) : Dict.t num :=
  fold_left (fun results kv =>
               Dict.set results (fst kv)
                        (round2 (total_value (total_weight c) (assignments c) (snd kv))))
            (students c) [].

(** The sum of all assignment weights. *)
Definition sum_of_weights (c : Course num) : num :=
  py_sum (map (fun kv => weight (snd kv)) (assignments c)).

(** The sum, over all assignments, of [(score / max_score * 100) *
    (weight / total_weight)], a missing score counting as 0. *)
Definition spec_weighted_total (c : Course num) (st : Student num) : num :=
  py_sum (map (fun kv =>
                 mul (mul (quot (Dict.get_default (scores st) (fst kv) zero)
                                (max_score (snd kv)))
                          hundred)
                     (quot (weight (snd kv)) (sum_of_weights c)))
              (assignments c)).
End EngineValues.

(** ** Shapes of a float *)

(** The shape of a float, read off its specification value. *)
Definition is_zero_SF (x : spec_float) : bool :=
  match x with S754_zero _ => true | _ => false end.

Definition is_finite_SF (x : spec_float) : bool :=
  match x with S754_zero _ | S754_finite _ _ _ => true | _ => false end.

(** ** Ingestion *)

(** A cell that is missing (the row is shorter than the header), blank, or
    not a number. *)
Definition cell_skipped {num : Type} (py_float : string -> option num)
           (row : list string) (i : nat) : Prop :=
  nth_error row i = None
  \/ exists field, nth_error row i = Some field
                   /\ (strip field = "" \/ py_float (strip field) = None).

(** [after] holds the entries of [before], untouched and in place, followed
    by placeholders for names [before] did not have. *)
Definition catalog_extends {num : Type} `{Number num}
           (before after : Dict.t (Assignment num)) : Prop :=
  exists added,
    after = (before ++ added)%list
    /\ Forall (fun kv => snd kv = placeholder (fst kv)
                         /\ Dict.contains before (fst kv) = false) added.

(** The (student id, score) pairs of the students that have a score for the
    assignment, in the order the students are stored. *)
Definition recorded_scores {num : Type} (c : Course num) (assignment_name : string)
  : list (string * num) :=
  flat_map (fun s => match Dict.get (scores s) assignment_name with
                     | Some v => [(id s, v)]
                     | None => []
                     end)
           (Dict.values (students c)).

(** A sequence of writes to a store, applied from left to right. *)
Definition apply_writes (S K V : Type) (write : K -> V -> S -> S)
           (ws : list (K * V)) (s : S) : S :=
  fold_left (fun s w => write (fst w) (snd w) s) ws s.

(** A recorded score is addressed by student id and assignment name. *)
Definition score_key : Type := (string * string)%type.

(** Lines 136-139 for a student that is known. *)
Definition write_score {num : Type} `{Number num} (k : score_key) (v : num)
           (c : Course num) : Course num :=
  match record_score c (fst k) (snd k) v with
  | Some c' => c'
  | None => c
  end.

Definition student_known {num : Type} (k : score_key) (c : Course num) : Prop :=
  Dict.contains (students c) (fst k) = true.

(** The assignment is in the catalog and the student has a score for it. *)
Definition score_present {num : Type} (k : score_key) (c : Course num) : Prop :=
  Dict.contains (assignments c) (snd k) = true
  /\ exists st, Dict.get (students c) (fst k) = Some st
                /\ Dict.contains (scores st) (snd k) = true.

(** The course after a sequence of recorded scores. *)
Definition apply_scores {num : Type} `{Number num} (ws : list (score_key * num))
           (c : Course num) : Course num :=
  apply_writes (Course num) score_key num write_score ws c.

(** The scores a wide row records, cell by cell, for a known student. *)
Definition cell_writes {num : Type} (py_float : string -> option num) (sid : string)
           (row : list string) (cells : list (nat * string)) : list (score_key * num) :=
  flat_map (fun cell =>
              match nth_error row (fst cell) with
              | None => []
              | Some field =>
                  if String.eqb (strip field) "" then []
                  else match py_float (strip field) with
                       | None => []
                       | Some score => [((sid, snd cell), score)]
                       end
              end)
           cells.

Definition row_writes {num : Type} (py_float : string -> option num)
           (known : string -> bool) (names : list string) (row : list string)
  : list (score_key * num) :=
  match row with
  | [] => []
  | field0 :: _ =>
      if known (strip field0)
      then cell_writes py_float (strip field0) row (enumerate 1 names)
      else []
  end.

(** The counters after a wide row. *)
Definition row_counts (known : string -> bool) (counts : nat * nat) (row : list string)
  : nat * nat :=
  match row with
  | [] => counts
  | field0 :: _ =>
      if known (strip field0) then (S (fst counts), snd counts)
      else (fst counts, S (snd counts))
  end.

(** The score a sequence of writes leaves under an assignment name: the
    last one written there, if any. *)
Fixpoint last_written {num : Type} (ws : list (score_key * num)) (aname : string)
  : option num :=
  match ws with
  | [] => None
  | w :: rest =>
      match last_written rest aname with
      | Some v => Some v
      | None => if String.eqb (snd (fst w)) aname then Some (snd w) else None
      end
  end.

(** The roster of [c'] against that of [c]: the same ids in the same order,
    every student with the id and name it had and at least the scores it
    had, and the students outside [touched] exactly as they were. *)
Definition roster_kept {num : Type} (touched : string -> Prop) (c c' : Course num) : Prop :=
  course_code c' = course_code c
  /\ title c' = title c
  /\ Dict.keys (students c') = Dict.keys (students c)
  /\ (forall sid st,
         Dict.get (students c) sid = Some st ->
         exists st',
           Dict.get (students c') sid = Some st'
           /\ id st' = id st /\ name st' = name st
           /\ forall aname, Dict.contains (scores st) aname = true ->
                            Dict.contains (scores st') aname = true)
  /\ (forall sid, ~ touched sid -> Dict.get (students c') sid = Dict.get (students c) sid).

(** The student ids a file names: the first field of its non-empty rows. *)
Definition named_in (rows : list (list string)) (sid : string) : Prop :=
  exists field0 rest, In (field0 :: rest) rows /\ strip field0 = sid.

(** The data rows of a wide file whose id is on the roster, and those whose
    id is not; an empty row is in neither. *)
Definition rows_of_known {num : Type} (c : Course num) (data : list (list string))
  : list (list string) :=
  filter (fun row => match row with
                     | [] => false
                     | field0 :: _ => Dict.contains (students c) (strip field0)
                     end) data.

Definition rows_of_unknown {num : Type} (c : Course num) (data : list (list string))
  : list (list string) :=
  filter (fun row => match row with
                     | [] => false
                     | field0 :: _ => negb (Dict.contains (students c) (strip field0))
                     end) data.

(** ** Binary64 numbers as real numbers *)

Local Abbreviation bpow e := (powerRZ 2 e).

(** The real number a finite float stands for; 0 for the others. *)
Definition SF2R (x : spec_float) : R :=
  match x with
  | S754_finite s m e =>
      ((if s then - IZR (Zpos m) else IZR (Zpos m)) * bpow e)%R
  | _ => 0%R
  end.

Definition F2R (x : float) : R := SF2R (Prim2SF x).

(** A float that is finite and not negative (a zero of either sign
    included). *)
Definition is_nonneg_SF (x : spec_float) : bool :=
  match x with
  | S754_zero _ | S754_finite false _ _ => true
  | _ => false
  end.

Definition nonneg (x : float) : Prop := is_nonneg_SF (Prim2SF x) = true.

(** What the rounding of a nonnegative number returns: [+0.0], a positive
    float of value [val], or plus infinity when [val] is out of range. *)
Definition rounded (r : spec_float) (val : R) : Prop :=
  (r = S754_zero false /\ val = 0%R)
  \/ (exists p e, r = S754_finite false p e /\ val = (IZR (Zpos p) * bpow e)%R)
  \/ (r = S754_infinity false /\ (bpow 972 <= val)%R).

(** What an operation on nonnegative floats returns: a nonnegative float of
    value [val], or plus infinity when [val] is out of range. *)
Definition outcome (r : spec_float) (val : R) : Prop :=
  (is_nonneg_SF r = true /\ SF2R r = val)
  \/ (r = S754_infinity false /\ (bpow 972 <= val)%R).

Fixpoint Rsum (l : list R) : R :=
  match l with
  | [] => 0%R
  | x :: rest => (x + Rsum rest)%R
  end.

(** A running sum of [k] nonnegative floats whose exact sum is [S]: it has
    overflowed, or it is not far below [S]. *)
Definition sum_state (acc : float) (k : nat) (S : R) : Prop :=
  Prim2SF acc = S754_infinity false
  \/ (nonneg acc /\ ((1 - 2 * INR k * bpow (-52)) * S <= F2R acc)%R).

(** The share [rho] of a weight in the divisor [tw], a positive float or
    plus infinity. *)
Definition share_of (tw : float) (w : float) (rho : R) : Prop :=
  ((exists mt et, Prim2SF tw = S754_finite false mt et)
   /\ rho = (F2R w / F2R tw)%R /\ (rho <= 2)%R)
  \/ (Prim2SF tw = S754_infinity false /\ rho = 0%R).

(** The float [round(x, 2)] returns for the decimal [p / 100]. *)
Definition cents (p : positive) : float :=
  SF2Prim (SFdiv prec emax (S754_finite false p 0) (S754_finite false 100 0)).

(** The [n] decimals from [p / 100] on are at most 100 as floats. *)
Fixpoint cents_below (n : nat) (p : positive) : bool :=
  match n with
  | O => true
  | S n' => (cents p <=? 100) && cents_below n' (Pos.succ p)
  end.

(* ================================================================== *)
(** * Concrete data *)

(** The demo course of [demo_setup_example]. *)
Definition demo_course : Course float :=
  mkCourse "demo101" "Demo Course"
    [ ("s1", mkStudent "s1" "Alice" [("HW1", 18); ("Exam", 85)]);
      ("s2", mkStudent "s2" "Bob" [("HW1", 12); ("Exam", 70)]);
      ("s3", mkStudent "s3" "Charlie" [("HW1", 19); ("Exam", 95)]) ]
    [ ("HW1", mkAssignment "HW1" 0.3 20);
      ("Exam", mkAssignment "Exam" 0.7 100) ].

(** Two weights that cancel: their sum is 0. *)
Definition cancelling_course : Course float :=
  mkCourse "c2" "Cancelling weights"
    [ ("s1", mkStudent "s1" "Alice" [("A", 50)]) ]
    [ ("A", mkAssignment "A" 1 100);
      ("B", mkAssignment "B" (-1) 100) ].

(** The demo course before an operator has set any weight. *)
Definition unweighted_course : Course float :=
  mkCourse "c3" "No weights yet"
    [ ("s1", mkStudent "s1" "Alice" [("HW1", 18); ("Exam", 85)]);
      ("s2", mkStudent "s2" "Bob" []) ]
    [ ("HW1", mkAssignment "HW1" 0 20);
      ("Exam", mkAssignment "Exam" 0 100) ].

(** A score that was entered as [inf], on an assignment of weight 0. *)
Definition infinite_score_course : Course float :=
  mkCourse "c2b" "Infinite score"
    [ ("s1", mkStudent "s1" "Alice" [("HW1", infinity)]) ]
    [ ("HW1", mkAssignment "HW1" 0 20) ].

(** An assignment without points whose weight was entered as [inf]. *)
Definition bonus : Assignment float := mkAssignment "Bonus" infinity 0.

Definition infinite_weight_course : Course float :=
  mkCourse "c4" "Infinite weight"
    [ ("s1", mkStudent "s1" "Alice" [("Bonus", 5)]) ]
    [ ("Bonus", bonus) ].

(** Finite weights whose sum nearly cancels: the share of [X] overflows. *)
Definition overflow_course : Course float :=
  mkCourse "c4b" "Overflowing share"
    [ ("s1", mkStudent "s1" "Alice" [("Y", 50)]) ]
    [ ("X", mkAssignment "X" 1e308 0);
      ("Y", mkAssignment "Y" (-1e308) 100);
      ("Z", mkAssignment "Z" 1e-10 100) ].

(** An assignment without points and with an ordinary weight. *)
Definition ungraded : Assignment float := mkAssignment "Survey" 0.5 0.

Definition ungraded_course : Course float :=
  mkCourse "c5" "Survey"
    [ ("s1", mkStudent "s1" "Alice" [("Survey", 7); ("Exam", 80)]) ]
    [ ("Survey", ungraded);
      ("Exam", mkAssignment "Exam" 0.5 100) ].

(** An unsigned decimal integer literal, a fragment of what [float(s)]
    reads; any other text is refused. *)
Fixpoint digits_value (s : string) (acc : Z) : option Z :=
  match s with
  | EmptyString => Some acc
  | String c rest =>
      let n := N_of_ascii c in
      if ((48 <=? n) && (n <=? 57))%N
      then digits_value rest (10 * acc + Z.of_N (n - 48))
      else None
  end.

Definition float_of_digits (s : string) : option float :=
  match s with
  | EmptyString => None
  | _ => option_map float_of_Z (digits_value s 0)
  end.

(** A roster of two students without scores, and an empty catalog. *)
Definition fresh_course : Course float :=
  mkCourse "c6" "Fresh"
    [ ("s1", mkStudent "s1" "Alice" []);
      ("s2", mkStudent "s2" "Bob" []) ]
    [].

(** A well-formed row, a row for an unknown student, a row whose score is
    not a number. *)
Definition narrow_rows : list (list string) :=
  [ ["s1"; "HW1"; "18"];
    ["s9"; "HW1"; "10"];
    ["s2"; "HW1"; "abc"] ].

(** The header and rows of a wide import: two rows for a known student, one
    of them with a blank cell, and a row for an unknown one. *)
Definition wide_rows : list (list string) :=
  [ ["ID"; "HW1"; "HW2"];
    ["s1"; "18"; "7"];
    ["s9"; "1"; "2"];
    ["s1"; "19"; " "];
    ["s2"; "oops"; "20"] ].

(** An exam out of 100 that carries all the weight, before any grade is
    entered. *)
Definition exam_course : Course float :=
  mkCourse "c7" "Extra credit"
    [ ("s1", mkStudent "s1" "Alice" []) ]
    [ ("Exam", mkAssignment "Exam" 1 100) ].

(** A score of 200 on an assignment out of 100 that carries all the weight. *)
Definition extra_credit_course : Course float :=
  mkCourse "c7" "Extra credit"
    [ ("s1", mkStudent "s1" "Alice" [("Exam", 200)]) ]
    [ ("Exam", mkAssignment "Exam" 1 100) ].

(** [statistics.mean] and [statistics.stdev] for the examples, computed in
    binary64.  CPython computes both sums exactly and rounds once, so the two
    agree where the binary64 sums are exact, as on the data below.  On an
    empty list [mean] raises [StatisticsError], and so does [stdev] on fewer
    than two values; [stdev] also raises on data that holds a nan or an
    infinity ([AttributeError] in CPython 3.11) and when the deviation is
    too large for a float ([OverflowError]). *)
Definition mean_binary64 (values : list float) : option float :=
  match values with
  | [] => None
  | _ => Some (py_sum values / float_of_Z (Z.of_nat (List.length values)))
  end.

Definition stdev_binary64 (values : list float) : option float :=
  if (List.length values <? 2)%nat then None
  else if forallb is_finite values
       then
         let n := float_of_Z (Z.of_nat (List.length values)) in
         let mean := py_sum values / n in
         let ss := py_sum (map (fun x => (x - mean) * (x - mean)) values) in
         let stdev := PrimFloat.sqrt (ss / (n - 1)) in
         if is_finite stdev then Some stdev else None
       else None.

(** Three students with quiz scores 10, 20 and 30. *)
Definition spread_course : Course float :=
  mkCourse "c8" "Spread"
    [ ("s1", mkStudent "s1" "Alice" [("Quiz", 10)]);
      ("s2", mkStudent "s2" "Bob" [("Quiz", 20)]);
      ("s3", mkStudent "s3" "Charlie" [("Quiz", 30)]) ]
    [ ("Quiz", mkAssignment "Quiz" 1 100) ].

(** A quiz score that was entered as [nan], beside an ordinary one. *)
Definition nan_score_course : Course float :=
  mkCourse "c9" "Not a number"
    [ ("s1", mkStudent "s1" "Alice" [("Quiz", nan)]);
      ("s2", mkStudent "s2" "Bob" [("Quiz", 1)]) ]
    [ ("Quiz", mkAssignment "Quiz" 1 100) ].

(** The reverse of a maximum: a score of [-1e308] on an assignment of
    weight 0 out of [1e-308]. *)
Definition negative_score_course : Course float :=
  mkCourse "c10" "Negative score"
    [ ("s1", mkStudent "s1" "Alice" [("Quiz", (-1e308)%float)]) ]
    [ ("Quiz", mkAssignment "Quiz" 0 1e-308) ].

(** A weight that was entered as [inf], with a score within the maximum. *)
Definition heavy_course : Course float :=
  mkCourse "c11" "Infinite weight"
    [ ("s1", mkStudent "s1" "Alice" [("Quiz", 50)]) ]
    [ ("Quiz", mkAssignment "Quiz" infinity 100) ].

(** A score and a maximum that were both entered as [inf]. *)
Definition boundless_course : Course float :=
  mkCourse "c12" "Infinite maximum"
    [ ("s1", mkStudent "s1" "Alice" [("Quiz", infinity)]) ]
    [ ("Quiz", mkAssignment "Quiz" 1 infinity) ].

(** A file written by hand: the assignment has no [max_score], the student
    no [scores]. *)
Definition legacy_payload : Payload float :=
  mkPayload "old" "Legacy"
    [ ("s1", mkStudentDict "s1" "Alice" None) ]
    [ ("HW1", mkAssignmentDict "HW1" 0.5 None) ].

(** The demo course after a bulk import has recorded a quiz for Alice. *)
Definition demo_with_quiz : Course float :=
  mkCourse "demo101" "Demo Course"
    [ ("s1", mkStudent "s1" "Alice" [("HW1", 18); ("Exam", 85); ("Quiz", 7)]);
      ("s2", mkStudent "s2" "Bob" [("HW1", 12); ("Exam", 70)]);
      ("s3", mkStudent "s3" "Charlie" [("HW1", 19); ("Exam", 95)]) ]
    [ ("HW1", mkAssignment "HW1" 0.3 20);
      ("Exam", mkAssignment "Exam" 0.7 100);
      ("Quiz", mkAssignment "Quiz" 0 100) ].

(* ================================================================== *)
(** * Facts about dictionaries *)

Module DictFacts.
Section Facts.
Variable V : Type.
Implicit Types (d : Dict.t V) (k : string) (v : V).

Lemma get_set_same d k v : Dict.get (Dict.set d k v) k = Some v.
Proof.
  induction d as [|[k' v'] d IH]; simpl.
  - now rewrite String.eqb_refl.
  - destruct (String.eqb k' k) eqn:E; simpl; now rewrite E.
Qed.

Lemma get_set_other d k k' v :
  k <> k' -> Dict.get (Dict.set d k v) k' = Dict.get d k'.
Proof.
  intros Hne. apply String.eqb_neq in Hne.
  induction d as [|[k0 v0] d IH]; simpl.
  - now rewrite Hne.
  - destruct (String.eqb k0 k) eqn:E; simpl.
    + apply String.eqb_eq in E; subst k0. now rewrite Hne.
    + now rewrite IH.
Qed.

Lemma contains_get d k : Dict.contains d k = true <-> exists v, Dict.get d k = Some v.
Proof.
  unfold Dict.contains. destruct (Dict.get d k); split; intros; eauto.
  - discriminate.
  - destruct H as [? ?]; discriminate.
Qed.

Lemma contains_keys d k : Dict.contains d k = true <-> In k (Dict.keys d).
Proof.
  unfold Dict.contains. induction d as [|[k' v'] d IH]; simpl.
  - split; [discriminate | tauto].
  - destruct (String.eqb k' k) eqn:E.
    + apply String.eqb_eq in E. split; auto.
    + apply String.eqb_neq in E. rewrite IH. split; [auto | intros [?|?]; [contradiction | auto]].
Qed.

Lemma keys_set_present d k v :
  Dict.contains d k = true -> Dict.keys (Dict.set d k v) = Dict.keys d.
Proof.
  unfold Dict.contains. induction d as [|[k' v'] d IH]; simpl; [discriminate|].
  destruct (String.eqb k' k) eqn:E; simpl; [reflexivity|].
  intros Hc. now rewrite IH.
Qed.

Lemma set_absent d k v :
  Dict.contains d k = false -> Dict.set d k v = (d ++ [(k, v)])%list.
Proof.
  unfold Dict.contains. induction d as [|[k' v'] d IH]; simpl; [reflexivity|].
  destruct (String.eqb k' k) eqn:E; [discriminate|].
  intros Hc. now rewrite IH.
Qed.

Lemma contains_set d k k' v :
  Dict.contains (Dict.set d k v) k' = (String.eqb k k' || Dict.contains d k')%bool.
Proof.
  unfold Dict.contains. destruct (String.eqb k k') eqn:E; simpl.
  - apply String.eqb_eq in E; subst. now rewrite get_set_same.
  - apply String.eqb_neq in E. now rewrite get_set_other.
Qed.

(** Writing twice to a key keeps the last value. *)
Lemma set_set d k v v' : Dict.set (Dict.set d k v') k v = Dict.set d k v.
Proof.
  induction d as [|[k0 v0] d IH]; simpl.
  - now rewrite String.eqb_refl.
  - destruct (String.eqb k0 k) eqn:E; simpl; rewrite E; [reflexivity | now rewrite IH].
Qed.

(** Writes to two keys commute as soon as one of them is there already. *)
Lemma set_comm d k k' v v' :
  k <> k' -> Dict.contains d k = true ->
  Dict.set (Dict.set d k v) k' v' = Dict.set (Dict.set d k' v') k v.
Proof.
  intros Hne. unfold Dict.contains.
  induction d as [|[k0 v0] d IH]; simpl; [discriminate|].
  destruct (String.eqb k0 k) eqn:E; destruct (String.eqb k0 k') eqn:E'; simpl;
    rewrite ?E, ?E'; try reflexivity.
  - apply String.eqb_eq in E, E'. congruence.
  - intros Hc. now rewrite IH.
Qed.

(** Filling a dictionary from items with distinct keys lists them in order. *)
Lemma fill_distinct (A : Type) (key : A -> string) (val : A -> V) (items : list A) d :
  NoDup (Dict.keys d ++ map key items) ->
  fold_left (fun acc x => Dict.set acc (key x) (val x)) items d
  = (d ++ map (fun x => (key x, val x)) items)%list.
Proof.
  revert d. induction items as [|x items IH]; intros d Hnd; simpl.
  - now rewrite app_nil_r.
  - rewrite set_absent.
    + rewrite IH.
      * now rewrite <- app_assoc.
      * unfold Dict.keys in *. rewrite map_app, <- app_assoc. exact Hnd.
    + destruct (Dict.contains d (key x)) eqn:E; [|reflexivity].
      apply contains_keys in E. apply NoDup_remove_2 in Hnd.
      exfalso. apply Hnd. apply in_or_app. now left.
Qed.
End Facts.

Lemma comprehension_wf (V W : Type) (f : V -> W) (d : Dict.t V) :
  Dict.wf d -> Dict.comprehension f d = map (fun kv => (fst kv, f (snd kv))) d.
Proof.
  intros Hwf. unfold Dict.comprehension.
  now rewrite (fill_distinct _ _ fst (fun kv => f (snd kv)) d []).
Qed.
End DictFacts.

(* ================================================================== *)
(** * Facts about loops *)

Lemma for_each_total {A S : Type} (body : S -> A -> option S) (step : S -> A -> S)
      (items : list A) (P : A -> Prop) :
  (forall s x, P x -> body s x = Some (step s x)) ->
  (forall x, In x items -> P x) ->
  forall s, for_each body items s = Some (fold_left step items s).
Proof.
  intros Hbody. induction items as [|x items IH]; intros HP s; simpl.
  - reflexivity.
  - rewrite Hbody by (apply HP; now left). simpl.
    apply IH. intros y Hy. apply HP. now right.
Qed.

(** A loop invariant that every iteration keeps holds at the end. *)
Lemma for_each_invariant {A S : Type} (body : S -> A -> option S) (I : S -> Prop)
      (items : list A) :
  (forall s x s', In x items -> I s -> body s x = Some s' -> I s') ->
  forall s s', I s -> for_each body items s = Some s' -> I s'.
Proof.
  induction items as [|x items IH]; intros Hstep s s' Hs; simpl.
  - now intros [= <-].
  - destruct (body s x) as [s1|] eqn:E; simpl; [|discriminate].
    apply IH.
    + intros s0 y s0' Hy. apply Hstep. now right.
    + eapply Hstep; eauto. now left.
Qed.

(* ================================================================== *)
(** * The weighted-score engine: what it computes *)

Section EngineFacts.
Context {num : Type} `{Number num}.

Lemma total_weight_nonzero (c : Course num) : eq0 (total_weight c) = false.
Proof.
  unfold total_weight.
  destruct (eq0 (py_sum _)) eqn:E; [apply one_nonzero | exact E].
Qed.

Lemma percentage_safe (a : Assignment num) (score : num) :
  percentage a score = Some (percentage_value a score).
Proof.
  unfold percentage, percentage_value, py_div.
  destruct (eq0 (max_score a)); reflexivity.
Qed.

Lemma contribution_safe (tw : num) (st : Student num) (aname : string)
      (a : Assignment num) :
  eq0 tw = false ->
  contribution tw st aname a = Some (contribution_value tw st (aname, a)).
Proof.
  intros Htw. unfold contribution, contribution_value.
  rewrite percentage_safe. simpl. unfold py_div. now rewrite Htw.
Qed.

Lemma student_total_safe (tw : num) (catalog : Dict.t (Assignment num))
      (st : Student num) :
  eq0 tw = false -> student_total tw catalog st = Some (total_value tw catalog st).
Proof.
  intros Htw. unfold student_total, total_value.
  apply for_each_total with (P := fun _ => True); [|trivial].
  intros total [aname a] _. simpl. now rewrite contribution_safe.
Qed.

Lemma calculate_weighted_scores_safe (c : Course num) :
  calculate_weighted_scores c = Some (results_of c).
Proof.
  unfold calculate_weighted_scores, results_of.
  apply for_each_total with (P := fun _ => True); [|trivial].
  intros results [sid st] _. simpl.
  now rewrite student_total_safe by apply total_weight_nonzero.
Qed.

Lemma results_of_wf (c : Course num) :
  Dict.wf (students c) ->
  results_of c
  = map (fun kv => (fst kv, round2 (total_value (total_weight c) (assignments c) (snd kv))))
        (students c).
Proof.
  intros Hwf. unfold results_of.
  now rewrite (DictFacts.fill_distinct _ _ fst
                 (fun kv => round2 (total_value (total_weight c) (assignments c) (snd kv)))
                 (students c) []).
Qed.

(** Every entry of the result is the rounded total of some student. *)
Lemma results_of_values (c : Course num) (sid : string) (t : num) :
  Dict.get (results_of c) sid = Some t ->
  exists st, In (sid, st) (students c)
             /\ t = round2 (total_value (total_weight c) (assignments c) st).
Proof.
  unfold results_of.
  set (f := fun st => round2 (total_value (total_weight c) (assignments c) st)).
  assert (G : forall items acc,
             Dict.get (fold_left (fun results kv => Dict.set results (fst kv) (f (snd kv)))
                                 items acc) sid = Some t ->
             Dict.get acc sid = Some t \/ exists st, In (sid, st) items /\ t = f st).
  { induction items as [|[k st] items IH]; intros acc; simpl; [auto|].
    intros Hg. apply IH in Hg. destruct Hg as [Hg | [st' [Hin Ht]]].
    - destruct (String.eqb k sid) eqn:E.
      + apply String.eqb_eq in E; subst k.
        rewrite DictFacts.get_set_same in Hg. injection Hg as <-. right. eauto.
      + apply String.eqb_neq in E. rewrite DictFacts.get_set_other in Hg by exact E. auto.
    - right. eauto. }
  intros Hg. apply G in Hg. destruct Hg as [Hg | Hg]; [discriminate | exact Hg].
Qed.

Lemma fold_left_add_map (A : Type) (f : A -> num) (l : list A) (z : num) :
  fold_left (fun total x => add total (f x)) l z = fold_left add (map f l) z.
Proof. revert z. induction l as [|x l IH]; intros z; simpl; auto. Qed.

Lemma total_weight_wf (c : Course num) :
  Dict.wf (assignments c) ->
  total_weight c = if eq0 (sum_of_weights c) then one else sum_of_weights c.
Proof.
  intros Hwf. unfold total_weight, sum_of_weights.
  rewrite DictFacts.comprehension_wf by exact Hwf.
  unfold Dict.values. now rewrite map_map.
Qed.

Lemma total_value_spec (c : Course num) (st : Student num) :
  Dict.wf (assignments c) ->
  eq0 (sum_of_weights c) = false ->
  (forall aname a, In (aname, a) (assignments c) -> eq0 (max_score a) = false) ->
  total_value (total_weight c) (assignments c) st = spec_weighted_total c st.
Proof.
  intros Hwf Hsum Hmax. rewrite total_weight_wf by exact Hwf. rewrite Hsum.
  unfold total_value, spec_weighted_total, py_sum.
  rewrite fold_left_add_map. f_equal.
  apply map_ext_in. intros [aname a] Hin.
  unfold contribution_value, percentage_value. simpl.
  now rewrite (Hmax aname a Hin).
Qed.
End EngineFacts.

(* ================================================================== *)
(** * Facts about binary64 *)

Module FloatFacts.

Lemma eqb_zero (x : float) : (x =? 0)%float = is_zero_SF (Prim2SF x).
Proof.
  rewrite FloatAxioms.eqb_spec. change (Prim2SF 0) with (S754_zero false).
  destruct (Prim2SF x) as [s| s| |s m e]; try reflexivity; destruct s; reflexivity.
Qed.

Lemma is_finite_SF_spec (x : float) : is_finite x = is_finite_SF (Prim2SF x).
Proof.
  unfold is_finite, is_nan, is_infinity.
  rewrite !FloatAxioms.eqb_spec, abs_spec. change (Prim2SF infinity) with (S754_infinity false).
  destruct (Prim2SF x) as [s| s| |s m e]; try reflexivity.
  - now destruct s.
  - unfold SFeqb, SFcompare. destruct s; simpl;
      rewrite Z.compare_refl, Pos.compare_cont_refl; reflexivity.
Qed.

(** A zero divided by one is a zero. *)
Lemma div_zero_one (w : float) : (w =? 0)%float = true -> (w / 1 =? 0)%float = true.
Proof.
  rewrite !eqb_zero, div_spec.
  change (Prim2SF 1) with (S754_finite false 4503599627370496 (-52)).
  now destruct (Prim2SF w).
Qed.

(** A finite number times a zero is a zero. *)
Lemma mul_finite_zero (p z : float) :
  is_finite p = true -> (z =? 0)%float = true -> (p * z =? 0)%float = true.
Proof.
  rewrite is_finite_SF_spec, !eqb_zero, mul_spec.
  destruct (Prim2SF p), (Prim2SF z); simpl; congruence.
Qed.

(** Adding a zero of either sign to [+0.0] gives [+0.0]. *)
Lemma add_zero_zero (z : float) : (z =? 0)%float = true -> (0 + z)%float = 0%float.
Proof.
  rewrite eqb_zero. intros Hz. apply Prim2SF_inj. rewrite add_spec.
  change (Prim2SF 0) with (S754_zero false).
  destruct (Prim2SF z) as [s| | |]; try discriminate. now destruct s.
Qed.

End FloatFacts.

(* ================================================================== *)
(** * Weighted totals: properties *)

Lemma demo_course_students_wf : Dict.wf (students demo_course).
Proof.
  unfold Dict.wf. simpl. repeat constructor; simpl; intuition discriminate.
Qed.

Lemma demo_course_assignments_wf : Dict.wf (assignments demo_course).
Proof.
  unfold Dict.wf. simpl. repeat constructor; simpl; intuition discriminate.
Qed.

Lemma results_of_covers {num : Type} `{Number num} (c : Course num) sid st :
  In (sid, st) (students c) -> exists t, Dict.get (results_of c) sid = Some t.
Proof.
  unfold results_of.
  set (f := fun kv : string * Student num =>
              round2 (total_value (total_weight c) (assignments c) (snd kv))).
  assert (G : forall items acc,
             (In sid (map fst items) \/ Dict.contains acc sid = true) ->
             Dict.contains (fold_left (fun results kv => Dict.set results (fst kv) (f kv))
                                      items acc) sid = true).
  { induction items as [|[k s] items IH]; intros acc; simpl.
    - intros [[]|Hc]; exact Hc.
    - intros Hor. apply IH. rewrite DictFacts.contains_set.
      destruct Hor as [[Hk|Hin]|Hc]; auto.
      + right. subst k. now rewrite String.eqb_refl.
      + right. rewrite Hc. apply orb_true_r. }
  intros Hin. apply DictFacts.contains_get. apply G. left.
  change sid with (fst (sid, st)). now apply in_map.
Qed.

(** C1.  [calculate_weighted_scores] returns one entry per student of the
    course, in the students' order, whether or not the student has scores (a
    missing score counts as 0); each entry is the running sum rounded to two
    decimals, and when no divisor is zero this running sum is the sum over all
    assignments of [(score / max_score * 100) * (weight / total_weight)] with
    [total_weight] the sum of all weights.  With weights 0.3 and 0.7 and max
    scores 20 and 100, the scores 18 and 85 give exactly 86.5. *)
Theorem weighted_scores_follow_the_formula :
  (forall (num : Type) (N : Number num) (c : Course num),
      Dict.wf (students c) ->
      exists results,
        calculate_weighted_scores c = Some results
        /\ Dict.keys results = Dict.keys (students c)
        /\ forall sid st,
            Dict.get (students c) sid = Some st ->
            Dict.get results sid
            = Some (round2 (total_value (total_weight c) (assignments c) st))
            /\ (Dict.wf (assignments c) ->
                eq0 (sum_of_weights c) = false ->
                (forall aname a, In (aname, a) (assignments c) -> eq0 (max_score a) = false) ->
                Dict.get results sid = Some (round2 (spec_weighted_total c st))))
  /\ (exists results,
         calculate_weighted_scores demo_course = Some results
         /\ Dict.get results "s1" = Some 86.5%float).
Proof.
  split.
  - intros num N c Hwf. exists (results_of c).
    split; [apply calculate_weighted_scores_safe|].
    rewrite results_of_wf by exact Hwf.
    split.
    + unfold Dict.keys. rewrite map_map. reflexivity.
    + intros sid st Hget.
      assert (Hres : Dict.get
                       (map (fun kv => (fst kv,
                                        round2 (total_value (total_weight c) (assignments c) (snd kv))))
                            (students c)) sid
                     = Some (round2 (total_value (total_weight c) (assignments c) st))).
      { clear Hwf. induction (students c) as [|[k s] d IH]; simpl in *; [discriminate|].
        destruct (String.eqb k sid); [now injection Hget as -> | auto]. }
      split; [exact Hres|].
      intros Hwfa Hsum Hmax. rewrite Hres.
      now rewrite total_value_spec.
  - exists (results_of demo_course).
    split; [apply calculate_weighted_scores_safe | vm_compute; reflexivity].
Qed.

(** The demo course has one entry per student, and Alice's is the rounded
    sum of the formula. *)
Lemma weighted_scores_follow_the_formula_witness :
  exists results,
    calculate_weighted_scores demo_course = Some results
    /\ Dict.keys results = ["s1"; "s2"; "s3"]
    /\ Dict.get results "s1"
       = Some (round2 (spec_weighted_total
                         demo_course
                         (mkStudent "s1" "Alice" [("HW1", 18%float); ("Exam", 85%float)]))).
Proof.
  destruct (proj1 weighted_scores_follow_the_formula _ _ demo_course
                  demo_course_students_wf) as [results [Hrun [Hkeys Hall]]].
  destruct (Hall "s1" (mkStudent "s1" "Alice" [("HW1", 18%float); ("Exam", 85%float)])
                 eq_refl) as [_ Hspec].
  exists results. split; [exact Hrun|]. split; [exact Hkeys|].
  apply Hspec.
  - exact demo_course_assignments_wf.
  - reflexivity.
  - simpl. intros aname a [[= <- <-]|[[= <- <-]|[]]]; reflexivity.
Defined.

(** ** Zero weights *)

Lemma comprehension_values (V W : Type) (f : V -> W) (d : Dict.t V) (w : W) :
  In w (Dict.values (Dict.comprehension f d)) -> exists k v, In (k, v) d /\ w = f v.
Proof.
  unfold Dict.comprehension.
  assert (G : forall items acc,
             In w (Dict.values (fold_left (fun acc kv => Dict.set acc (fst kv) (f (snd kv)))
                                          items acc)) ->
             In w (Dict.values acc) \/ exists k v, In (k, v) items /\ w = f v).
  { induction items as [|[k v] items IH]; intros acc; simpl; [auto|].
    intros Hin. apply IH in Hin. destruct Hin as [Hin | [k' [v' [Hin Hw]]]].
    - assert (S : forall (acc : Dict.t W) k0 x,
                 In w (Dict.values (Dict.set acc k0 x)) -> In w (Dict.values acc) \/ w = x).
      { clear. induction acc as [|[k1 x1] acc IHa]; intros k0 x; simpl.
        - intros [<-|[]]. now right.
        - destruct (String.eqb k1 k0); simpl.
          + intros [<-|Hin]; auto.
          + intros [<-|Hin]; auto. apply IHa in Hin. tauto. }
      apply S in Hin. destruct Hin as [Hin | ->]; [now left | right; eauto].
    - right. eauto 6. }
  intros Hin. apply G in Hin. destruct Hin as [[] | Hin]. exact Hin.
Qed.

(** A sum of zeros, of either sign, is [+0.0]. *)
Lemma py_sum_zeros (ws : list float) :
  (forall w, In w ws -> eq0 w = true) -> py_sum ws = 0%float.
Proof.
  unfold py_sum. change (@zero float float64) with 0%float.
  induction ws as [|w ws IH]; intros Hz; simpl; [reflexivity|].
  rewrite FloatFacts.add_zero_zero by (apply Hz; now left).
  apply IH. intros w' Hw'. apply Hz. now right.
Qed.

Lemma total_weight_all_zero (c : Course float) :
  (forall aname a, In (aname, a) (assignments c) -> eq0 (weight a) = true) ->
  total_weight c = 1%float.
Proof.
  intros Hz. unfold total_weight. rewrite py_sum_zeros; [reflexivity|].
  intros w Hw. apply comprehension_values in Hw. destruct Hw as [k [a [Hin ->]]].
  eauto.
Qed.

Lemma total_value_all_zero (catalog : Dict.t (Assignment float)) (st : Student float) :
  (forall aname a, In (aname, a) catalog ->
     eq0 (weight a) = true
     /\ is_finite (percentage_value a (Dict.get_default (scores st) aname zero)) = true) ->
  total_value 1%float catalog st = 0%float.
Proof.
  unfold total_value. change (@zero float float64) with 0%float.
  induction catalog as [|[aname a] catalog IH]; intros Hz; simpl; [reflexivity|].
  destruct (Hz aname a (or_introl eq_refl)) as [Hw Hp].
  rewrite FloatFacts.add_zero_zero.
  - apply IH. intros aname' a' Hin. apply Hz. now right.
  - unfold contribution_value. simpl.
    apply FloatFacts.mul_finite_zero; [exact Hp | now apply FloatFacts.div_zero_one].
Qed.

(** C2, as the code has it.  Whenever the weights sum to 0 (the empty
    catalog included) the divisor is replaced by 1.0; and when every
    assignment's weight is 0, every student's weighted total is exactly 0.0,
    whatever scores are recorded, as long as each normalised percentage is a
    finite number. *)
Theorem zero_weights_give_zero_totals :
  (forall (num : Type) (N : Number num) (c : Course num),
      Dict.wf (assignments c) ->
      eq0 (sum_of_weights c) = true -> total_weight c = one)
  /\ (forall c : Course float,
         (forall aname a, In (aname, a) (assignments c) -> eq0 (weight a) = true) ->
         (forall sid st aname a,
             In (sid, st) (students c) -> In (aname, a) (assignments c) ->
             is_finite (percentage_value a (Dict.get_default (scores st) aname zero)) = true) ->
         total_weight c = 1%float
         /\ exists results,
             calculate_weighted_scores c = Some results
             /\ forall sid st, In (sid, st) (students c) ->
                               Dict.get results sid = Some 0%float).
Proof.
  split.
  - intros num N c Hwf Hsum. rewrite total_weight_wf by exact Hwf. now rewrite Hsum.
  - intros c Hw Hfin.
    split; [now apply total_weight_all_zero|].
    exists (results_of c). split; [apply calculate_weighted_scores_safe|].
    intros sid st Hin.
    destruct (results_of_covers c sid st Hin) as [t Ht]. rewrite Ht. f_equal.
    apply results_of_values in Ht. destruct Ht as [st' [Hin' ->]].
    rewrite total_weight_all_zero by exact Hw.
    rewrite total_value_all_zero; [reflexivity|].
    intros aname a Ha. split; eauto.
Qed.

(** With cancelling weights the divisor is 1.0; and before any weight is
    set, every total of the course is 0.0. *)
Lemma zero_weights_give_zero_totals_witness :
  total_weight cancelling_course = 1%float
  /\ total_weight unweighted_course = 1%float
  /\ exists results,
      calculate_weighted_scores unweighted_course = Some results
      /\ forall sid st, In (sid, st) (students unweighted_course) ->
                        Dict.get results sid = Some 0%float.
Proof.
  split.
  - apply (proj1 zero_weights_give_zero_totals float float64 cancelling_course).
    + unfold Dict.wf. simpl. repeat constructor; simpl; intuition discriminate.
    + reflexivity.
  - apply (proj2 zero_weights_give_zero_totals unweighted_course).
    + simpl. intros aname a [[= <- <-]|[[= <- <-]|[]]]; reflexivity.
    + simpl. intros sid st aname a [[= <- <-]|[[= <- <-]|[]]] [[= <- <-]|[[= <- <-]|[]]];
        vm_compute; reflexivity.
Defined.

(** C2 as stated fails.  The weights 1 and -1 sum to 0 and the student's
    total is 50; and with the single weight 0, a score read from the text
    [inf] makes the total NaN. *)
Lemma cancelling_weights_nonzero_total :
  (eq0 (sum_of_weights cancelling_course) = true
   /\ calculate_weighted_scores cancelling_course = Some [("s1", 50%float)])
  /\ (eq0 (sum_of_weights infinite_score_course) = true
      /\ calculate_weighted_scores infinite_score_course = Some [("s1", nan)]).
Proof. repeat split; vm_compute; reflexivity. Qed.

(** ** Assignments without points *)

(** Adding a zero leaves a total as it is; only [-0.0 + 0.0] changes the
    sign of a zero. *)
Lemma add_zero_unchanged (total x : float) :
  (x =? 0)%float = true ->
  (total + x)%float = total
  \/ ((total =? 0)%float = true /\ (total + x)%float = 0%float).
Proof.
  rewrite !FloatFacts.eqb_zero. intros Hx.
  destruct (Prim2SF total) as [s| s| |s m e] eqn:Et;
    destruct (Prim2SF x) as [sx| | |] eqn:Ex; try discriminate.
  - destruct s, sx.
    + left. apply Prim2SF_inj. now rewrite add_spec, Et, Ex.
    + right. split; [reflexivity|]. apply Prim2SF_inj. now rewrite add_spec, Et, Ex.
    + right. split; [reflexivity|]. apply Prim2SF_inj. now rewrite add_spec, Et, Ex.
    + left. apply Prim2SF_inj. now rewrite add_spec, Et, Ex.
  - left. apply Prim2SF_inj. now rewrite add_spec, Et, Ex.
  - left. apply Prim2SF_inj. now rewrite add_spec, Et, Ex.
  - left. apply Prim2SF_inj. now rewrite add_spec, Et, Ex.
Qed.

(** C3, as the code has it.  For an assignment whose max_score is 0 the
    percentage is 0.0 whatever the recorded score, and the assignment
    contributes a zero, which leaves the running total unchanged, whatever its
    weight as long as the share weight / total_weight is a finite number.
    [calculate_weighted_scores] never divides by zero: it returns for every
    course. *)
Theorem zero_max_score_contributes_nothing :
  (forall (c : Course float) (st : Student float) (aname : string) (a : Assignment float),
      eq0 (max_score a) = true ->
      (forall score, percentage a score = Some 0%float)
      /\ (is_finite (weight a / total_weight c) = true ->
          exists x,
            contribution (total_weight c) st aname a = Some x
            /\ (x =? 0)%float = true
            /\ forall total,
                (total + x)%float = total
                \/ ((total =? 0)%float = true /\ (total + x)%float = 0%float)))
  /\ (forall (num : Type) (N : Number num) (c : Course num),
         eq0 (total_weight c) = false
         /\ exists results, calculate_weighted_scores c = Some results).
Proof.
  split.
  - intros c st aname a Hmax. split.
    + intros score. rewrite percentage_safe. unfold percentage_value.
      now rewrite Hmax.
    + intros Hfin.
      exists (contribution_value (total_weight c) st (aname, a)).
      split; [apply contribution_safe, total_weight_nonzero|].
      assert (Hx : (contribution_value (total_weight c) st (aname, a) =? 0)%float = true).
      { unfold contribution_value, percentage_value. cbn [fst snd]. rewrite Hmax.
        change (@zero float float64) with 0%float.
        change (@mul float float64) with PrimFloat.mul.
        change (@quot float float64) with PrimFloat.div.
        rewrite FloatFacts.eqb_zero, mul_spec.
        rewrite FloatFacts.is_finite_SF_spec in Hfin.
        change (Prim2SF 0) with (S754_zero false).
        destruct (Prim2SF (weight a / total_weight c)); try discriminate; reflexivity. }
      split; [exact Hx|].
      intros total. now apply add_zero_unchanged.
  - intros num N c. split; [apply total_weight_nonzero|].
    exists (results_of c). apply calculate_weighted_scores_safe.
Qed.

(** A survey without points and with weight 0.5 contributes a zero. *)
Lemma zero_max_score_contributes_nothing_witness :
  exists x,
    contribution (total_weight ungraded_course)
                 (mkStudent "s1" "Alice" [("Survey", 7%float); ("Exam", 80%float)])
                 "Survey" ungraded = Some x
    /\ (x =? 0)%float = true.
Proof.
  destruct (proj1 zero_max_score_contributes_nothing ungraded_course
                  (mkStudent "s1" "Alice" [("Survey", 7%float); ("Exam", 80%float)])
                  "Survey" ungraded eq_refl) as [_ Hc].
  destruct (Hc eq_refl) as [x [Hx [Hz _]]].
  exists x. split; [exact Hx | exact Hz].
Defined.

(** C3 as stated fails: an assignment with max_score 0 whose weight is
    infinite contributes NaN, and the student's total is NaN. *)
Lemma infinite_weight_contributes_nan :
  eq0 (max_score bonus) = true
  /\ contribution (total_weight infinite_weight_course)
                  (mkStudent "s1" "Alice" [("Bonus", 5%float)]) "Bonus" bonus
     = Some nan
  /\ calculate_weighted_scores infinite_weight_course = Some [("s1", nan)].
Proof. repeat split; vm_compute; reflexivity. Qed.

(** Finite weights do the same once a share overflows. *)
Lemma overflowing_share_contributes_nan :
  total_weight overflow_course = 1e-10%float
  /\ calculate_weighted_scores overflow_course = Some [("s1", nan)].
Proof. split; vm_compute; reflexivity. Qed.

(* ================================================================== *)
(** * Letter grades *)

Module FloatOrder.

Lemma SFcompare_antisym (x y : spec_float) :
  SFcompare y x = option_map CompOpp (SFcompare x y).
Proof.
  destruct x as [sx|sx| |sx mx ex], y as [sy|sy| |sy my ey]; simpl;
    try reflexivity;
    try (destruct sx; reflexivity);
    try (destruct sy; reflexivity);
    try (destruct sx, sy; reflexivity).
  destruct sx, sy; simpl; try reflexivity;
    rewrite (Z.compare_antisym ex ey); destruct (ex ?= ey)%Z; simpl; try reflexivity;
    now rewrite (Pos.compare_cont_antisym mx my Eq).
Qed.

Lemma SFcompare_none (x y : spec_float) :
  SFcompare x y = None -> x = S754_nan \/ y = S754_nan.
Proof.
  destruct x as [sx|sx| |sx mx ex], y as [sy|sy| |sy my ey]; simpl; auto;
    try discriminate;
    try (destruct sx; discriminate);
    try (destruct sy; discriminate).
Qed.

(** On numbers that compare, [t < d] is the negation of [d <= t]. *)
Lemma ltb_negb_leb (c t d : float) :
  (c <=? t)%float = true -> (d =? d)%float = true ->
  (t <? d)%float = negb (d <=? t)%float.
Proof.
  rewrite !leb_spec, ltb_spec, FloatAxioms.eqb_spec.
  unfold SFleb, SFltb, SFeqb. intros Hc Hd.
  rewrite (SFcompare_antisym (Prim2SF t) (Prim2SF d)).
  destruct (SFcompare (Prim2SF t) (Prim2SF d)) as [[| |]|] eqn:E; try reflexivity.
  apply SFcompare_none in E. destruct E as [E|E]; rewrite E in *.
  - destruct (Prim2SF c); discriminate.
  - discriminate.
Qed.

(** [<=] is transitive. *)
Lemma leb_trans (x y z : float) :
  (x <=? y)%float = true -> (y <=? z)%float = true -> (x <=? z)%float = true.
Proof.
  rewrite !leb_spec. unfold SFleb, SFcompare.
  destruct (Prim2SF x) as [s1|s1| |s1 m1 e1], (Prim2SF y) as [s2|s2| |s2 m2 e2],
           (Prim2SF z) as [s3|s3| |s3 m3 e3];
    try discriminate; try reflexivity;
    try (destruct s1); try (destruct s2); try (destruct s3);
    try discriminate; try reflexivity.
  all: change (Pos.compare_cont Eq) with Pos.compare.
  all: destruct (Z.compare_spec e1 e2); try discriminate;
       destruct (Z.compare_spec e2 e3); try discriminate;
       destruct (Z.compare_spec e1 e3); try reflexivity; try lia.
  all: destruct (Pos.compare_spec m1 m2); try discriminate;
       destruct (Pos.compare_spec m2 m3); try discriminate;
       destruct (Pos.compare_spec m1 m3); try reflexivity; try lia.
Qed.

End FloatOrder.

Lemma numeric_to_letter_float (t : float) :
  numeric_to_letter t
  = if (90 <=? t)%float then "A"
    else if (80 <=? t)%float then "B"
    else if (70 <=? t)%float then "C"
    else if (60 <=? t)%float then "D"
    else "F".
Proof. reflexivity. Qed.

(** Below a literal bound, the larger literal bounds fail too. *)
Lemma below_bound (lo hi t : float) :
  (lo <=? hi)%float = true -> (lo <=? t)%float = false -> (hi <=? t)%float = false.
Proof.
  intros Hlh Hlo. destruct (hi <=? t)%float eqn:E; [|reflexivity].
  now rewrite (FloatOrder.leb_trans lo hi t Hlh E) in Hlo.
Qed.

(** C7, as the code has it.  [numeric_to_letter] maps a total [t] to A when
    [t >= 90], B when [80 <= t < 90], C when [70 <= t < 80], D when
    [60 <= t < 70] and F in every other case (a NaN included); the lower
    bounds are inclusive, and 90.0, 89.99, 80.0, 69.99, 60.0, 59.99 map to
    A, B, B, D, D, F. *)
Theorem numeric_to_letter_bands :
  (forall t : float,
      ((90 <=? t)%float = true -> numeric_to_letter t = "A")
      /\ ((80 <=? t)%float = true -> (t <? 90)%float = true -> numeric_to_letter t = "B")
      /\ ((70 <=? t)%float = true -> (t <? 80)%float = true -> numeric_to_letter t = "C")
      /\ ((60 <=? t)%float = true -> (t <? 70)%float = true -> numeric_to_letter t = "D")
      /\ ((90 <=? t)%float = false ->
          ((80 <=? t) && (t <? 90))%float = false ->
          ((70 <=? t) && (t <? 80))%float = false ->
          ((60 <=? t) && (t <? 70))%float = false ->
          numeric_to_letter t = "F"))
  /\ numeric_to_letter 90%float = "A"
  /\ numeric_to_letter 89.99%float = "B"
  /\ numeric_to_letter 80%float = "B"
  /\ numeric_to_letter 69.99%float = "D"
  /\ numeric_to_letter 60%float = "D"
  /\ numeric_to_letter 59.99%float = "F".
Proof.
  split; [|repeat split; vm_compute; reflexivity].
  intros t. rewrite numeric_to_letter_float.
  assert (L90 : forall c, (c <=? t)%float = true ->
                          (t <? 90)%float = negb (90 <=? t)%float)
    by (intros c Hc; now apply FloatOrder.ltb_negb_leb with (c := c)).
  assert (L80 : forall c, (c <=? t)%float = true ->
                          (t <? 80)%float = negb (80 <=? t)%float)
    by (intros c Hc; now apply FloatOrder.ltb_negb_leb with (c := c)).
  assert (L70 : forall c, (c <=? t)%float = true ->
                          (t <? 70)%float = negb (70 <=? t)%float)
    by (intros c Hc; now apply FloatOrder.ltb_negb_leb with (c := c)).
  assert (B89 : (80 <=? t)%float = false -> (90 <=? t)%float = false)
    by (now apply below_bound).
  assert (B78 : (70 <=? t)%float = false -> (80 <=? t)%float = false)
    by (now apply below_bound).
  assert (B67 : (60 <=? t)%float = false -> (70 <=? t)%float = false)
    by (now apply below_bound).
  repeat split.
  - now intros ->.
  - intros H80 H90. rewrite (L90 _ H80) in H90. apply negb_true_iff in H90.
    now rewrite H90, H80.
  - intros H70 H80. rewrite (L80 _ H70) in H80. apply negb_true_iff in H80.
    now rewrite (B89 H80), H80, H70.
  - intros H60 H70. rewrite (L70 _ H60) in H70. apply negb_true_iff in H70.
    now rewrite (B89 (B78 H70)), (B78 H70), H70, H60.
  - intros H90 HB HC HD. rewrite H90.
    destruct (60 <=? t)%float eqn:H60.
    + exfalso.
      rewrite (L70 _ H60) in HD. simpl in HD. apply negb_false_iff in HD.
      rewrite HD, (L80 _ HD) in HC. simpl in HC. apply negb_false_iff in HC.
      rewrite HC, (L90 _ HC) in HB. simpl in HB. apply negb_false_iff in HB.
      congruence.
    + pose proof (B67 eq_refl) as H70. pose proof (B78 H70) as H80.
      now rewrite H80, H70.
Qed.

(** 85 lies in the band of B. *)
Lemma numeric_to_letter_bands_witness : numeric_to_letter 85%float = "B".
Proof.
  apply (proj1 (proj2 (proj1 numeric_to_letter_bands 85%float))); vm_compute; reflexivity.
Defined.

(** C7 as stated fails at 69.99: it lies in the band of D, not of C. *)
Lemma letter_of_69_99 :
  (60 <=? 69.99)%float = true /\ (69.99 <? 70)%float = true
  /\ numeric_to_letter 69.99%float = "D"
  /\ numeric_to_letter 69.99%float <> "C".
Proof. repeat split; try (vm_compute; reflexivity). vm_compute. discriminate. Qed.

(* ================================================================== *)
(** * Bulk ingestion: properties *)

Section IngestionFacts.
Context {num : Type} `{Number num}.
Variable py_float : string -> option num.

Lemma register_assignment_app (catalog : Dict.t (Assignment num)) (aname : string) :
  register_assignment catalog aname
  = (catalog ++ if Dict.contains catalog aname then [] else [(aname, placeholder aname)])%list.
Proof.
  unfold register_assignment. destruct (Dict.contains catalog aname) eqn:E; simpl.
  - now rewrite app_nil_r.
  - now apply DictFacts.set_absent.
Qed.

Lemma record_score_known (c : Course num) (sid aname : string) (score : num)
      (st : Student num) :
  Dict.get (students c) sid = Some st ->
  record_score c sid aname score
  = Some (mkCourse (course_code c) (title c)
                   (Dict.set (students c) sid (with_score st aname score))
                   (register_assignment (assignments c) aname)).
Proof.
  intros Hget. unfold record_score, set_score. now rewrite Hget.
Qed.

Lemma roster_keys_record_score (c c' : Course num) (sid aname : string) (score : num) :
  record_score c sid aname score = Some c' ->
  Dict.keys (students c') = Dict.keys (students c).
Proof.
  unfold record_score, set_score.
  destruct (Dict.get (students c) sid) as [st|] eqn:E; simpl; [|discriminate].
  intros [= <-]. simpl. apply DictFacts.keys_set_present.
  apply DictFacts.contains_get. eauto.
Qed.

Lemma contains_of_keys (V W : Type) (d : Dict.t V) (d' : Dict.t W) (k : string) :
  Dict.keys d' = Dict.keys d -> Dict.contains d' k = Dict.contains d k.
Proof.
  intros Hk.
  destruct (Dict.contains d k) eqn:E.
  - apply DictFacts.contains_keys. rewrite Hk. now apply DictFacts.contains_keys.
  - destruct (Dict.contains d' k) eqn:E'; [|reflexivity].
    apply DictFacts.contains_keys in E'. rewrite Hk in E'.
    apply DictFacts.contains_keys in E'. congruence.
Qed.

(** What one cell does: nothing, or one recorded score. *)
Lemma import_cell_cases (sid : string) (row : list string) (c : Course num)
      (i : nat) (aname : string) :
  Dict.contains (students c) sid = true ->
  (import_cell py_float sid row c (i, aname) = Some c
   /\ (nth_error row i = None
       \/ exists field, nth_error row i = Some field
                        /\ (strip field = "" \/ py_float (strip field) = None)))
  \/ (exists field score,
         nth_error row i = Some field /\ strip field <> ""
         /\ py_float (strip field) = Some score
         /\ import_cell py_float sid row c (i, aname) = record_score c sid aname score
         /\ exists c', record_score c sid aname score = Some c').
Proof.
  intros Hsid. unfold import_cell.
  destruct (nth_error row i) as [field|] eqn:En; [|left; auto].
  destruct (String.eqb (strip field) "") eqn:Eb.
  - apply String.eqb_eq in Eb. left. split; [reflexivity|]. right. eauto.
  - apply String.eqb_neq in Eb.
    destruct (py_float (strip field)) as [score|] eqn:Ef.
    + right. exists field, score. repeat split; auto.
      apply DictFacts.contains_get in Hsid. destruct Hsid as [st Hst].
      rewrite (record_score_known c sid aname score st Hst). eauto.
    + left. split; [reflexivity|]. right. eauto.
Qed.

(** The cells of a row of a known student never raise, and keep the roster's
    keys. *)
Lemma import_cells_run (sid : string) (row : list string)
      (cells : list (nat * string)) (c : Course num) :
  Dict.contains (students c) sid = true ->
  exists c', for_each (import_cell py_float sid row) cells c = Some c'
             /\ Dict.keys (students c') = Dict.keys (students c).
Proof.
  revert c. induction cells as [|[i aname] cells IH]; intros c Hsid; cbn [for_each].
  - eauto.
  - destruct (import_cell_cases sid row c i aname Hsid)
      as [[Hc _] | [field [score [_ [_ [_ [Hc [c1 Hc1]]]]]]]].
    + rewrite Hc. cbn [bind]. now apply IH.
    + rewrite Hc, Hc1. cbn [bind].
      pose proof (roster_keys_record_score _ _ _ _ _ Hc1) as Hk.
      destruct (IH c1) as [c' [Hrun Hk']].
      * now rewrite (contains_of_keys _ _ _ _ sid Hk).
      * exists c'. split; [exact Hrun | congruence].
Qed.
End IngestionFacts.

Section NarrowFacts.
Context {num : Type} `{Number num}.
Variable py_float : string -> option num.

Lemma narrow_row_short (c : Course num) (processed failed : nat) (row : list string) :
  (List.length row < 3)%nat ->
  import_narrow_row py_float (c, processed, failed) row = Some (c, processed, S failed).
Proof.
  destruct row as [|f0 [|f1 [|f2 rest]]]; simpl; intros Hlen; try reflexivity; lia.
Qed.

Lemma narrow_row_rejected (c : Course num) (processed failed : nat)
      (f0 f1 f2 : string) (rest : list string) :
  py_float (strip f2) = None \/ Dict.contains (students c) (strip f0) = false ->
  import_narrow_row py_float (c, processed, failed) (f0 :: f1 :: f2 :: rest)
  = Some (c, processed, S failed).
Proof.
  intros Hbad. unfold import_narrow_row.
  destruct (py_float (strip f2)) as [score|]; [|reflexivity].
  destruct Hbad as [Hbad|Hbad]; [discriminate|]. now rewrite Hbad.
Qed.

Lemma narrow_row_recorded (c : Course num) (processed failed : nat)
      (f0 f1 f2 : string) (rest : list string) (score : num) (st : Student num) :
  py_float (strip f2) = Some score ->
  Dict.get (students c) (strip f0) = Some st ->
  import_narrow_row py_float (c, processed, failed) (f0 :: f1 :: f2 :: rest)
  = Some (mkCourse (course_code c) (title c)
                   (Dict.set (students c) (strip f0) (with_score st (strip f1) score))
                   (assignments c
                    ++ if Dict.contains (assignments c) (strip f1) then []
                       else [(strip f1, placeholder (strip f1))])%list,
          S processed, failed).
Proof.
  intros Hscore Hst. unfold import_narrow_row. rewrite Hscore.
  assert (Hc : Dict.contains (students c) (strip f0) = true)
    by (apply DictFacts.contains_get; eauto).
  rewrite Hc. cbn [negb].
  rewrite (record_score_known c (strip f0) (strip f1) score st Hst). cbn [bind].
  now rewrite register_assignment_app.
Qed.

(** Every row of the narrow format is counted exactly once. *)
Lemma narrow_row_counted (c : Course num) (processed failed : nat) (row : list string) :
  exists c' processed' failed',
    import_narrow_row py_float (c, processed, failed) row = Some (c', processed', failed')
    /\ (processed' + failed' = S (processed + failed))%nat.
Proof.
  destruct row as [|f0 [|f1 [|f2 rest]]];
    try (exists c, processed, (S failed); split; [reflexivity | lia]).
  destruct (py_float (strip f2)) as [score|] eqn:Es.
  - destruct (Dict.get (students c) (strip f0)) as [st|] eqn:Eg.
    + rewrite (narrow_row_recorded c processed failed f0 f1 f2 rest score st Es Eg).
      eexists _, _, _. split; [reflexivity | lia].
    + rewrite narrow_row_rejected.
      * eexists _, _, _. split; [reflexivity | lia].
      * right. unfold Dict.contains. now rewrite Eg.
  - rewrite narrow_row_rejected by auto.
    eexists _, _, _. split; [reflexivity | lia].
Qed.

Lemma narrow_rows_counted (rows : list (list string)) (c : Course num)
      (processed failed : nat) :
  exists c' processed' failed',
    for_each (import_narrow_row py_float) rows (c, processed, failed)
    = Some (c', processed', failed')
    /\ (processed' + failed' = List.length rows + (processed + failed))%nat.
Proof.
  revert c processed failed.
  induction rows as [|row rows IH]; intros c processed failed; cbn [for_each].
  - eexists _, _, _. split; [reflexivity | simpl; lia].
  - destruct (narrow_row_counted c processed failed row) as [c1 [p1 [f1 [Hrow Hcount]]]].
    rewrite Hrow. cbn [bind].
    destruct (IH c1 p1 f1) as [c' [p' [f' [Hrun Hsum]]]].
    exists c', p', f'. split; [exact Hrun | simpl; lia].
Qed.
End NarrowFacts.

Section WideFacts.
Context {num : Type} `{Number num}.
Variable py_float : string -> option num.

Lemma import_cell_skipped (sid : string) (row : list string) (c : Course num)
      (i : nat) (aname : string) :
  cell_skipped py_float row i -> import_cell py_float sid row c (i, aname) = Some c.
Proof.
  unfold cell_skipped, import_cell.
  intros [-> | [field [-> [Hblank | Hnan]]]]; [reflexivity | |].
  - rewrite Hblank. reflexivity.
  - destruct (String.eqb (strip field) ""); [reflexivity | now rewrite Hnan].
Qed.

Lemma import_cells_all_skipped (sid : string) (row : list string)
      (cells : list (nat * string)) (c : Course num) :
  (forall i aname, In (i, aname) cells -> cell_skipped py_float row i) ->
  for_each (import_cell py_float sid row) cells c = Some c.
Proof.
  induction cells as [|[i aname] cells IH]; intros Hskip; cbn [for_each]; [reflexivity|].
  rewrite import_cell_skipped by (apply (Hskip i aname); now left).
  cbn [bind]. apply IH. intros j a Hin. apply (Hskip j a). now right.
Qed.

Lemma wide_row_unknown (names : list string) (c : Course num) (processed failed : nat)
      (f0 : string) (rest : list string) :
  Dict.contains (students c) (strip f0) = false ->
  import_wide_row py_float names (c, processed, failed) (f0 :: rest)
  = Some (c, processed, S failed).
Proof. intros Hc. unfold import_wide_row. now rewrite Hc. Qed.

Lemma wide_row_known (names : list string) (c : Course num) (processed failed : nat)
      (f0 : string) (rest : list string) :
  Dict.contains (students c) (strip f0) = true ->
  exists c',
    for_each (import_cell py_float (strip f0) (f0 :: rest)) (enumerate 1 names) c = Some c'
    /\ import_wide_row py_float names (c, processed, failed) (f0 :: rest)
       = Some (c', S processed, failed)
    /\ Dict.keys (students c') = Dict.keys (students c).
Proof.
  intros Hc.
  destruct (import_cells_run py_float (strip f0) (f0 :: rest) (enumerate 1 names) c Hc)
    as [c' [Hrun Hk]].
  exists c'. split; [exact Hrun|]. split; [|exact Hk].
  unfold import_wide_row. rewrite Hc. cbn [negb]. now rewrite Hrun.
Qed.
End WideFacts.

(** ** The catalog under ingestion *)

Lemma for_each_runs {A S : Type} (body : S -> A -> option S) (items : list A) :
  (forall s x, exists s', body s x = Some s') ->
  forall s, exists s', for_each body items s = Some s'.
Proof.
  intros Hbody. induction items as [|x items IH]; intros s; cbn [for_each].
  - eauto.
  - destruct (Hbody s x) as [s1 ->]. cbn [bind]. apply IH.
Qed.

Section CatalogFacts.
Context {num : Type} `{Number num}.
Variable py_float : string -> option num.

Lemma catalog_extends_refl (cat : Dict.t (Assignment num)) : catalog_extends cat cat.
Proof. exists []. split; [now rewrite app_nil_r | constructor]. Qed.

Lemma contains_app_false (V : Type) (d d' : Dict.t V) (k : string) :
  Dict.contains (d ++ d')%list k = false -> Dict.contains d k = false.
Proof.
  intros Hc. destruct (Dict.contains d k) eqn:E; [|reflexivity].
  apply DictFacts.contains_keys in E.
  assert (Hin : In k (Dict.keys (d ++ d')%list))
    by (unfold Dict.keys in *; rewrite map_app; apply in_or_app; now left).
  apply DictFacts.contains_keys in Hin. congruence.
Qed.

Lemma catalog_extends_register (cat0 cat : Dict.t (Assignment num)) (aname : string) :
  catalog_extends cat0 cat -> catalog_extends cat0 (register_assignment cat aname).
Proof.
  intros [added [-> Hall]]. rewrite register_assignment_app.
  destruct (Dict.contains (cat0 ++ added)%list aname) eqn:E.
  - exists added. now rewrite app_nil_r.
  - exists (added ++ [(aname, placeholder aname)])%list.
    split; [now rewrite app_assoc|].
    apply Forall_app. split; [exact Hall|].
    constructor; [|constructor]. simpl. split; [reflexivity|].
    now apply contains_app_false with (d' := added).
Qed.

Lemma get_app_known (V : Type) (d d' : Dict.t V) (k : string) (v : V) :
  Dict.get d k = Some v -> Dict.get (d ++ d')%list k = Some v.
Proof.
  induction d as [|[k0 v0] d IH]; simpl; [discriminate|].
  destruct (String.eqb k0 k); auto.
Qed.

Lemma catalog_extends_get (cat0 cat : Dict.t (Assignment num)) (aname : string)
      (a : Assignment num) :
  catalog_extends cat0 cat -> Dict.get cat0 aname = Some a -> Dict.get cat aname = Some a.
Proof. intros [added [-> _]]. apply get_app_known. Qed.

Lemma record_score_extends (cat0 : Dict.t (Assignment num)) (c c' : Course num)
      (sid aname : string) (score : num) :
  catalog_extends cat0 (assignments c) ->
  record_score c sid aname score = Some c' ->
  catalog_extends cat0 (assignments c').
Proof.
  intros Hext. unfold record_score.
  destruct (set_score (students c) sid aname score); simpl; [|discriminate].
  intros [= <-]. simpl. now apply catalog_extends_register.
Qed.

Lemma import_cell_extends (cat0 : Dict.t (Assignment num)) (sid : string)
      (row : list string) (c c' : Course num) (cell : nat * string) :
  catalog_extends cat0 (assignments c) ->
  import_cell py_float sid row c cell = Some c' ->
  catalog_extends cat0 (assignments c').
Proof.
  intros Hext. unfold import_cell. destruct cell as [i aname].
  destruct (nth_error row i) as [field|]; [|now intros [= <-]].
  destruct (String.eqb (strip field) ""); [now intros [= <-]|].
  destruct (py_float (strip field)) as [score|]; [|now intros [= <-]].
  now apply record_score_extends.
Qed.

Lemma import_wide_row_extends (cat0 : Dict.t (Assignment num)) (names : list string)
      (s s' : import_state) (row : list string) :
  catalog_extends cat0 (assignments (fst (fst s))) ->
  import_wide_row py_float names s row = Some s' ->
  catalog_extends cat0 (assignments (fst (fst s'))).
Proof.
  destruct s as [[c processed] failed]. simpl. intros Hext.
  unfold import_wide_row. destruct row as [|f0 rest]; [now intros [= <-]|].
  destruct (Dict.contains (students c) (strip f0)); cbn [negb]; [|now intros [= <-]].
  destruct (for_each _ _ c) as [c1|] eqn:Erun; cbn [bind]; [|discriminate].
  intros [= <-]. simpl.
  revert Erun. apply for_each_invariant with (I := fun c => catalog_extends cat0 (assignments c));
    [|exact Hext].
  intros c2 cell c3 _. apply import_cell_extends.
Qed.

Lemma import_narrow_row_extends (cat0 : Dict.t (Assignment num))
      (s s' : import_state) (row : list string) :
  catalog_extends cat0 (assignments (fst (fst s))) ->
  import_narrow_row py_float s row = Some s' ->
  catalog_extends cat0 (assignments (fst (fst s'))).
Proof.
  destruct s as [[c processed] failed]. simpl. intros Hext.
  unfold import_narrow_row.
  destruct row as [|f0 [|f1 [|f2 rest]]]; try (now intros [= <-]).
  destruct (py_float (strip f2)) as [score|]; [|now intros [= <-]].
  destruct (Dict.contains (students c) (strip f0)); cbn [negb]; [|now intros [= <-]].
  destruct (record_score c (strip f0) (strip f1) score) as [c1|] eqn:Er; cbn [bind];
    [|discriminate].
  intros [= <-]. simpl. eapply record_score_extends; eauto.
Qed.

Lemma import_wide_row_runs (names : list string) (s : import_state) (row : list string) :
  exists s', import_wide_row py_float names s row = Some s'.
Proof.
  destruct s as [[c processed] failed]. destruct row as [|f0 rest]; [simpl; eauto|].
  destruct (Dict.contains (students c) (strip f0)) eqn:Ec.
  - destruct (wide_row_known py_float names c processed failed f0 rest Ec)
      as [c' [_ [Hrow _]]]. eauto.
  - rewrite (wide_row_unknown py_float names c processed failed f0 rest Ec). eauto.
Qed.

Lemma import_narrow_row_runs (s : import_state) (row : list string) :
  exists s', import_narrow_row py_float s row = Some s'.
Proof.
  destruct s as [[c processed] failed].
  destruct (narrow_row_counted py_float c processed failed row) as [c' [p [f [Hrow _]]]].
  eauto.
Qed.

Lemma bulk_import_runs (c : Course num) (rows : list (list string)) :
  exists s', bulk_import_grades_csv py_float c rows = Some s'.
Proof.
  unfold bulk_import_grades_csv. destruct rows as [|first data]; [eauto|].
  destruct (is_wide first).
  - apply for_each_runs. intros s x. apply import_wide_row_runs.
  - apply for_each_runs. intros s x. apply import_narrow_row_runs.
Qed.

Lemma bulk_import_extends (c : Course num) (rows : list (list string)) (s' : import_state) :
  bulk_import_grades_csv py_float c rows = Some s' ->
  catalog_extends (assignments c) (assignments (fst (fst s'))).
Proof.
  unfold bulk_import_grades_csv. destruct rows as [|first data].
  - intros [= <-]. apply catalog_extends_refl.
  - destruct (is_wide first).
    + apply for_each_invariant
        with (I := fun s => catalog_extends (assignments c) (assignments (fst (fst s))));
        [|apply catalog_extends_refl].
      intros s x s1 _. apply import_wide_row_extends.
    + apply for_each_invariant
        with (I := fun s => catalog_extends (assignments c) (assignments (fst (fst s))));
        [|apply catalog_extends_refl].
      intros s x s1 _. apply import_narrow_row_extends.
Qed.
End CatalogFacts.

(** C10.  Bulk ingestion, in either format, returns for every input, and
    the catalog it leaves holds every assignment that was there before with
    the same weight and max_score, in the same place; what it adds are
    placeholders (weight 0.0, max_score 100) for names that were absent. *)
Theorem bulk_import_keeps_existing_assignments :
  forall (num : Type) (N : Number num) (py_float : string -> option num)
         (c : Course num) (rows : list (list string)),
  exists c' processed failed,
    bulk_import_grades_csv py_float c rows = Some (c', processed, failed)
    /\ catalog_extends (assignments c) (assignments c')
    /\ forall aname a,
        Dict.get (assignments c) aname = Some a ->
        Dict.get (assignments c') aname = Some a.
Proof.
  intros num N py_float c rows.
  destruct (bulk_import_runs py_float c rows) as [[[c' processed] failed] Hrun].
  exists c', processed, failed. split; [exact Hrun|].
  pose proof (bulk_import_extends py_float c rows _ Hrun) as Hext. simpl in Hext.
  split; [exact Hext|].
  intros aname a. now apply catalog_extends_get.
Qed.

(* ================================================================== *)
(** * Outliers: properties *)

Section OutlierFacts.
Context {num : Type} `{Number num}.

Lemma collect_scores_recorded (c : Course num) (assignment_name : string) :
  collect_scores c assignment_name = recorded_scores c assignment_name.
Proof.
  unfold collect_scores, recorded_scores.
  assert (G : forall (l : list (Student num)) acc,
             fold_left (fun acc s =>
                          match Dict.get (scores s) assignment_name with
                          | Some v => (acc ++ [(id s, v)])%list
                          | None => acc
                          end) l acc
             = (acc ++ flat_map (fun s => match Dict.get (scores s) assignment_name with
                                          | Some v => [(id s, v)]
                                          | None => []
                                          end) l)%list).
  { induction l as [|s l IH]; intros acc; simpl; [now rewrite app_nil_r|].
    rewrite IH. destruct (Dict.get (scores s) assignment_name).
    - now rewrite <- app_assoc.
    - reflexivity. }
  apply G.
Qed.

Lemma flagged_filter (stdev bound_mean threshold : num) (recorded : list (string * num)) :
  eq0 stdev = false ->
  fold_left (fun outliers sv =>
               if eq0 stdev then outliers
               else if gt (absolute (sub (snd sv) bound_mean)) (mul threshold stdev)
                    then (outliers ++ [sv])%list
                    else outliers)
            recorded []
  = filter (fun sv => gt (absolute (sub (snd sv) bound_mean)) (mul threshold stdev))
           recorded.
Proof.
  intros Hs. rewrite Hs.
  assert (G : forall l acc,
             fold_left (fun outliers (sv : string * num) =>
                          if gt (absolute (sub (snd sv) bound_mean)) (mul threshold stdev)
                          then (outliers ++ [sv])%list
                          else outliers) l acc
             = (acc ++ filter (fun sv => gt (absolute (sub (snd sv) bound_mean))
                                            (mul threshold stdev)) l)%list).
  { induction l as [|sv l IH]; intros acc; simpl; [now rewrite app_nil_r|].
    rewrite IH. destruct (gt _ _).
    - now rewrite <- app_assoc.
    - reflexivity. }
  apply G.
Qed.

Lemma flagged_none (stdev bound_mean threshold : num) (recorded : list (string * num)) :
  eq0 stdev = true ->
  fold_left (fun outliers sv =>
               if eq0 stdev then outliers
               else if gt (absolute (sub (snd sv) bound_mean)) (mul threshold stdev)
                    then (outliers ++ [sv])%list
                    else outliers)
            recorded []
  = [].
Proof.
  intros Hs. rewrite Hs. generalize (@nil (string * num)).
  induction recorded as [|sv l IH]; intros acc; simpl; auto.
Qed.
End OutlierFacts.

(** C4.  [detect_outliers] returns the empty list when fewer than two
    students have a score for the assignment, without calling the library.
    With two scores or more it raises when [statistics.mean] or
    [statistics.stdev] raises on them; when both return it returns the
    (student id, score) pairs, in the order the students are stored, of the
    students with a recorded score whose distance from the mean is strictly
    greater than the threshold times the standard deviation, and the empty
    list when the standard deviation is 0. *)
Theorem detect_outliers_characterised :
  forall (num : Type) (N : Number num)
         (statistics_mean statistics_stdev : list num -> option num)
         (c : Course num) (assignment_name : string) (threshold_stddev : num),
    detect_outliers statistics_mean statistics_stdev c assignment_name threshold_stddev
    = (if (List.length (recorded_scores c assignment_name) <? 2)%nat then Some []
       else
         match statistics_mean (map snd (recorded_scores c assignment_name)) with
         | None => None
         | Some mean =>
             match statistics_stdev (map snd (recorded_scores c assignment_name)) with
             | None => None
             | Some stdev =>
                 Some (if eq0 stdev then []
                       else filter (fun sv => gt (absolute (sub (snd sv) mean))
                                                 (mul threshold_stddev stdev))
                                   (recorded_scores c assignment_name))
             end
         end).
Proof.
  intros num N statistics_mean statistics_stdev c assignment_name threshold_stddev.
  unfold detect_outliers. rewrite collect_scores_recorded.
  destruct (recorded_scores c assignment_name) as [|sv0 l] eqn:Er; [reflexivity|].
  rewrite length_map.
  destruct (List.length (sv0 :: l) <? 2)%nat; [reflexivity|].
  destruct (statistics_mean (map snd (sv0 :: l))) as [mean|]; [|reflexivity].
  destruct (statistics_stdev (map snd (sv0 :: l))) as [stdev|]; [|reflexivity].
  cbn [bind]. f_equal.
  pose proof (flagged_none stdev mean threshold_stddev (sv0 :: l)) as Hnone.
  pose proof (flagged_filter stdev mean threshold_stddev (sv0 :: l)) as Hsome.
  destruct (eq0 stdev); auto.
Qed.

(** Scores 10, 20 and 30: the mean is 20, the standard deviation 10, and
    with a threshold of half a deviation the first and the last are
    flagged. *)
Lemma detect_outliers_characterised_witness :
  detect_outliers mean_binary64 stdev_binary64 spread_course "Quiz" 0.5
  = Some [("s1", 10); ("s3", 30)].
Proof.
  rewrite (detect_outliers_characterised float float64 mean_binary64 stdev_binary64
             spread_course "Quiz" 0.5).
  vm_compute. reflexivity.
Defined.

(** C4 as stated fails: a score entered as [nan] is a recorded score like
    any other, two students have one, and [statistics.stdev] raises on the
    two values, so [detect_outliers] returns no list. *)
Lemma nan_score_stops_detect_outliers :
  recorded_scores nan_score_course "Quiz" = [("s1", nan); ("s2", 1)]
  /\ mean_binary64 [nan; 1] = Some nan
  /\ stdev_binary64 [nan; 1] = None
  /\ detect_outliers mean_binary64 stdev_binary64 nan_score_course "Quiz" 2 = None.
Proof. repeat split; vm_compute; reflexivity. Qed.

(* ================================================================== *)
(** * The bound on a total *)

(** ** Rounding in binary64

    The operations of [SpecFloat] on nonnegative numbers: each returns a
    float that is above the exact result by at most one unit in the last
    place, and an addition one that is below it by little. *)

Section Rounding.
Local Open Scope Z_scope.

Lemma digits2_pos_size (p : positive) : digits2_pos p = Pos.size p.
Proof. induction p; simpl; congruence. Qed.

Lemma Zdigits2_nonneg (m : Z) : 0 <= Zdigits2 m.
Proof. destruct m; simpl; lia. Qed.

Lemma Zdigits2_bounds (m : Z) :
  0 < m -> 2 ^ (Zdigits2 m - 1) <= m < 2 ^ Zdigits2 m.
Proof.
  destruct m as [|p|p]; try lia. intros _. simpl Zdigits2.
  rewrite digits2_pos_size.
  pose proof (Pos.size_gt p) as Hgt. pose proof (Pos.size_le p) as Hle.
  assert (Hpow : Zpos (2 ^ Pos.size p) = 2 ^ Zpos (Pos.size p)) by apply Pos2Z.inj_pow.
  split.
  - assert (2 ^ Zpos (Pos.size p) <= 2 * Zpos p) by (rewrite <- Hpow; exact Hle).
    replace (Zpos (Pos.size p)) with (Z.succ (Zpos (Pos.size p) - 1)) in H by lia.
    rewrite Z.pow_succ_r in H by lia. lia.
  - rewrite <- Hpow. exact Hgt.
Qed.

Lemma fexp_eq (e : Z) : fexp prec emax e = Z.max (e - 53) (-1074).
Proof. reflexivity. Qed.

Lemma shr_1_m (mrs : shr_record) :
  0 <= shr_m mrs -> shr_m (shr_1 mrs) = Z.div2 (shr_m mrs).
Proof.
  destruct mrs as [m r s]. simpl. destruct m as [|[p|p|]|p]; simpl; intros; try reflexivity; lia.
Qed.

Lemma shr_iter_m (p : positive) (mrs : shr_record) :
  0 <= shr_m mrs ->
  shr_m (iter_pos shr_1 p mrs) = Z.shiftr (shr_m mrs) (Zpos p).
Proof.
  revert mrs. induction p as [p IH|p IH|]; intros mrs Hm; simpl iter_pos.
  - assert (H1 : 0 <= shr_m (shr_1 mrs))
      by (rewrite shr_1_m by exact Hm; apply Z.div2_nonneg; exact Hm).
    assert (H2 : 0 <= shr_m (iter_pos shr_1 p (shr_1 mrs)))
      by (rewrite IH by exact H1; apply Z.shiftr_nonneg; exact H1).
    rewrite IH by exact H2. rewrite IH by exact H1. rewrite shr_1_m by exact Hm.
    rewrite Z.div2_spec. rewrite !Z.shiftr_shiftr by lia. f_equal. lia.
  - assert (H2 : 0 <= shr_m (iter_pos shr_1 p mrs))
      by (rewrite IH by exact Hm; apply Z.shiftr_nonneg; exact Hm).
    rewrite IH by exact H2. rewrite IH by exact Hm.
    rewrite !Z.shiftr_shiftr by lia. f_equal. lia.
  - rewrite shr_1_m by exact Hm. apply Z.div2_spec.
Qed.

Lemma shr_record_of_loc_m (m : Z) (l : location) : shr_m (shr_record_of_loc m l) = m.
Proof. destruct l as [|[| |]]; reflexivity. Qed.

Lemma loc_of_shr_record_of_loc (m : Z) (l : location) :
  loc_of_shr_record (shr_record_of_loc m l) = l.
Proof. destruct l as [|[| |]]; reflexivity. Qed.

(** What [shr_fexp] does to the mantissa and the exponent. *)
Lemma shr_fexp_spec (m e : Z) (l : location) :
  0 <= m ->
  let k := fexp prec emax (Zdigits2 m + e) - e in
  (k <= 0 -> shr_fexp prec emax m e l = (shr_record_of_loc m l, e))
  /\ (0 < k -> exists mrs, shr_fexp prec emax m e l = (mrs, e + k)
                           /\ shr_m mrs = m / 2 ^ k).
Proof.
  intros Hm k. unfold shr_fexp. fold k. split; intros Hk.
  - unfold shr. destruct k; try reflexivity. lia.
  - unfold shr. destruct k as [|p|p]; try lia.
    eexists. split; [reflexivity|].
    rewrite shr_iter_m by (rewrite shr_record_of_loc_m; exact Hm).
    rewrite shr_record_of_loc_m. apply Z.shiftr_div_pow2. lia.
Qed.

Lemma round_nearest_even_bounds (m : Z) (l : location) :
  m <= round_nearest_even m l <= m + 1.
Proof.
  destruct l as [|[| |]]; simpl; try lia. destruct (Z.even m); lia.
Qed.

Lemma round_nearest_even_exact (m : Z) : round_nearest_even m loc_Exact = m.
Proof. reflexivity. Qed.


Lemma bpow_pos (e : Z) : (0 < bpow e)%R.
Proof. apply powerRZ_lt. lra. Qed.

Lemma bpow_add (a b : Z) : (bpow (a + b) = bpow a * bpow b)%R.
Proof. apply powerRZ_add. lra. Qed.

Lemma bpow_IZR (k : Z) : 0 <= k -> bpow k = IZR (2 ^ k).
Proof.
  intros Hk. destruct k as [|p|p]; try lia; [reflexivity|].
  change (2 ^ Zpos p) with (Z.pow_pos 2 p). now rewrite Zpower_pos_powerRZ.
Qed.

Lemma bpow_le (a b : Z) : a <= b -> (bpow a <= bpow b)%R.
Proof.
  intros Hab. replace b with (a + (b - a)) by lia. rewrite bpow_add.
  rewrite (bpow_IZR (b - a)) by lia.
  assert (1 <= 2 ^ (b - a)) by (apply Z.lt_pred_le, Z.pow_pos_nonneg; lia).
  apply IZR_le in H. pose proof (bpow_pos a). nra.
Qed.

Lemma bpow_lt (a b : Z) : a < b -> (bpow a < bpow b)%R.
Proof.
  intros Hab. replace b with (a + (b - a)) by lia. rewrite bpow_add.
  rewrite (bpow_IZR (b - a)) by lia.
  assert (2 <= 2 ^ (b - a)).
  { replace (b - a) with (Z.succ (b - a - 1)) by lia. rewrite Z.pow_succ_r by lia.
    assert (0 < 2 ^ (b - a - 1)) by (apply Z.pow_pos_nonneg; lia). lia. }
  apply IZR_le in H. pose proof (bpow_pos a). nra.
Qed.

(** Dropping [k] low bits loses less than [2^k]. *)
Lemma shift_floor (m k e : Z) :
  0 <= m -> 0 <= k ->
  (IZR (m / 2 ^ k) * bpow (e + k) <= IZR m * bpow e)%R
  /\ (IZR m * bpow e - bpow (e + k) < IZR (m / 2 ^ k) * bpow (e + k))%R.
Proof.
  intros Hm Hk.
  assert (Hp : 0 < 2 ^ k) by (apply Z.pow_pos_nonneg; lia).
  pose proof (Z.div_mod m (2 ^ k) ltac:(lia)) as Hdm.
  pose proof (Z.mod_pos_bound m (2 ^ k) Hp) as Hr.
  rewrite bpow_add, (bpow_IZR k Hk).
  pose proof (bpow_pos e) as He.
  assert (H1 : (m / 2 ^ k) * 2 ^ k <= m) by lia.
  assert (H2 : m < (m / 2 ^ k) * 2 ^ k + 2 ^ k) by lia.
  apply IZR_le in H1. apply IZR_lt in H2.
  rewrite plus_IZR in H2. rewrite mult_IZR in H1, H2.
  split; nra.
Qed.

(** The unit in the last place against the value. *)
Lemma ulp_bound (m e : Z) :
  0 < m ->
  (bpow (fexp prec emax (Zdigits2 m + e)) <= IZR m * bpow e * bpow (-52) + bpow (-1074))%R.
Proof.
  intros Hm. rewrite fexp_eq.
  pose proof (bpow_pos e). pose proof (bpow_pos (-52)). pose proof (bpow_pos (-1074)).
  destruct (Z.max_spec (Zdigits2 m + e - 53) (-1074)) as [[_ ->] | [_ ->]].
  - assert (0 <= IZR m * bpow e * bpow (-52))%R.
    { apply Rmult_le_pos; [|lra]. apply Rmult_le_pos; [|lra]. apply IZR_le. lia. }
    lra.
  - destruct (Zdigits2_bounds m Hm) as [Hlo _].
    assert (Hd : 1 <= Zdigits2 m).
    { destruct m; simpl in *; lia. }
    replace (Zdigits2 m + e - 53) with ((Zdigits2 m - 1) + (e + -52)) by lia.
    rewrite !bpow_add, (bpow_IZR (Zdigits2 m - 1)) by lia.
    apply IZR_le in Hlo.
    assert (Hc : (0 < bpow e * bpow (-52))%R) by (apply Rmult_lt_0_compat; lra).
    replace (IZR m * bpow e * bpow (-52))%R with (IZR m * (bpow e * bpow (-52)))%R by ring.
    set (c := (bpow e * bpow (-52))%R) in *. nra.
Qed.


(** The two shifts and the rounding in between, spelled out. *)
Lemma binary_round_aux_steps (mx ex : Z) (lx : location) :
  0 <= mx ->
  exists m1 e1 m1' m2 e2,
    e1 = Z.max ex (fexp prec emax (Zdigits2 mx + ex))
    /\ m1 = mx / 2 ^ (e1 - ex)
    /\ m1 <= m1' <= m1 + 1
    /\ (lx = loc_Exact -> e1 = ex -> m1' = mx)
    /\ e2 = Z.max e1 (fexp prec emax (Zdigits2 m1' + e1))
    /\ m2 = m1' / 2 ^ (e2 - e1)
    /\ binary_round_aux prec emax false mx ex lx
       = match m2 with
         | Z0 => S754_zero false
         | Zpos p => if e2 <=? emax - prec then S754_finite false p e2
                     else S754_infinity false
         | Zneg _ => S754_nan
         end.
Proof.
  intros Hm. unfold binary_round_aux.
  destruct (shr_fexp_spec mx ex lx Hm) as [Hstay Hshift].
  set (k := fexp prec emax (Zdigits2 mx + ex) - ex) in *.
  assert (Hfirst : exists mrs e1,
             shr_fexp prec emax mx ex lx = (mrs, e1)
             /\ e1 = Z.max ex (fexp prec emax (Zdigits2 mx + ex))
             /\ shr_m mrs = mx / 2 ^ (e1 - ex)
             /\ (lx = loc_Exact -> e1 = ex ->
                 round_nearest_even (shr_m mrs) (loc_of_shr_record mrs) = mx)).
  { destruct (Z_le_gt_dec k 0) as [Hk|Hk].
    - exists (shr_record_of_loc mx lx), ex. split; [now apply Hstay|].
      split; [unfold k in Hk; lia|].
      rewrite shr_record_of_loc_m, loc_of_shr_record_of_loc, Z.sub_diag.
      split; [now rewrite Z.div_1_r|]. now intros ->.
    - destruct (Hshift ltac:(lia)) as [mrs [Hrun Hm1]].
      exists mrs, (ex + k). split; [exact Hrun|].
      split; [unfold k in *; lia|].
      split; [replace (ex + k - ex) with k by lia; exact Hm1|].
      intros _ He. lia. }
  destruct Hfirst as [mrs [e1 [Hrun [He1 [Hm1 Hexact]]]]].
  rewrite Hrun.
  set (m1' := round_nearest_even (shr_m mrs) (loc_of_shr_record mrs)) in *.
  pose proof (round_nearest_even_bounds (shr_m mrs) (loc_of_shr_record mrs)) as Hb.
  fold m1' in Hb.
  assert (Hm1pos : 0 <= shr_m mrs)
    by (rewrite Hm1; apply Z.div_pos; [exact Hm | apply Z.pow_pos_nonneg; lia]).
  assert (Hm1' : 0 <= m1') by lia.
  destruct (shr_fexp_spec m1' e1 loc_Exact Hm1') as [Hstay2 Hshift2].
  set (k2 := fexp prec emax (Zdigits2 m1' + e1) - e1) in *.
  exists (shr_m mrs), e1, m1'.
  destruct (Z_le_gt_dec k2 0) as [Hk|Hk].
  - exists m1', e1. rewrite (Hstay2 Hk). cbn [shr_m shr_record_of_loc].
    split; [exact He1|]. split; [exact Hm1|]. split; [exact Hb|].
    split; [exact Hexact|]. split; [unfold k2 in Hk; lia|].
    split; [now rewrite Z.sub_diag, Z.div_1_r | reflexivity].
  - destruct (Hshift2 ltac:(lia)) as [mrs2 [Hrun2 Hm2]].
    exists (shr_m mrs2), (e1 + k2). rewrite Hrun2.
    split; [exact He1|]. split; [exact Hm1|]. split; [exact Hb|].
    split; [exact Hexact|]. split; [unfold k2 in *; lia|].
    split; [replace (e1 + k2 - e1) with k2 by lia; exact Hm2 | reflexivity].
Qed.

Lemma binary_round_aux_rounded (mx ex : Z) (lx : location) :
  0 <= mx ->
  exists m1 e1 m1' m2 e2,
    e1 = Z.max ex (fexp prec emax (Zdigits2 mx + ex))
    /\ m1 = mx / 2 ^ (e1 - ex)
    /\ m1 <= m1' <= m1 + 1
    /\ (lx = loc_Exact -> e1 = ex -> m1' = mx)
    /\ e2 = Z.max e1 (fexp prec emax (Zdigits2 m1' + e1))
    /\ m2 = m1' / 2 ^ (e2 - e1)
    /\ rounded (binary_round_aux prec emax false mx ex lx) (IZR m2 * bpow e2).
Proof.
  intros Hm.
  destruct (binary_round_aux_steps mx ex lx Hm)
    as (m1 & e1 & m1' & m2 & e2 & He1 & Hm1 & Hb & Hex & He2 & Hm2 & Hrun).
  exists m1, e1, m1', m2, e2. repeat split; auto; try lia.
  rewrite Hrun.
  assert (Hm1nn : 0 <= m1)
    by (rewrite Hm1; apply Z.div_pos; [exact Hm | apply Z.pow_pos_nonneg; lia]).
  assert (Hm2nn : 0 <= m2)
    by (rewrite Hm2; apply Z.div_pos; [lia | apply Z.pow_pos_nonneg; lia]).
  destruct m2 as [|p|p]; try lia.
  - left. split; [reflexivity | simpl; ring].
  - destruct (e2 <=? emax - prec) eqn:E.
    + right. left. eauto.
    + right. right. split; [reflexivity|].
      apply Z.leb_gt in E. change (emax - prec) with 971 in E.
      assert (1 <= IZR (Zpos p))%R by (apply IZR_le; lia).
      pose proof (bpow_le 972 e2 ltac:(lia)). pose proof (bpow_pos 972). nra.
Qed.

(** Rounding up adds at most one unit in the last place. *)
Lemma steps_upper (mx ex : Z) (lx : location) (m1 e1 m1' m2 e2 : Z) :
  0 <= mx ->
  (0 < mx \/ ex <= -1074) ->
  (lx = loc_Exact \/ ex <= fexp prec emax (Zdigits2 mx + ex)) ->
  e1 = Z.max ex (fexp prec emax (Zdigits2 mx + ex)) ->
  m1 = mx / 2 ^ (e1 - ex) ->
  m1 <= m1' <= m1 + 1 ->
  (lx = loc_Exact -> e1 = ex -> m1' = mx) ->
  e2 = Z.max e1 (fexp prec emax (Zdigits2 m1' + e1)) ->
  m2 = m1' / 2 ^ (e2 - e1) ->
  (0 <= IZR m2 * bpow e2 <= IZR mx * bpow ex * (1 + bpow (-52)) + bpow (-1074))%R.
Proof.
  intros Hm Hz Hloc He1 Hm1 Hb Hex He2 Hm2.
  assert (Hm1nn : 0 <= m1)
    by (rewrite Hm1; apply Z.div_pos; [exact Hm | apply Z.pow_pos_nonneg; lia]).
  assert (Hm2nn : 0 <= m2)
    by (rewrite Hm2; apply Z.div_pos; [lia | apply Z.pow_pos_nonneg; lia]).
  pose proof (bpow_pos e2) as Hp2. pose proof (bpow_pos ex) as Hpx.
  pose proof (bpow_pos e1) as Hp1.
  pose proof (bpow_pos (-52)) as Hp52. pose proof (bpow_pos (-1074)) as Hpeta.
  split.
  - apply Rmult_le_pos; [apply IZR_le; lia | lra].
  - (* second shift only drops bits *)
    assert (H2 : (IZR m2 * bpow e2 <= IZR m1' * bpow e1)%R).
    { rewrite Hm2. replace e2 with (e1 + (e2 - e1)) at 2 by lia.
      apply shift_floor; lia. }
    (* first shift and rounding *)
    assert (Hmx : (0 <= IZR mx * bpow ex)%R)
      by (apply Rmult_le_pos; [apply IZR_le; lia | lra]).
    assert (H1 : (IZR m1' * bpow e1
                  <= IZR mx * bpow ex * (1 + bpow (-52)) + bpow (-1074))%R).
    { destruct (Z.eq_dec e1 ex) as [Heq|Hne].
      - (* no shift *)
        assert (Hm1eq : m1 = mx)
          by (rewrite Hm1, Heq, Z.sub_diag; apply Z.div_1_r).
        destruct Hloc as [Hexact | Hfexp].
        + rewrite (Hex Hexact Heq), Heq. nra.
        + assert (Hf : fexp prec emax (Zdigits2 mx + ex) = ex) by lia.
          assert (Hulp : (bpow ex <= IZR mx * bpow ex * bpow (-52) + bpow (-1074))%R).
          { destruct Hz as [Hpos | Hsmall].
            - rewrite <- Hf at 1. now apply ulp_bound.
            - assert (mx = 0 \/ 0 < mx) as [-> | Hpos] by lia.
              + simpl Zdigits2 in Hf. rewrite fexp_eq in Hf.
                assert (He : ex = -1074) by lia. rewrite He. simpl IZR. lra.
              + rewrite <- Hf at 1. now apply ulp_bound. }
          rewrite Heq.
          assert (IZR m1' <= IZR mx + 1)%R
            by (rewrite <- plus_IZR; apply IZR_le; lia).
          nra.
      - (* a shift to the exponent of the format *)
        assert (Hf : e1 = fexp prec emax (Zdigits2 mx + ex)) by lia.
        assert (Hlt : ex < e1) by lia.
        assert (Hulp : (bpow e1 <= IZR mx * bpow ex * bpow (-52) + bpow (-1074))%R).
        { assert (mx = 0 \/ 0 < mx) as [-> | Hpos] by lia.
          - destruct Hz as [? | Hsmall]; [lia|].
            simpl Zdigits2 in Hf. rewrite fexp_eq in Hf.
            assert (He : e1 = -1074) by lia. rewrite He. simpl IZR. lra.
          - rewrite Hf. now apply ulp_bound. }
        pose proof (proj1 (shift_floor mx (e1 - ex) ex Hm ltac:(lia))) as Hfl.
        replace (ex + (e1 - ex)) with e1 in Hfl by lia. rewrite <- Hm1 in Hfl.
        assert (IZR m1' <= IZR m1 + 1)%R
          by (rewrite <- plus_IZR; apply IZR_le; lia).
        nra. }
    lra.
Qed.

Lemma binary_round_aux_upper (mx ex : Z) (lx : location) :
  0 <= mx ->
  (0 < mx \/ ex <= -1074) ->
  (lx = loc_Exact \/ ex <= fexp prec emax (Zdigits2 mx + ex)) ->
  exists val,
    rounded (binary_round_aux prec emax false mx ex lx) val
    /\ (0 <= val <= IZR mx * bpow ex * (1 + bpow (-52)) + bpow (-1074))%R.
Proof.
  intros Hm Hz Hloc.
  destruct (binary_round_aux_rounded mx ex lx Hm)
    as (m1 & e1 & m1' & m2 & e2 & He1 & Hm1 & Hb & Hex & He2 & Hm2 & Hr).
  exists (IZR m2 * bpow e2)%R. split; [exact Hr|].
  now apply (steps_upper mx ex lx m1 e1 m1' m2 e2).
Qed.

(** An exact mantissa at an exponent of the format loses little. *)
Lemma steps_lower (mx ex : Z) (m1 e1 m1' m2 e2 : Z) :
  0 < mx -> -1074 <= ex ->
  e1 = Z.max ex (fexp prec emax (Zdigits2 mx + ex)) ->
  m1 = mx / 2 ^ (e1 - ex) ->
  m1 <= m1' <= m1 + 1 ->
  (e1 = ex -> m1' = mx) ->
  e2 = Z.max e1 (fexp prec emax (Zdigits2 m1' + e1)) ->
  m2 = m1' / 2 ^ (e2 - e1) ->
  (IZR mx * bpow ex * (1 - bpow (-52)) * (1 - bpow (-52)) <= IZR m2 * bpow e2)%R.
Proof.
  intros Hm Hex He1 Hm1 Hb Hexact' He2 Hm2.
  assert (Hexact : loc_Exact = loc_Exact -> e1 = ex -> m1' = mx) by auto.
  assert (Hm1nn : 0 <= m1)
    by (rewrite Hm1; apply Z.div_pos; [lia | apply Z.pow_pos_nonneg; lia]).
  pose proof (bpow_pos e2) as Hp2. pose proof (bpow_pos ex) as Hpx.
  pose proof (bpow_pos e1) as Hp1.
  pose proof (bpow_pos (-52)) as Hp52.
  assert (Hlt52 : (bpow (-52) < 1)%R)
    by (change 1%R with (bpow 0); apply bpow_lt; lia).
  assert (Hmx : (0 < IZR mx * bpow ex)%R)
    by (apply Rmult_lt_0_compat; [apply IZR_lt; lia | lra]).
  (* first shift *)
  assert (H1 : (IZR mx * bpow ex * (1 - bpow (-52)) <= IZR m1' * bpow e1)%R).
  { destruct (Z.eq_dec e1 ex) as [Heq|Hne].
    - rewrite (Hexact eq_refl Heq), Heq. nra.
    - assert (Hf : e1 = fexp prec emax (Zdigits2 mx + ex)) by lia.
      assert (Hcase : e1 = Zdigits2 mx + ex - 53) by (rewrite fexp_eq in Hf; lia).
      destruct (Zdigits2_bounds mx Hm) as [Hlo _].
      assert (Hd : 1 <= Zdigits2 mx) by (destruct mx; simpl in *; lia).
      assert (Hulp : (bpow e1 <= IZR mx * bpow ex * bpow (-52))%R).
      { rewrite Hcase.
        replace (Zdigits2 mx + ex - 53) with ((Zdigits2 mx - 1) + (ex + -52)) by lia.
        rewrite !bpow_add, (bpow_IZR (Zdigits2 mx - 1)) by lia.
        apply IZR_le in Hlo.
        assert (Hc : (0 < bpow ex * bpow (-52))%R) by (apply Rmult_lt_0_compat; lra).
        replace (IZR mx * bpow ex * bpow (-52))%R
          with (IZR mx * (bpow ex * bpow (-52)))%R by ring.
        set (c := (bpow ex * bpow (-52))%R) in *. nra. }
      pose proof (proj2 (shift_floor mx (e1 - ex) ex ltac:(lia) ltac:(lia))) as Hfl.
      replace (ex + (e1 - ex)) with e1 in Hfl by lia. rewrite <- Hm1 in Hfl.
      assert (IZR m1 <= IZR m1')%R by (apply IZR_le; lia).
      nra. }
  (* second shift *)
  assert (He1lo : -1074 <= e1) by lia.
  assert (H2 : (IZR m1' * bpow e1 * (1 - bpow (-52)) <= IZR m2 * bpow e2)%R).
  { destruct (Z.eq_dec e2 e1) as [Heq|Hne].
    - rewrite Hm2, Heq, Z.sub_diag, Z.div_1_r.
      assert (0 <= IZR m1' * bpow e1)%R
        by (apply Rmult_le_pos; [apply IZR_le; lia | lra]).
      nra.
    - assert (Hf : e2 = fexp prec emax (Zdigits2 m1' + e1)) by lia.
      assert (Hcase : e2 = Zdigits2 m1' + e1 - 53) by (rewrite fexp_eq in Hf; lia).
      assert (Hm1'pos : 0 < m1').
      { assert (m1' = 0 \/ 0 < m1') as [Hz | ?] by lia; [|assumption].
        rewrite Hz in Hcase. simpl in Hcase. lia. }
      destruct (Zdigits2_bounds m1' Hm1'pos) as [Hlo _].
      assert (Hd : 1 <= Zdigits2 m1') by (destruct m1'; simpl in *; lia).
      assert (Hulp : (bpow e2 <= IZR m1' * bpow e1 * bpow (-52))%R).
      { rewrite Hcase.
        replace (Zdigits2 m1' + e1 - 53) with ((Zdigits2 m1' - 1) + (e1 + -52)) by lia.
        rewrite !bpow_add, (bpow_IZR (Zdigits2 m1' - 1)) by lia.
        apply IZR_le in Hlo.
        assert (Hc : (0 < bpow e1 * bpow (-52))%R) by (apply Rmult_lt_0_compat; lra).
        replace (IZR m1' * bpow e1 * bpow (-52))%R
          with (IZR m1' * (bpow e1 * bpow (-52)))%R by ring.
        set (c := (bpow e1 * bpow (-52))%R) in *. nra. }
      pose proof (proj2 (shift_floor m1' (e2 - e1) e1 ltac:(lia) ltac:(lia))) as Hfl.
      replace (e1 + (e2 - e1)) with e2 in Hfl by lia. rewrite <- Hm2 in Hfl.
      lra. }
  assert (Hfac : (0 < 1 - bpow (-52))%R) by lra.
  nra.
Qed.

(** Both bounds on the result of rounding an exact mantissa. *)
Lemma binary_round_aux_exact (mx ex : Z) :
  0 < mx ->
  exists val,
    rounded (binary_round_aux prec emax false mx ex loc_Exact) val
    /\ (0 <= val <= IZR mx * bpow ex * (1 + bpow (-52)) + bpow (-1074))%R
    /\ (-1074 <= ex ->
        (IZR mx * bpow ex * (1 - bpow (-52)) * (1 - bpow (-52)) <= val)%R).
Proof.
  intros Hm.
  destruct (binary_round_aux_rounded mx ex loc_Exact ltac:(lia))
    as (m1 & e1 & m1' & m2 & e2 & He1 & Hm1 & Hb & Hex & He2 & Hm2 & Hr).
  exists (IZR m2 * bpow e2)%R. split; [exact Hr|]. split.
  - apply (steps_upper mx ex loc_Exact m1 e1 m1' m2 e2); auto; lia.
  - intros Hlo. apply (steps_lower mx ex m1 e1 m1' m2 e2); auto.
Qed.


Lemma rounded_outcome (r : spec_float) (val : R) : rounded r val -> outcome r val.
Proof.
  intros [[-> ->] | [[p [e [-> ->]]] | [-> Hbig]]].
  - left. split; reflexivity.
  - left. split; reflexivity.
  - right. split; [reflexivity | exact Hbig].
Qed.

Lemma SF2R_nonneg (x : spec_float) : is_nonneg_SF x = true -> (0 <= SF2R x)%R.
Proof.
  destruct x as [s|s| |[|] m e]; simpl; try discriminate; intros _; try lra.
  apply Rmult_le_pos; [apply IZR_le; lia | apply Rlt_le, bpow_pos].
Qed.

Lemma pos_iter_xO (m d : positive) : Zpos (Pos.iter xO m d) = Zpos m * 2 ^ Zpos d.
Proof.
  induction d as [|d IH] using Pos.peano_ind.
  - simpl. lia.
  - rewrite Pos.iter_succ, Pos2Z.inj_succ, Z.pow_succ_r by lia.
    rewrite Pos2Z.inj_xO, IH. ring.
Qed.

Lemma shl_align_spec (mx : positive) (ex ex' : Z) :
  snd (shl_align mx ex ex') = Z.min ex ex'
  /\ Zpos (fst (shl_align mx ex ex')) = Zpos mx * 2 ^ (ex - Z.min ex ex').
Proof.
  unfold shl_align. destruct (ex' - ex) as [|d|d] eqn:E; cbn [fst snd].
  - replace (Z.min ex ex') with ex by lia. rewrite Z.sub_diag. split; lia.
  - replace (Z.min ex ex') with ex by lia. rewrite Z.sub_diag. split; lia.
  - replace (Z.min ex ex') with ex' by lia. split; [reflexivity|].
    rewrite pos_iter_xO. f_equal. f_equal. lia.
Qed.

Lemma IZR_shift (m k e : Z) :
  0 <= k -> (IZR (m * 2 ^ k) * bpow e = IZR m * bpow (e + k))%R.
Proof.
  intros Hk. rewrite mult_IZR, bpow_add, (bpow_IZR k Hk). ring.
Qed.

Lemma valid_exponent (s : bool) (m : positive) (e : Z) :
  valid_binary (S754_finite s m e) = true -> -1074 <= e.
Proof.
  simpl. unfold bounded, canonical_mantissa. intros H.
  apply andb_prop in H. destruct H as [H _]. apply Z.eqb_eq in H.
  rewrite fexp_eq in H. lia.
Qed.

(** ** Multiplication *)

Lemma SFmul_nonneg (x y : spec_float) :
  is_nonneg_SF x = true -> is_nonneg_SF y = true ->
  exists val,
    outcome (SFmul prec emax x y) val
    /\ (0 <= val <= SF2R x * SF2R y * (1 + bpow (-52)) + bpow (-1074))%R.
Proof.
  intros Hx Hy.
  pose proof (bpow_pos (-52)) as Hp52. pose proof (bpow_pos (-1074)) as Hpeta.
  pose proof (SF2R_nonneg x Hx) as Hvx. pose proof (SF2R_nonneg y Hy) as Hvy.
  assert (Hzero : forall s, exists val,
               outcome (S754_zero s) val
               /\ (0 <= val <= SF2R x * SF2R y * (1 + bpow (-52)) + bpow (-1074))%R).
  { intros s. exists 0%R. split; [left; split; reflexivity|].
    split; [lra|]. assert (0 <= SF2R x * SF2R y)%R by now apply Rmult_le_pos. nra. }
  destruct x as [sx|sx| |[|] mx ex]; try discriminate;
    destruct y as [sy|sy| |[|] my ey]; try discriminate; try apply Hzero.
  cbn [SFmul xorb].
  destruct (binary_round_aux_upper (Zpos (mx * my)) (ex + ey) loc_Exact)
    as [val [Hr Hval]]; [lia | left; lia | now left |].
  exists val. split; [now apply rounded_outcome|].
  cbn [SF2R]. rewrite Pos2Z.inj_mul, mult_IZR, bpow_add in Hval.
  split; [lra|].
  replace (IZR (Zpos mx) * bpow ex * (IZR (Zpos my) * bpow ey))%R
    with (IZR (Zpos mx) * IZR (Zpos my) * (bpow ex * bpow ey))%R by ring.
  lra.
Qed.

(** ** Addition *)

Lemma SFadd_nonneg (x y : spec_float) :
  is_nonneg_SF x = true -> is_nonneg_SF y = true ->
  exists val,
    outcome (SFadd prec emax x y) val
    /\ (0 <= val <= (SF2R x + SF2R y) * (1 + bpow (-52)) + bpow (-1074))%R
    /\ (valid_binary x = true -> valid_binary y = true ->
        ((SF2R x + SF2R y) * (1 - bpow (-52)) * (1 - bpow (-52)) <= val)%R).
Proof.
  intros Hx Hy.
  pose proof (bpow_pos (-52)) as Hp52. pose proof (bpow_pos (-1074)) as Hpeta.
  assert (Hlt52 : (bpow (-52) < 1)%R)
    by (change 1%R with (bpow 0); apply bpow_lt; lia).
  pose proof (SF2R_nonneg x Hx) as Hvx. pose proof (SF2R_nonneg y Hy) as Hvy.
  assert (Hsame : forall r, is_nonneg_SF r = true -> SF2R r = (SF2R x + SF2R y)%R ->
             exists val,
               outcome r val
               /\ (0 <= val <= (SF2R x + SF2R y) * (1 + bpow (-52)) + bpow (-1074))%R
               /\ (valid_binary x = true -> valid_binary y = true ->
                   ((SF2R x + SF2R y) * (1 - bpow (-52)) * (1 - bpow (-52)) <= val)%R)).
  { intros r Hr Hv. exists (SF2R x + SF2R y)%R. split; [left; now split|].
    split; [nra|]. intros _ _.
    assert (Hsq : (0 <= (1 - bpow (-52)) * (1 - bpow (-52)) <= 1)%R) by nra.
    rewrite Rmult_assoc. set (a := (SF2R x + SF2R y)%R) in *.
    set (q := ((1 - bpow (-52)) * (1 - bpow (-52)))%R) in *.
    assert (0 <= a)%R by (unfold a; lra). nra. }
  destruct x as [sx|sx| |[|] mx ex]; try discriminate;
    destruct y as [sy|sy| |[|] my ey]; try discriminate.
  - apply Hsame; [destruct sx, sy; reflexivity | destruct sx, sy; simpl; ring].
  - apply Hsame; [reflexivity | simpl; ring].
  - apply Hsame; [reflexivity | simpl; ring].
  - cbn [SFadd cond_Zopp].
    set (ez := Z.min ex ey).
    destruct (shl_align_spec mx ex ez) as [_ Hax].
    destruct (shl_align_spec my ey ez) as [_ Hay].
    replace (Z.min ex ez) with ez in Hax by (unfold ez; lia).
    replace (Z.min ey ez) with ez in Hay by (unfold ez; lia).
    rewrite Hax, Hay.
    assert (Hpx : 0 < 2 ^ (ex - ez)) by (apply Z.pow_pos_nonneg; unfold ez; lia).
    assert (Hpy : 0 < 2 ^ (ey - ez)) by (apply Z.pow_pos_nonneg; unfold ez; lia).
    destruct (Zpos mx * 2 ^ (ex - ez) + Zpos my * 2 ^ (ey - ez)) as [|p|p] eqn:Esum;
      try lia.
    cbn [binary_normalize]. unfold binary_round.
    destruct (shl_align_spec p ez (fexp prec emax (Zpos (digits2_pos p) + ez)))
      as [Hez' Hmz].
    destruct (shl_align p ez (fexp prec emax (Zpos (digits2_pos p) + ez)))
      as [mz ez'] eqn:Eal.
    cbn [fst snd] in Hez', Hmz. rewrite <- Hez' in Hmz.
    (* the value that is rounded *)
    assert (Hv : (IZR (Zpos mz) * bpow ez'
                  = IZR (Zpos mx) * bpow ex + IZR (Zpos my) * bpow ey)%R).
    { rewrite Hmz, IZR_shift by lia. replace (ez' + (ez - ez')) with ez by lia.
      rewrite <- Esum, plus_IZR, Rmult_plus_distr_r.
      rewrite !IZR_shift by (unfold ez; lia).
      replace (ez + (ex - ez)) with ex by lia.
      replace (ez + (ey - ez)) with ey by lia. reflexivity. }
    destruct (binary_round_aux_exact (Zpos mz) ez' ltac:(lia)) as [val [Hr [Hval Hlow]]].
    exists val. split; [now apply rounded_outcome|].
    cbn [SF2R]. rewrite Hv in Hval, Hlow. split; [exact Hval|].
    intros Hvx' Hvy'.
    apply valid_exponent in Hvx', Hvy'.
    apply Hlow. rewrite Hez'. rewrite fexp_eq. unfold ez. lia.
Qed.


Lemma fexp_mono (a b : Z) : a <= b -> fexp prec emax a <= fexp prec emax b.
Proof. rewrite !fexp_eq. lia. Qed.

Lemma fexp_lower (a : Z) : -1074 <= fexp prec emax a.
Proof. rewrite fexp_eq. lia. Qed.

Lemma Zdigits2_lower (q k : Z) : 0 <= k -> 2 ^ k <= q -> k + 1 <= Zdigits2 q.
Proof.
  intros Hk Hq.
  assert (Hpos : 0 < q) by (pose proof (Z.pow_pos_nonneg 2 k); lia).
  destruct (Zdigits2_bounds q Hpos) as [_ Hhi].
  destruct (Z_lt_le_dec k (Zdigits2 q)) as [?|Hle]; [lia|].
  pose proof (Z.pow_le_mono_r 2 (Zdigits2 q) k ltac:(lia) Hle). lia.
Qed.

(** ** Division *)

(** The quotient that is handed to the rounding: it is below the true
    quotient, and long enough for the rounding to end at an exponent of the
    format. *)
Lemma SFdiv_core_spec (m1 m2 : positive) (e1 e2 : Z) :
  exists q e' l,
    SFdiv_core_binary prec emax (Zpos m1) e1 (Zpos m2) e2 = (q, e', l)
    /\ 0 <= q
    /\ (0 < q \/ e' <= -1074)
    /\ e' <= fexp prec emax (Zdigits2 q + e')
    /\ (IZR q * bpow e' * (IZR (Zpos m2) * bpow e2) <= IZR (Zpos m1) * bpow e1)%R.
Proof.
  unfold SFdiv_core_binary.
  set (d1 := Zdigits2 (Zpos m1)). set (d2 := Zdigits2 (Zpos m2)).
  set (D := d1 + e1 - (d2 + e2)).
  set (e' := Z.min (fexp prec emax D) (e1 - e2)).
  set (s := e1 - e2 - e').
  assert (Hs : 0 <= s) by (unfold s, e'; lia).
  assert (Es : s = e1 - e2 - e') by reflexivity. clearbody s.
  set (m' := match s with
             | 0 => Zpos m1
             | Zpos _ => Z.shiftl (Zpos m1) s
             | Zneg _ => 0
             end).
  assert (Hm' : m' = Zpos m1 * 2 ^ s).
  { unfold m'. destruct s as [|p|p]; try lia.
    apply Z.shiftl_mul_pow2. lia. }
  clearbody m'.
  assert (Hdiv : Z.div_eucl m' (Zpos m2) = (m' / Zpos m2, m' mod Zpos m2)).
  { unfold Z.div, Z.modulo. now destruct (Z.div_eucl m' (Zpos m2)). }
  rewrite Hdiv.
  set (q := m' / Zpos m2).
  exists q, e', (new_location (Zpos m2) (m' mod Zpos m2)).
  split; [reflexivity|].
  assert (Hp2 : 0 < 2 ^ s) by (apply Z.pow_pos_nonneg; lia).
  assert (Hm'pos : 0 < m') by (rewrite Hm'; lia).
  assert (Hq : 0 <= q) by (apply Z.div_pos; lia).
  assert (Hqm : q * Zpos m2 <= m').
  { pose proof (Z.mul_div_le m' (Zpos m2) ltac:(lia)). unfold q. lia. }
  destruct (Zdigits2_bounds (Zpos m1) ltac:(lia)) as [Hlo1 _].
  destruct (Zdigits2_bounds (Zpos m2) ltac:(lia)) as [_ Hhi2].
  fold d1 in Hlo1. fold d2 in Hhi2.
  assert (Hd1 : 1 <= d1) by (unfold d1; simpl; lia).
  assert (Hd2 : 1 <= d2) by (unfold d2; simpl; lia).
  assert (Hlen : (0 < q \/ e' <= -1074) /\ e' <= fexp prec emax (Zdigits2 q + e')).
  { destruct (Z_le_gt_dec 1 (d1 + s - d2)) as [Hlong|Hshort].
    - (* the quotient has at least [d1 + s - d2] digits *)
      assert (Hqlo : 2 ^ (d1 + s - d2 - 1) <= q).
      { unfold q. apply Z.div_le_lower_bound; [lia|].
        rewrite Hm'.
        assert (H2 : 2 ^ (d1 + s - d2 - 1) * 2 ^ d2 = 2 ^ (d1 - 1) * 2 ^ s).
        { rewrite <- !Z.pow_add_r by lia. f_equal. lia. }
        assert (0 < 2 ^ (d1 + s - d2 - 1)) by (apply Z.pow_pos_nonneg; lia).
        nia. }
      assert (0 < 2 ^ (d1 + s - d2 - 1)) by (apply Z.pow_pos_nonneg; lia).
      split; [left; lia|].
      pose proof (Zdigits2_lower q (d1 + s - d2 - 1) ltac:(lia) Hqlo) as Hdq.
      assert (HD : D <= Zdigits2 q + e') by (unfold D in *; lia).
      pose proof (fexp_mono _ _ HD). unfold e' at 1. lia.
    - (* the quotient underflows *)
      assert (HD : D <= e') by (unfold D in *; lia).
      assert (He' : e' <= -1074).
      { assert (e' <= fexp prec emax D) by (unfold e'; lia).
        rewrite fexp_eq in H. lia. }
      split; [right; exact He'|].
      pose proof (fexp_lower (Zdigits2 q + e')). lia. }
  split; [exact Hq|]. split; [apply Hlen|]. split; [apply Hlen|].
  (* the value *)
  apply IZR_le in Hqm. rewrite Hm', !mult_IZR, <- (bpow_IZR s Hs) in Hqm.
  assert (Hb : bpow e1 = (bpow e' * bpow e2 * bpow s)%R)
    by (rewrite <- !bpow_add; f_equal; lia).
  rewrite Hb.
  pose proof (bpow_pos e') as Hpe'. pose proof (bpow_pos e2) as Hpe2.
  assert (Hc : (0 < bpow e' * bpow e2)%R) by (apply Rmult_lt_0_compat; lra).
  replace (IZR q * bpow e' * (IZR (Zpos m2) * bpow e2))%R
    with (IZR q * IZR (Zpos m2) * (bpow e' * bpow e2))%R by ring.
  replace (IZR (Zpos m1) * (bpow e' * bpow e2 * bpow s))%R
    with (IZR (Zpos m1) * bpow s * (bpow e' * bpow e2))%R by ring.
  apply Rmult_le_compat_r; lra.
Qed.

Lemma SFdiv_nonneg (x : spec_float) (my : positive) (ey : Z) :
  is_nonneg_SF x = true ->
  exists val,
    outcome (SFdiv prec emax x (S754_finite false my ey)) val
    /\ (0 <= val
        <= SF2R x / SF2R (S754_finite false my ey) * (1 + bpow (-52)) + bpow (-1074))%R.
Proof.
  intros Hx.
  pose proof (bpow_pos (-52)) as Hp52. pose proof (bpow_pos (-1074)) as Hpeta.
  assert (Hy : (0 < SF2R (S754_finite false my ey))%R).
  { simpl. apply Rmult_lt_0_compat; [apply IZR_lt; lia | apply bpow_pos]. }
  destruct x as [sx|sx| |[|] mx ex]; try discriminate.
  - exists 0%R. split; [left; split; reflexivity|].
    cbn [SF2R]. unfold Rdiv. rewrite !Rmult_0_l. lra.
  - cbn [SFdiv xorb].
    destruct (SFdiv_core_spec mx my ex ey) as (q & e' & l & Hcore & Hq & Hz & Hf & Hv).
    rewrite Hcore.
    destruct (binary_round_aux_upper q e' l Hq Hz (or_intror Hf)) as [val [Hr Hval]].
    exists val. split; [now apply rounded_outcome|].
    split; [lra|].
    change (IZR (Zpos my) * bpow ey)%R with (SF2R (S754_finite false my ey)) in Hv.
    change (IZR (Zpos mx) * bpow ex)%R with (SF2R (S754_finite false mx ex)) in Hv.
    set (vx := SF2R (S754_finite false mx ex)) in *.
    set (vy := SF2R (S754_finite false my ey)) in *.
    assert (Hquot : (IZR q * bpow e' <= vx / vy)%R).
    { apply (Rmult_le_reg_r vy); [exact Hy|].
      replace (vx / vy * vy)%R with vx by (field; lra). exact Hv. }
    assert (0 <= IZR q * bpow e')%R
      by (apply Rmult_le_pos; [apply IZR_le; lia | apply Rlt_le, bpow_pos]).
    nra.
Qed.

Lemma SFdiv_by_infinity (x : spec_float) :
  is_nonneg_SF x = true ->
  is_nonneg_SF (SFdiv prec emax x (S754_infinity false)) = true
  /\ SF2R (SFdiv prec emax x (S754_infinity false)) = 0%R.
Proof.
  destruct x as [sx|sx| |[|] mx ex]; try discriminate; intros _; split; reflexivity.
Qed.

(** ** Order *)

Lemma SFleb_values (x y : spec_float) :
  is_nonneg_SF x = true -> is_nonneg_SF y = true ->
  valid_binary x = true -> valid_binary y = true ->
  SFleb x y = true -> (SF2R x <= SF2R y)%R.
Proof.
  intros Hx Hy Vx Vy Hle.
  pose proof (SF2R_nonneg y Hy) as Hvy.
  destruct x as [sx|sx| |[|] mx ex]; try discriminate; [exact Hvy|].
  destruct y as [sy|sy| |[|] my ey]; try discriminate.
  unfold SFleb, SFcompare in Hle. cbn [SF2R].
  simpl in Vx, Vy. unfold bounded, canonical_mantissa in Vx, Vy.
  apply andb_prop in Vx, Vy. destruct Vx as [Vx _], Vy as [Vy _].
  apply Z.eqb_eq in Vx, Vy.
  destruct (Zdigits2_bounds (Zpos mx) ltac:(lia)) as [_ Hhix].
  destruct (Zdigits2_bounds (Zpos my) ltac:(lia)) as [Hloy _].
  simpl Zdigits2 in Hhix, Hloy.
  pose proof (bpow_pos ex) as Hpx. pose proof (bpow_pos ey) as Hpy.
  destruct (Z.compare_spec ex ey) as [Heq|Hlt|Hgt]; try discriminate.
  - subst ey. apply Rmult_le_compat_r; [lra|]. apply IZR_le.
    change (Pos.compare_cont Eq mx my) with (Pos.compare mx my) in Hle.
    destruct (Pos.compare_spec mx my) as [E|E|E]; try discriminate; lia.
  - (* a smaller exponent means fewer digits *)
    set (dx := Zpos (digits2_pos mx)) in *. set (dy := Zpos (digits2_pos my)) in *.
    assert (Hd : dx + ex < dy + ey).
    { destruct (Z_lt_le_dec (dx + ex) (dy + ey)) as [?|Hge]; [assumption|].
      pose proof (fexp_mono _ _ Hge). lia. }
    apply Rle_trans with (bpow (dx + ex)).
    + rewrite bpow_add, (bpow_IZR dx) by (unfold dx; lia).
      apply Rmult_le_compat_r; [lra|]. apply IZR_le. lia.
    + apply Rle_trans with (bpow (dy - 1 + ey)).
      * apply bpow_le. lia.
      * rewrite bpow_add, (bpow_IZR (dy - 1)) by (unfold dy; lia).
        apply Rmult_le_compat_r; [lra|]. apply IZR_le. lia.
Qed.

Lemma nonneg_F2R (x : float) : nonneg x -> (0 <= F2R x)%R.
Proof. apply SF2R_nonneg. Qed.

(** ** The constants of the format *)

Lemma eps_value : bpow (-52) = (/ 4503599627370496)%R.
Proof.
  change (-52) with (- (52)). rewrite powerRZ_neg'. f_equal.
  rewrite (bpow_IZR 52) by lia. reflexivity.
Qed.

Lemma eta_small : (0 < bpow (-1074) <= / 1267650600228229401496703205376)%R.
Proof.
  split; [apply bpow_pos|].
  apply Rle_trans with (bpow (-100)); [apply bpow_le; lia|].
  change (-100) with (- (100)). rewrite powerRZ_neg'.
  rewrite (bpow_IZR 100) by lia. apply Rle_refl.
Qed.

Lemma range_large : (1048576 <= bpow 972)%R.
Proof.
  apply Rle_trans with (bpow 20); [|apply bpow_le; lia].
  rewrite (bpow_IZR 20) by lia. apply Rle_refl.
Qed.

Lemma outcome_in_range (r : spec_float) (val : R) :
  outcome r val -> (val < 1048576)%R -> is_nonneg_SF r = true /\ SF2R r = val.
Proof.
  intros [H | [_ Hbig]] Hval; [exact H|].
  pose proof range_large. lra.
Qed.

(** ** The operations on primitive floats *)

Lemma mul_bound (x y : float) :
  nonneg x -> nonneg y ->
  (F2R x * F2R y * (1 + bpow (-52)) + bpow (-1074) < 1048576)%R ->
  nonneg (x * y)
  /\ (F2R (x * y) <= F2R x * F2R y * (1 + bpow (-52)) + bpow (-1074))%R.
Proof.
  intros Hx Hy Hsmall. unfold nonneg, F2R in *. rewrite mul_spec. unfold SF64mul.
  destruct (SFmul_nonneg (Prim2SF x) (Prim2SF y) Hx Hy) as [val [Hout Hval]].
  destruct (outcome_in_range _ _ Hout ltac:(lra)) as [Hnn Hv].
  split; [exact Hnn|]. rewrite Hv. lra.
Qed.

Lemma add_bound (x y : float) :
  nonneg x -> nonneg y ->
  ((F2R x + F2R y) * (1 + bpow (-52)) + bpow (-1074) < 1048576)%R ->
  nonneg (x + y)
  /\ (F2R (x + y) <= (F2R x + F2R y) * (1 + bpow (-52)) + bpow (-1074))%R.
Proof.
  intros Hx Hy Hsmall. unfold nonneg, F2R in *. rewrite add_spec. unfold SF64add.
  destruct (SFadd_nonneg (Prim2SF x) (Prim2SF y) Hx Hy) as [val [Hout [Hval _]]].
  destruct (outcome_in_range _ _ Hout ltac:(lra)) as [Hnn Hv].
  split; [exact Hnn|]. rewrite Hv. lra.
Qed.

(** A sum of two nonnegative floats is plus infinity, or a nonnegative
    float not far below the exact sum. *)
Lemma add_lower (x y : float) :
  nonneg x -> nonneg y ->
  Prim2SF (x + y) = S754_infinity false
  \/ (nonneg (x + y)
      /\ ((F2R x + F2R y) * (1 - bpow (-52)) * (1 - bpow (-52)) <= F2R (x + y))%R).
Proof.
  intros Hx Hy. unfold nonneg, F2R in *. rewrite add_spec. unfold SF64add.
  destruct (SFadd_nonneg (Prim2SF x) (Prim2SF y) Hx Hy) as [val [Hout [_ Hlow]]].
  specialize (Hlow (Prim2SF_valid x) (Prim2SF_valid y)).
  destruct Hout as [[Hnn Hv] | [Hinf _]].
  - right. split; [exact Hnn|]. rewrite Hv. exact Hlow.
  - left. exact Hinf.
Qed.

Lemma add_infinity (x y : float) :
  Prim2SF x = S754_infinity false -> nonneg y ->
  Prim2SF (x + y) = S754_infinity false.
Proof.
  intros Hx Hy. unfold nonneg in Hy. rewrite add_spec, Hx. unfold SF64add.
  destruct (Prim2SF y) as [s|s| |[|] m e]; try discriminate; reflexivity.
Qed.

Lemma div_bound (x y : float) (my : positive) (ey : Z) :
  nonneg x -> Prim2SF y = S754_finite false my ey ->
  (F2R x / F2R y * (1 + bpow (-52)) + bpow (-1074) < 1048576)%R ->
  nonneg (x / y)
  /\ (F2R (x / y) <= F2R x / F2R y * (1 + bpow (-52)) + bpow (-1074))%R.
Proof.
  intros Hx Hy Hsmall. unfold nonneg, F2R in *. rewrite div_spec, Hy in *. unfold SF64div.
  destruct (SFdiv_nonneg (Prim2SF x) my ey Hx) as [val [Hout Hval]].
  destruct (outcome_in_range _ _ Hout ltac:(lra)) as [Hnn Hv].
  split; [exact Hnn|]. rewrite Hv. lra.
Qed.

Lemma div_by_infinity (x y : float) :
  nonneg x -> Prim2SF y = S754_infinity false ->
  nonneg (x / y) /\ F2R (x / y) = 0%R.
Proof.
  intros Hx Hy. unfold nonneg, F2R in *. rewrite div_spec, Hy. unfold SF64div.
  now apply SFdiv_by_infinity.
Qed.

Lemma leb_values (x y : float) :
  nonneg x -> nonneg y -> (x <=? y)%float = true -> (F2R x <= F2R y)%R.
Proof.
  intros Hx Hy Hle. rewrite leb_spec in Hle.
  apply SFleb_values; auto; apply Prim2SF_valid.
Qed.

(** A finite float that is at least 0 is not negative. *)
Lemma nonneg_of_leb (x : float) :
  is_finite x = true -> (0 <=? x)%float = true -> nonneg x.
Proof.
  intros Hfin Hle. unfold nonneg. rewrite leb_spec in Hle.
  change (Prim2SF 0) with (S754_zero false) in Hle.
  rewrite FloatFacts.is_finite_SF_spec in Hfin.
  destruct (Prim2SF x) as [s|s| |[|] m e]; try discriminate; reflexivity.
Qed.

(** What is at least a nonnegative float and not a zero is a positive float
    or plus infinity. *)
Lemma above_nonneg (x y : float) :
  nonneg x -> (x <=? y)%float = true -> (y =? 0)%float = false ->
  (exists my ey, Prim2SF y = S754_finite false my ey)
  \/ Prim2SF y = S754_infinity false.
Proof.
  unfold nonneg. intros Hx Hle Hz. rewrite leb_spec in Hle.
  rewrite FloatFacts.eqb_zero in Hz.
  destruct (Prim2SF x) as [sx|sx| |[|] mx ex]; try discriminate;
    destruct (Prim2SF y) as [sy|[|]| |[|] my ey]; try discriminate; eauto.
Qed.
End Rounding.

(** ** The two-decimal values up to 100 *)

Lemma cents_below_all : cents_below (Z.to_nat 10000) 1 = true.
Proof. vm_compute. reflexivity. Qed.

Lemma cents_below_spec (n : nat) (p q : positive) :
  cents_below n p = true -> (p <= q)%positive -> (Zpos q < Zpos p + Z.of_nat n)%Z ->
  (cents q <=? 100) = true.
Proof.
  revert p. induction n as [|n IH]; intros p Hall Hpq Hq; [lia|].
  cbn [cents_below] in Hall. apply andb_prop in Hall. destruct Hall as [Hp Hrest].
  destruct (Pos.eq_dec p q) as [->|Hne]; [exact Hp|].
  apply (IH (Pos.succ p)); [exact Hrest | lia | lia].
Qed.

Lemma float_round2_cents (x : float) (m : positive) (e : Z) :
  Prim2SF x = S754_finite false m e ->
  float_round2 x
  = match (if (0 <=? e)%Z then (Zpos m * 2 ^ e * 100)%Z
           else nearest_even_quot (Zpos m * 100) (2 ^ (- e))) with
    | Zpos p => cents p
    | _ => 0
    end.
Proof. intros Hx. unfold float_round2. rewrite Hx. reflexivity. Qed.

(** ** The accumulated error of a total *)

Section TotalBound.
Local Open Scope R_scope.

Lemma Rsum_nonneg (l : list R) : (forall x, In x l -> 0 <= x) -> 0 <= Rsum l.
Proof.
  induction l as [|x l IH]; intros Hl; simpl; [lra|].
  assert (0 <= x) by (apply Hl; now left).
  assert (0 <= Rsum l) by (apply IH; intros y Hy; apply Hl; now right).
  lra.
Qed.

Lemma Rsum_affine (A : Type) (f : A -> R) (k c : R) (l : list A) :
  Rsum (map (fun x => k * f x + c) l) = k * Rsum (map f l) + INR (List.length l) * c.
Proof.
  induction l as [|x l IH]; [simpl; ring|].
  cbn [map Rsum]. rewrite IH. change (List.length (x :: l)) with (S (List.length l)).
  rewrite S_INR. ring.
Qed.

Lemma Rsum_scaled (A : Type) (f : A -> R) (t : R) (l : list A) :
  Rsum (map (fun x => f x / t) l) = Rsum (map f l) / t.
Proof.
  induction l as [|x l IH]; [simpl; unfold Rdiv; ring|].
  cbn [map Rsum]. rewrite IH. unfold Rdiv. ring.
Qed.

Lemma Rsum_member (l : list R) (x : R) :
  (forall y, In y l -> 0 <= y) -> In x l -> x <= Rsum l.
Proof.
  induction l as [|y l IH]; intros Hl Hin; [destruct Hin|].
  simpl. destruct Hin as [-> | Hin].
  - assert (0 <= Rsum l) by (apply Rsum_nonneg; intros z Hz; apply Hl; now right). lra.
  - assert (0 <= y) by (apply Hl; now left).
    assert (x <= Rsum l) by (apply IH; [intros z Hz; apply Hl; now right | exact Hin]).
    lra.
Qed.

(** ** Two steps of error accumulation *)

Lemma upper_step (e a B b : R) :
  0 <= e -> 0 <= a <= 1 -> 0 <= B -> 0 <= b ->
  ((1 + a) * B + b) * (1 + e) <= (1 + (a + 2 * e)) * (B + b).
Proof.
  intros He Ha HB Hb.
  assert (H1 : (1 + a) * (1 + e) <= 1 + (a + 2 * e)) by nra.
  assert (H2 : (1 + a) * (1 + e) * B <= (1 + (a + 2 * e)) * B)
    by (apply Rmult_le_compat_r; assumption).
  assert (H3 : (1 + e) * b <= (1 + (a + 2 * e)) * b)
    by (apply Rmult_le_compat_r; [assumption | lra]).
  replace (((1 + a) * B + b) * (1 + e)) with ((1 + a) * (1 + e) * B + (1 + e) * b) by ring.
  lra.
Qed.

Lemma lower_step (e a S w : R) :
  0 <= e <= 1 -> 0 <= a -> a + 2 * e <= 1 -> 0 <= S -> 0 <= w ->
  (1 - (a + 2 * e)) * (S + w) <= ((1 - a) * S + w) * (1 - e) * (1 - e).
Proof.
  intros He Ha Hae HS Hw.
  assert (H1 : 1 - 2 * e <= (1 - e) * (1 - e)) by nra.
  assert (H0 : 0 <= (1 - a) * S) by (apply Rmult_le_pos; lra).
  assert (H2 : 0 <= (1 - a) * S + w) by lra.
  assert (H3 : ((1 - a) * S + w) * (1 - 2 * e) <= ((1 - a) * S + w) * ((1 - e) * (1 - e)))
    by (apply Rmult_le_compat_l; assumption).
  rewrite Rmult_assoc.
  assert (H4 : (1 - (a + 2 * e)) * S <= (1 - a) * (1 - 2 * e) * S)
    by (apply Rmult_le_compat_r; [assumption | nra]).
  assert (H5 : (1 - (a + 2 * e)) * w <= (1 - 2 * e) * w)
    by (apply Rmult_le_compat_r; [assumption | lra]).
  replace (((1 - a) * S + w) * (1 - 2 * e))
    with ((1 - a) * (1 - 2 * e) * S + (1 - 2 * e) * w) in H3 by ring.
  lra.
Qed.

(** ** The values of the literals *)

Lemma F2R_zero : F2R 0 = 0.
Proof. reflexivity. Qed.

Lemma F2R_one : F2R 1 = 1.
Proof.
  unfold F2R. change (Prim2SF 1) with (S754_finite false 4503599627370496 (-52)).
  cbn [SF2R]. rewrite eps_value. lra.
Qed.

Lemma F2R_hundred : F2R 100 = 100.
Proof.
  unfold F2R. change (Prim2SF 100) with (S754_finite false 7036874417766400 (-46)).
  cbn [SF2R]. change (-46)%Z with (- (46))%Z. rewrite powerRZ_neg'.
  rewrite (bpow_IZR 46) by lia. change (2 ^ 46)%Z with 70368744177664%Z. lra.
Qed.

Lemma nonneg_zero : nonneg 0.
Proof. reflexivity. Qed.

Lemma nonneg_hundred : nonneg 100.
Proof. reflexivity. Qed.

(** ** Percentages *)

Lemma percentage_bound (a : Assignment float) (s : float) :
  nonneg s -> (s <=? max_score a)%float = true ->
  nonneg (percentage_value a s)
  /\ F2R (percentage_value a s) <= 100 + / 1099511627776.
Proof.
  intros Hs Hle.
  pose proof (nonneg_F2R s Hs) as Hvs.
  destruct eta_small as [Heta0 Heta]. pose proof eps_value as Heps.
  unfold percentage_value.
  change (@eq0 float float64 (max_score a)) with (max_score a =? 0)%float.
  change (@zero float float64) with 0%float.
  change (@hundred float float64) with 100%float.
  change (@mul float float64) with PrimFloat.mul.
  change (@quot float float64) with PrimFloat.div.
  destruct (max_score a =? 0)%float eqn:Ez.
  - split; [exact nonneg_zero | rewrite F2R_zero; lra].
  - assert (Hq : nonneg (s / max_score a)
                 /\ F2R (s / max_score a) <= 1 + bpow (-52) + bpow (-1074)).
    { destruct (above_nonneg s (max_score a) Hs Hle Ez) as [[my [ey Hm]] | Hinf].
      - assert (Hnm : nonneg (max_score a)) by (unfold nonneg; now rewrite Hm).
        pose proof (leb_values s (max_score a) Hs Hnm Hle) as Hsm.
        assert (Hpos : 0 < F2R (max_score a)).
        { unfold F2R. rewrite Hm. cbn [SF2R].
          apply Rmult_lt_0_compat; [apply IZR_lt; lia | apply bpow_pos]. }
        assert (Hr : 0 <= F2R s / F2R (max_score a) <= 1).
        { split.
          - apply Rmult_le_pos; [exact Hvs | apply Rlt_le, Rinv_0_lt_compat, Hpos].
          - apply (Rmult_le_reg_r (F2R (max_score a))); [exact Hpos|].
            replace (F2R s / F2R (max_score a) * F2R (max_score a)) with (F2R s)
              by (field; lra).
            lra. }
        destruct (div_bound s (max_score a) my ey Hs Hm) as [Hn Hv].
        + rewrite Heps. nra.
        + split; [exact Hn|]. rewrite Heps in *. nra.
      - destruct (div_by_infinity s (max_score a) Hs Hinf) as [Hn Hv].
        split; [exact Hn|]. rewrite Hv, Heps. lra. }
    destruct Hq as [Hqn Hqv].
    pose proof (nonneg_F2R _ Hqn) as Hq0.
    destruct (mul_bound (s / max_score a) 100 Hqn nonneg_hundred) as [Hn Hv].
    + rewrite F2R_hundred, Heps in *. nra.
    + split; [exact Hn|]. rewrite F2R_hundred, Heps in *. nra.
Qed.


(** ** The sum of the weights *)

Lemma weights_fold (ws : list float) :
  forall (acc : float) (k : nat) (S : R),
    (forall w, In w ws -> nonneg w) ->
    0 <= S ->
    2 * INR (k + List.length ws) * bpow (-52) <= 1 ->
    sum_state acc k S ->
    sum_state (fold_left PrimFloat.add ws acc) (k + List.length ws)
              (S + Rsum (map F2R ws)).
Proof.
  induction ws as [|w ws IH]; intros acc k S Hws HS Hk Hacc.
  - cbn [fold_left map Rsum List.length]. now rewrite Nat.add_0_r, Rplus_0_r.
  - cbn [fold_left map Rsum]. change (List.length (w :: ws)) with (Datatypes.S (List.length ws)) in *.
    rewrite Nat.add_succ_r in *. rewrite <- Nat.add_succ_l in *.
    replace (S + (F2R w + Rsum (map F2R ws))) with (S + F2R w + Rsum (map F2R ws)) by ring.
    assert (Hw : nonneg w) by (apply Hws; now left).
    pose proof (nonneg_F2R w Hw) as Hvw.
    apply IH.
    + intros w' Hw'. apply Hws. now right.
    + lra.
    + exact Hk.
    + (* one more addition *)
      destruct Hacc as [Hinf | [Hn Hlow]].
      * left. now apply add_infinity.
      * destruct (add_lower acc w Hn Hw) as [Hinf | [Hn' Hlow']]; [now left|].
        right. split; [exact Hn'|].
        rewrite S_INR.
        pose proof (bpow_pos (-52)) as He.
        assert (He1 : bpow (-52) <= 1) by (rewrite eps_value; lra).
        assert (Hk0 : 0 <= INR k) by apply pos_INR.
        assert (Hlen : 0 <= INR (List.length ws)) by apply pos_INR.
        rewrite plus_INR, S_INR in Hk.
        assert (Ha : 2 * INR k * bpow (-52) + 2 * bpow (-52) <= 1) by nra.
        pose proof (lower_step (bpow (-52)) (2 * INR k * bpow (-52)) S (F2R w)
                      ltac:(lra) ltac:(nra) Ha HS Hvw) as Hstep.
        replace (2 * (INR k + 1) * bpow (-52))
          with (2 * INR k * bpow (-52) + 2 * bpow (-52)) by ring.
        eapply Rle_trans; [exact Hstep|].
        eapply Rle_trans; [|exact Hlow'].
        assert (H1e : 0 <= (1 - bpow (-52)) * (1 - bpow (-52))) by nra.
        rewrite !Rmult_assoc.
        apply Rmult_le_compat_r; [exact H1e | lra].
Qed.

(** ** Shares and contributions *)

Lemma share_bound (w tw : float) (rho : R) :
  nonneg w -> share_of tw w rho ->
  nonneg (w / tw) /\ 0 <= rho
  /\ F2R (w / tw) <= rho * (1 + bpow (-52)) + bpow (-1074).
Proof.
  intros Hw Hshare.
  pose proof (nonneg_F2R w Hw) as Hvw.
  destruct eta_small as [Heta0 Heta]. pose proof eps_value as Heps.
  destruct Hshare as [[[mt [et Htw]] [-> Hle]] | [Hinf ->]].
  - assert (Hpos : 0 < F2R tw).
    { unfold F2R. rewrite Htw. cbn [SF2R].
      apply Rmult_lt_0_compat; [apply IZR_lt; lia | apply bpow_pos]. }
    assert (Hr : 0 <= F2R w / F2R tw)
      by (apply Rmult_le_pos; [exact Hvw | apply Rlt_le, Rinv_0_lt_compat, Hpos]).
    destruct (div_bound w tw mt et Hw Htw) as [Hn Hv].
    + rewrite Heps. nra.
    + split; [exact Hn|]. split; [exact Hr | exact Hv].
  - destruct (div_by_infinity w tw Hw Hinf) as [Hn Hv].
    split; [exact Hn|]. split; [lra|]. rewrite Hv. lra.
Qed.

Lemma contribution_bound (tw : float) (st : Student float)
      (kv : string * Assignment float) (rho : R) :
  nonneg (weight (snd kv)) ->
  share_of tw (weight (snd kv)) rho ->
  nonneg (Dict.get_default (scores st) (fst kv) 0%float) ->
  (Dict.get_default (scores st) (fst kv) 0 <=? max_score (snd kv))%float = true ->
  nonneg (contribution_value tw st kv)
  /\ 0 <= rho
  /\ F2R (contribution_value tw st kv) + bpow (-1074)
     <= (100 + / 549755813888) * rho + / 618970019642690137449562112.
Proof.
  intros Hw Hshare Hs Hle.
  destruct eta_small as [Heta0 Heta]. pose proof eps_value as Heps.
  unfold contribution_value.
  change (@zero float float64) with 0%float.
  change (@mul float float64) with PrimFloat.mul.
  change (@quot float float64) with PrimFloat.div.
  destruct (percentage_bound (snd kv) _ Hs Hle) as [Hpn Hpv].
  destruct (share_bound _ tw rho Hw Hshare) as [Hsn [Hrho Hsv]].
  pose proof (nonneg_F2R _ Hpn) as Hp0. pose proof (nonneg_F2R _ Hsn) as Hs0.
  set (p := percentage_value (snd kv) (Dict.get_default (scores st) (fst kv) 0%float)) in *.
  set (sh := (weight (snd kv) / tw)%float) in *.
  assert (Hrho2 : rho <= 2).
  { destruct Hshare as [[_ [_ H2]] | [_ ->]]; lra. }
  assert (Hprod : F2R p * F2R sh <= (100 + / 1099511627776) * F2R sh)
    by (apply Rmult_le_compat_r; assumption).
  rewrite Heps in *.
  destruct (mul_bound p sh Hpn Hsn) as [Hn Hv].
  - rewrite Heps. nra.
  - split; [exact Hn|]. split; [exact Hrho|]. rewrite Heps in Hv. nra.
Qed.

(** ** The running total *)

Lemma total_fold (A : Type) (f : A -> float) (b : A -> R) (items : list A) :
  forall (acc : float) (k : nat) (B : R),
    nonneg acc ->
    F2R acc <= (1 + 2 * INR k * bpow (-52)) * B ->
    0 <= B ->
    2 * INR (k + List.length items) * bpow (-52) <= 1 ->
    B + Rsum (map b items) <= 1000 ->
    (forall x, In x items -> nonneg (f x) /\ 0 <= F2R (f x) + bpow (-1074) <= b x) ->
    nonneg (fold_left (fun total x => (total + f x)%float) items acc)
    /\ F2R (fold_left (fun total x => (total + f x)%float) items acc)
       <= (1 + 2 * INR (k + List.length items) * bpow (-52)) * (B + Rsum (map b items)).
Proof.
  induction items as [|x items IH]; intros acc k B Hacc Hv HB Hk Hsum Hitems.
  - cbn [fold_left map Rsum List.length]. rewrite Nat.add_0_r, Rplus_0_r. now split.
  - cbn [fold_left map Rsum].
    change (List.length (x :: items)) with (Datatypes.S (List.length items)) in *.
    rewrite Nat.add_succ_r in *. rewrite <- Nat.add_succ_l in *.
    replace (B + (b x + Rsum (map b items))) with (B + b x + Rsum (map b items)) by ring.
    cbn [map Rsum] in Hsum.
    destruct (Hitems x (or_introl eq_refl)) as [Hfx [Hfx0 Hfb]].
    pose proof (nonneg_F2R _ Hfx) as Hfv.
    pose proof (nonneg_F2R _ Hacc) as Hav.
    pose proof (bpow_pos (-52)) as He. pose proof (bpow_pos (-1074)) as Heta.
    pose proof eps_value as Heps.
    assert (Hrest : 0 <= Rsum (map b items)).
    { apply Rsum_nonneg. intros y Hy. apply in_map_iff in Hy.
      destruct Hy as [z [<- Hz]]. destruct (Hitems z (or_intror Hz)) as [_ [? ?]]. lra. }
    assert (Hk0 : 0 <= INR k) by apply pos_INR.
    assert (Hlen : 0 <= INR (List.length items)) by apply pos_INR.
    assert (Hk' := Hk). rewrite plus_INR, S_INR in Hk'.
    assert (Ha : 0 <= 2 * INR k * bpow (-52) <= 1) by nra.
    assert (HaccB : F2R acc <= 2 * B) by nra.
    destruct (add_bound acc (f x) Hacc Hfx) as [Hn Hadd].
    { rewrite Heps in *. nra. }
    apply IH.
    + exact Hn.
    + rewrite S_INR.
      replace (2 * (INR k + 1) * bpow (-52))
        with (2 * INR k * bpow (-52) + 2 * bpow (-52)) by ring.
      eapply Rle_trans; [exact Hadd|].
      eapply Rle_trans;
        [|apply (upper_step (bpow (-52)) (2 * INR k * bpow (-52)) B (b x)); lra].
      assert (F2R acc + F2R (f x) + bpow (-1074) <= (1 + 2 * INR k * bpow (-52)) * B + b x)
        by lra.
      nra.
    + lra.
    + exact Hk.
    + lra.
    + intros y Hy. apply Hitems. now right.
Qed.


(** ** Rounding to two decimals *)

Lemma nearest_even_quot_below (a b n : Z) :
  (0 < b)%Z -> (2 * a < (2 * n + 1) * b)%Z -> (nearest_even_quot a b <= n)%Z.
Proof.
  intros Hb Ha. unfold nearest_even_quot.
  pose proof (Z.div_mod a b ltac:(lia)) as Hdm.
  pose proof (Z.mod_pos_bound a b Hb) as Hr.
  destruct (Z.compare_spec (2 * (a mod b)) b) as [He|Hl|Hg].
  - destruct (Z.even (a / b)); nia.
  - nia.
  - nia.
Qed.

Lemma round2_at_most_100 (t : float) :
  nonneg t -> F2R t < 100 + 5 / 1000 -> (float_round2 t <=? 100)%float = true.
Proof.
  unfold nonneg, F2R. intros Hn Hv.
  destruct (Prim2SF t) as [s|s| |[|] m e] eqn:Et; try discriminate.
  - unfold float_round2. rewrite Et. rewrite leb_spec, Et. now destruct s.
  - rewrite (float_round2_cents t m e Et). cbn [SF2R] in Hv.
    set (n := if (0 <=? e)%Z then (Zpos m * 2 ^ e * 100)%Z
              else nearest_even_quot (Zpos m * 100) (2 ^ (- e))).
    assert (Hn100 : (n <= 10000)%Z).
    { unfold n. destruct (0 <=? e)%Z eqn:Ee.
      - apply Z.leb_le in Ee. rewrite (bpow_IZR e Ee), <- mult_IZR in Hv.
        assert (Hexact : (Zpos m * 2 ^ e <= 100)%Z).
        { destruct (Z_le_gt_dec (Zpos m * 2 ^ e) 100) as [?|Hgt]; [assumption|].
          assert (H101 : (101 <= Zpos m * 2 ^ e)%Z) by lia.
          apply IZR_le in H101. lra. }
        lia.
      - apply Z.leb_gt in Ee.
        assert (Hp : (0 < 2 ^ (- e))%Z) by (apply Z.pow_pos_nonneg; lia).
        apply nearest_even_quot_below; [exact Hp|].
        assert (Hb : bpow e = / IZR (2 ^ (- e))).
        { replace e with (- (- e))%Z at 1 by lia. rewrite powerRZ_neg'.
          now rewrite (bpow_IZR (- e)) by lia. }
        rewrite Hb in Hv.
        assert (Hpos : 0 < IZR (2 ^ (- e))) by (apply IZR_lt; exact Hp).
        assert (Hm : IZR (Zpos m) < (100 + 5 / 1000) * IZR (2 ^ (- e))).
        { apply (Rmult_lt_reg_r (/ IZR (2 ^ (- e)))); [now apply Rinv_0_lt_compat|].
          rewrite Rmult_assoc, Rinv_r by lra. lra. }
        assert (Hz : (1000 * Zpos m < 100005 * 2 ^ (- e))%Z).
        { apply lt_IZR. rewrite !mult_IZR. lra. }
        lia. }
    destruct n as [|p|p] eqn:En; try reflexivity.
    apply (cents_below_spec (Z.to_nat 10000) 1 p cents_below_all); lia.
Qed.

(** ** The divisor *)

Lemma total_weight_state (c : Course float) :
  Dict.wf (assignments c) ->
  (forall aname a, In (aname, a) (assignments c) -> nonneg (weight a)) ->
  2 * INR (List.length (assignments c)) * bpow (-52) <= 1 ->
  Prim2SF (total_weight c) = S754_infinity false
  \/ ((exists mt et, Prim2SF (total_weight c) = S754_finite false mt et)
      /\ (1 - 2 * INR (List.length (assignments c)) * bpow (-52))
         * Rsum (map (fun kv => F2R (weight (snd kv))) (assignments c))
         <= F2R (total_weight c)).
Proof.
  intros Hwf Hw Hlen.
  rewrite (total_weight_wf c Hwf).
  change (@eq0 float float64 (sum_of_weights c)) with (sum_of_weights c =? 0)%float.
  change (@one float float64) with 1%float.
  set (ws := map (fun kv : string * Assignment float => weight (snd kv)) (assignments c)).
  assert (Hsum : sum_of_weights c = fold_left PrimFloat.add ws 0%float) by reflexivity.
  assert (Hstate : sum_state (sum_of_weights c) (List.length (assignments c))
                             (Rsum (map (fun kv => F2R (weight (snd kv))) (assignments c)))).
  { rewrite Hsum.
    pose proof (weights_fold ws 0%float 0 0) as H.
    assert (Hl : List.length ws = List.length (assignments c)) by apply length_map.
    assert (Hm : map F2R ws = map (fun kv => F2R (weight (snd kv))) (assignments c))
      by apply map_map.
    rewrite Hl, Hm in H. cbn [Nat.add] in H. rewrite Rplus_0_l in H. apply H.
    - intros w Hin. unfold ws in Hin. apply in_map_iff in Hin.
      destruct Hin as [[aname a] [<- Hin]]. now apply (Hw aname a).
    - lra.
    - exact Hlen.
    - right. split; [exact nonneg_zero|]. rewrite F2R_zero. simpl INR. lra. }
  rewrite FloatFacts.eqb_zero.
  destruct Hstate as [Hinf | [Hn Hlow]].
  - rewrite Hinf. cbn [is_zero_SF]. now left.
  - right. unfold nonneg in Hn.
    change (F2R (sum_of_weights c)) with (SF2R (Prim2SF (sum_of_weights c))) in Hlow.
    destruct (Prim2SF (sum_of_weights c)) as [s|s| |[|] m e] eqn:E; try discriminate.
    + cbn [is_zero_SF]. split; [now eexists _, _|].
      cbn [SF2R] in Hlow. rewrite F2R_one. lra.
    + cbn [is_zero_SF]. rewrite E. split; [now eexists _, _|].
      change (F2R (sum_of_weights c)) with (SF2R (Prim2SF (sum_of_weights c))).
      now rewrite E.
Qed.


Lemma Rsum_zero (A : Type) (l : list A) : Rsum (map (fun _ => 0) l) = 0.
Proof. induction l as [|x l IH]; simpl; [reflexivity | rewrite IH; lra]. Qed.

Lemma student_total_bound (c : Course float) (st : Student float) :
  Dict.wf (assignments c) ->
  INR (List.length (assignments c)) <= 4294967296 ->
  (forall aname a, In (aname, a) (assignments c) -> nonneg (weight a)) ->
  (forall aname a,
      In (aname, a) (assignments c) ->
      nonneg (Dict.get_default (scores st) aname 0%float)
      /\ (Dict.get_default (scores st) aname 0 <=? max_score a)%float = true) ->
  nonneg (total_value (total_weight c) (assignments c) st)
  /\ F2R (total_value (total_weight c) (assignments c) st) < 100 + 5 / 1000.
Proof.
  intros Hwf Hlen Hw Hs.
  pose proof eps_value as Heps.
  destruct eta_small as [Heta0 Heta].
  set (n := INR (List.length (assignments c))) in *.
  assert (Hn0 : 0 <= n) by apply pos_INR.
  assert (Hdelta : 2 * n * bpow (-52) <= / 524288) by (rewrite Heps; lra).
  set (Sw := Rsum (map (fun kv : string * Assignment float => F2R (weight (snd kv)))
                       (assignments c))).
  assert (HSw : 0 <= Sw).
  { apply Rsum_nonneg. intros x Hx. apply in_map_iff in Hx.
    destruct Hx as [[aname a] [<- Hin]]. apply nonneg_F2R. now apply (Hw aname a). }
  (* the share of each weight *)
  assert (Hshares : exists rho : string * Assignment float -> R,
             (forall kv, In kv (assignments c) ->
                         share_of (total_weight c) (weight (snd kv)) (rho kv))
             /\ (1 - / 524288) * Rsum (map rho (assignments c)) <= 1).
  { assert (Hone : 2 * n * bpow (-52) <= 1) by lra.
    destruct (total_weight_state c Hwf Hw Hone) as [Hinf | [Hfin Hlow]].
    - exists (fun _ => 0). split.
      + intros kv _. right. now split.
      + rewrite Rsum_zero. lra.
    - fold n Sw in Hlow.
      set (T := F2R (total_weight c)) in *.
      assert (HT : 0 < T).
      { destruct Hfin as [mt [et E]]. unfold T, F2R. rewrite E. cbn [SF2R].
        apply Rmult_lt_0_compat; [apply IZR_lt; lia | apply bpow_pos]. }
      assert (HSwT : (1 - / 524288) * Sw <= T).
      { eapply Rle_trans; [|exact Hlow]. apply Rmult_le_compat_r; [exact HSw | lra]. }
      exists (fun kv => F2R (weight (snd kv)) / T). split.
      + intros [aname a] Hin. left. split; [exact Hfin|]. split; [reflexivity|].
        cbn [snd].
        assert (Hle : F2R (weight a) <= Sw).
        { apply Rsum_member.
          - intros x Hx. apply in_map_iff in Hx. destruct Hx as [[an' a'] [<- Hin']].
            apply nonneg_F2R. now apply (Hw an' a').
          - apply in_map_iff. exists (aname, a). split; [reflexivity | exact Hin]. }
        apply (Rmult_le_reg_r T); [exact HT|].
        replace (F2R (weight a) / T * T) with (F2R (weight a)) by (field; lra).
        lra.
      + rewrite (Rsum_scaled _ (fun kv => F2R (weight (snd kv))) T). fold Sw.
        apply (Rmult_le_reg_r T); [exact HT|].
        replace ((1 - / 524288) * (Sw / T) * T) with ((1 - / 524288) * Sw) by (field; lra).
        lra. }
  destruct Hshares as [rho [Hshare Hrho]].
  assert (Hrho0 : forall kv, In kv (assignments c) -> 0 <= rho kv).
  { intros kv Hin. destruct (Hshare kv Hin) as [[_ [-> _]] | [_ ->]]; [|lra].
    destruct kv as [aname a]. cbn [snd].
    apply Rmult_le_pos; [apply nonneg_F2R; now apply (Hw aname a)|].
    destruct (Hshare (aname, a) Hin) as [[[mt [et E]] _] | [E _]].
    - apply Rlt_le, Rinv_0_lt_compat. unfold F2R. rewrite E. cbn [SF2R].
      apply Rmult_lt_0_compat; [apply IZR_lt; lia | apply bpow_pos].
    - unfold F2R. rewrite E. cbn [SF2R]. rewrite Rinv_0. lra. }
  assert (Hsum0 : 0 <= Rsum (map rho (assignments c))).
  { apply Rsum_nonneg. intros x Hx. apply in_map_iff in Hx.
    destruct Hx as [kv [<- Hin]]. now apply Hrho0. }
  set (b := fun kv : string * Assignment float =>
              (100 + / 549755813888) * rho kv + / 618970019642690137449562112).
  pose proof (total_fold _ (contribution_value (total_weight c) st) b (assignments c)
                0%float 0 0) as Hfold.
  assert (Hb : Rsum (map b (assignments c))
               = (100 + / 549755813888) * Rsum (map rho (assignments c))
                 + n * / 618970019642690137449562112)
    by (unfold b; apply Rsum_affine).
  cbn [Nat.add] in Hfold. fold n in Hfold. rewrite Hb, Rplus_0_l in Hfold.
  destruct Hfold as [Hnn Hval].
  - exact nonneg_zero.
  - rewrite F2R_zero. simpl INR. lra.
  - lra.
  - lra.
  - nra.
  - intros [aname a] Hin. destruct (Hs aname a Hin) as [Hsn Hsle].
    destruct (contribution_bound (total_weight c) st (aname, a) (rho (aname, a))
                (Hw aname a Hin) (Hshare (aname, a) Hin) Hsn Hsle) as [Hcn [_ Hcv]].
    split; [exact Hcn|]. pose proof (nonneg_F2R _ Hcn). unfold b. lra.
  - split; [exact Hnn|].
    eapply Rle_lt_trans; [exact Hval|].
    set (X := (100 + / 549755813888) * Rsum (map rho (assignments c))
              + n * / 618970019642690137449562112) in *.
    assert (HX : 0 <= X <= 100 + 1 / 1000) by (unfold X; lra).
    assert ((1 + 2 * n * bpow (-52)) * X <= (1 + / 524288) * X)
      by (apply Rmult_le_compat_r; lra).
    lra.
Qed.
End TotalBound.

(** C8, as the code has it.  On binary64: whenever every weight is a
    finite number that is not negative, every score the engine reads (a
    missing one is read as 0.0) is a finite number between 0 and the
    max_score of its assignment, and the catalog has at most 2^32
    assignments, every student's weighted total is at most 100. *)
Theorem bounded_scores_total_at_most_100 :
  forall c : Course float,
    Dict.wf (assignments c) ->
    (Z.of_nat (List.length (assignments c)) <= 2 ^ 32)%Z ->
    (forall aname a,
        In (aname, a) (assignments c) ->
        is_finite (weight a) = true /\ (0 <=? weight a)%float = true) ->
    (forall sid st aname a,
        In (sid, st) (students c) -> In (aname, a) (assignments c) ->
        is_finite (Dict.get_default (scores st) aname 0%float) = true
        /\ (0 <=? Dict.get_default (scores st) aname 0)%float = true
        /\ (Dict.get_default (scores st) aname 0 <=? max_score a)%float = true) ->
    exists results,
      calculate_weighted_scores c = Some results
      /\ (forall sid st, In (sid, st) (students c) ->
                         exists t, Dict.get results sid = Some t)
      /\ forall sid t, Dict.get results sid = Some t -> (t <=? 100)%float = true.
Proof.
  intros c Hwf Hlen Hw Hs.
  exists (results_of c). split; [apply calculate_weighted_scores_safe|].
  split; [intros sid st; apply results_of_covers|].
  intros sid t Ht. apply results_of_values in Ht. destruct Ht as [st [Hin ->]].
  change (@round2 float float64) with float_round2.
  destruct (student_total_bound c st Hwf) as [Hn Hv].
  - rewrite INR_IZR_INZ. apply IZR_le in Hlen. exact Hlen.
  - intros aname a Ha. destruct (Hw aname a Ha). now apply nonneg_of_leb.
  - intros aname a Ha. destruct (Hs sid st aname a Hin Ha) as [Hf [H0 Hle]].
    split; [now apply nonneg_of_leb | exact Hle].
  - now apply round2_at_most_100.
Qed.

(** The demo course. *)
Lemma bounded_scores_total_at_most_100_witness :
  exists results,
    calculate_weighted_scores demo_course = Some results
    /\ forall sid t, Dict.get results sid = Some t -> (t <=? 100)%float = true.
Proof.
  destruct (bounded_scores_total_at_most_100 demo_course) as [results [Hrun [_ Hle]]].
  - exact demo_course_assignments_wf.
  - vm_compute. discriminate.
  - intros aname a [[= <- <-]|[[= <- <-]|[]]]; split; vm_compute; reflexivity.
  - intros sid st aname a
           [[= <- <-]|[[= <- <-]|[[= <- <-]|[]]]] [[= <- <-]|[[= <- <-]|[]]];
      repeat split; vm_compute; reflexivity.
  - exists results. split; [exact Hrun | exact Hle].
Defined.

(** C8 as stated fails: nothing holds a score below its assignment's
    max_score.  [enter_grade] accepts 200 on an exam out of 100 that carries
    all the weight, a nonnegative one, and the weighted total is then 200.0,
    which is not at most 100. *)
Lemma extra_credit_total_200 :
  (forall kv, In kv (assignments extra_credit_course) -> ge (weight (snd kv)) 0%float = true)
  /\ enter_grade exam_course "s1" "Exam" 200%float = inr extra_credit_course
  /\ calculate_weighted_scores extra_credit_course = Some [("s1", 200%float)]
  /\ ge 100%float 200%float = false.
Proof.
  split; [|repeat split; vm_compute; reflexivity].
  intros kv [<- | []]. vm_compute. reflexivity.
Qed.

(** The other bounds are needed as well.  A negative score within the
    maximum, an infinite weight, and an infinite score under an infinite
    maximum each make the total NaN, which is not at most 100. *)
Lemma negative_score_total_nan :
  calculate_weighted_scores negative_score_course = Some [("s1", nan)]
  /\ (nan <=? 100)%float = false.
Proof. split; vm_compute; reflexivity. Qed.

Lemma infinite_weight_total_nan :
  calculate_weighted_scores heavy_course = Some [("s1", nan)].
Proof. vm_compute. reflexivity. Qed.

Lemma infinite_score_total_nan :
  (infinity <=? max_score (mkAssignment "Quiz" 1 infinity))%float = true
  /\ calculate_weighted_scores boundless_course = Some [("s1", nan)].
Proof. split; vm_compute; reflexivity. Qed.

(* ================================================================== *)
(** * Replaying a sequence of writes *)

(** A store [S] written at keys [K]: writing a key twice keeps the last
    value, and writes to different keys commute once one of the keys is
    present.  Replaying a sequence of such writes on its own result changes
    nothing. *)
Section Overwrites.
Variables (S K V : Type).
Variable write : K -> V -> S -> S.
Variable present : K -> S -> Prop.
Variable writable : K -> S -> Prop.
Hypothesis K_dec : forall k k' : K, {k = k'} + {k <> k'}.
Hypothesis writable_write : forall k k' v s, writable k s -> writable k (write k' v s).
Hypothesis present_write_same : forall k v s, writable k s -> present k (write k v s).
Hypothesis present_write : forall k k' v s, present k s -> present k (write k' v s).
Hypothesis write_write : forall k v v' s, write k v (write k v' s) = write k v s.
Hypothesis write_comm :
  forall k k' v v' s,
    k <> k' -> present k s -> write k v (write k' v' s) = write k' v' (write k v s).

Local Abbreviation apply_writes := (apply_writes S K V write).

Lemma present_apply (ws : list (K * V)) (k : K) (s : S) :
  present k s -> present k (apply_writes ws s).
Proof.
  revert s. induction ws as [|[k1 v1] ws IH]; intros s Hp; simpl; [exact Hp|].
  apply IH. now apply present_write.
Qed.

Lemma written_present (ws : list (K * V)) (s : S) :
  (forall w, In w ws -> writable (fst w) s) ->
  forall w, In w ws -> present (fst w) (apply_writes ws s).
Proof.
  revert s. induction ws as [|[k1 v1] ws IH]; intros s Hok w Hin; [destruct Hin|].
  simpl. destruct Hin as [<- | Hin].
  - apply present_apply. apply present_write_same. apply (Hok (k1, v1)). now left.
  - apply IH; [|exact Hin].
    intros w' Hw'. apply writable_write. apply Hok. now right.
Qed.

Lemma commute_past (ws : list (K * V)) (k : K) (v : V) (t : S) :
  (forall w, In w ws -> present (fst w) t) ->
  ~ In k (map fst ws) ->
  apply_writes ws (write k v t) = write k v (apply_writes ws t).
Proof.
  revert t. induction ws as [|[k1 v1] ws IH]; intros t Hp Hk; simpl; [reflexivity|].
  assert (Hne : k1 <> k) by (intros ->; apply Hk; now left).
  rewrite (write_comm k1 k v1 v t Hne) by (apply (Hp (k1, v1)); now left).
  apply IH.
  - intros w Hw. apply present_write. apply Hp. now right.
  - intros Hin. apply Hk. now right.
Qed.

Lemma absorb (ws : list (K * V)) (k : K) (v v' : V) (t : S) :
  present k t ->
  write k v (apply_writes ws (write k v' t)) = write k v (apply_writes ws t).
Proof.
  revert t v'. induction ws as [|[k1 v1] ws IH]; intros t v' Hp; simpl.
  - apply write_write.
  - destruct (K_dec k1 k) as [-> | Hne].
    + now rewrite write_write.
    + rewrite <- (write_comm k k1 v' v1 t) by auto.
      apply IH. now apply present_write.
Qed.

Lemma apply_writes_app (ws ws' : list (K * V)) (s : S) :
  apply_writes (ws ++ ws') s = apply_writes ws' (apply_writes ws s).
Proof. unfold apply_writes. apply fold_left_app. Qed.

Lemma replay_is_identity (ws : list (K * V)) :
  forall s,
    (forall w, In w ws -> writable (fst w) s) ->
    apply_writes ws (apply_writes ws s) = apply_writes ws s.
Proof.
  induction ws as [|[k v] ws IH] using rev_ind; intros s Hok; [reflexivity|].
  assert (Hok' : forall w, In w ws -> writable (fst w) s)
    by (intros w Hw; apply Hok, in_or_app; now left).
  rewrite (apply_writes_app ws [(k, v)] s). simpl.
  set (t := apply_writes ws s).
  rewrite apply_writes_app. simpl.
  destruct (in_dec K_dec k (map fst ws)) as [Hin | Hout].
  - rewrite absorb.
    + unfold t. now rewrite IH.
    + apply in_map_iff in Hin. destruct Hin as [[k0 v0] [Hk Hin]]. simpl in Hk. subst k0.
      apply (written_present ws s Hok' (k, v0) Hin).
  - rewrite commute_past; [|now apply written_present|exact Hout].
    unfold t. rewrite IH by exact Hok'. apply write_write.
Qed.
End Overwrites.

(* ================================================================== *)
(** * Ingestion as a sequence of writes *)

Section WriteFacts.
Context {num : Type} `{Number num}.

Lemma score_key_dec (k k' : score_key) : {k = k'} + {k <> k'}.
Proof. decide equality; apply string_dec. Qed.

Lemma write_score_known (sid aname : string) (v : num) (c : Course num) (st : Student num) :
  Dict.get (students c) sid = Some st ->
  write_score (sid, aname) v c
  = mkCourse (course_code c) (title c)
             (Dict.set (students c) sid (with_score st aname v))
             (register_assignment (assignments c) aname).
Proof.
  intros Hget. unfold write_score. cbn [fst snd].
  now rewrite (record_score_known c sid aname v st Hget).
Qed.

Lemma write_score_unknown (sid aname : string) (v : num) (c : Course num) :
  Dict.get (students c) sid = None -> write_score (sid, aname) v c = c.
Proof.
  intros Hget. unfold write_score, record_score, set_score. cbn [fst snd].
  now rewrite Hget.
Qed.

Lemma roster_keys_write (k : score_key) (v : num) (c : Course num) :
  Dict.keys (students (write_score k v c)) = Dict.keys (students c).
Proof.
  unfold write_score.
  destruct (record_score c (fst k) (snd k) v) as [c'|] eqn:E; [|reflexivity].
  now apply roster_keys_record_score in E.
Qed.

Lemma contains_register (catalog : Dict.t (Assignment num)) (aname aname' : string) :
  Dict.contains catalog aname = true ->
  Dict.contains (register_assignment catalog aname') aname = true.
Proof.
  intros Hc. unfold register_assignment.
  destruct (Dict.contains catalog aname'); cbn [negb]; [exact Hc|].
  rewrite DictFacts.contains_set, Hc. apply orb_true_r.
Qed.

Lemma contains_register_same (catalog : Dict.t (Assignment num)) (aname : string) :
  Dict.contains (register_assignment catalog aname) aname = true.
Proof.
  unfold register_assignment.
  destruct (Dict.contains catalog aname) eqn:E; cbn [negb]; [exact E|].
  rewrite DictFacts.contains_set. now rewrite String.eqb_refl.
Qed.

Lemma register_known (catalog : Dict.t (Assignment num)) (aname : string) :
  Dict.contains catalog aname = true -> register_assignment catalog aname = catalog.
Proof. intros Hc. unfold register_assignment. now rewrite Hc. Qed.

Lemma with_score_twice (st : Student num) (aname : string) (v v' : num) :
  with_score (with_score st aname v') aname v = with_score st aname v.
Proof. unfold with_score. simpl. now rewrite DictFacts.set_set. Qed.

Lemma with_score_comm (st : Student num) (aname aname' : string) (v v' : num) :
  aname <> aname' -> Dict.contains (scores st) aname = true ->
  with_score (with_score st aname' v') aname v
  = with_score (with_score st aname v) aname' v'.
Proof.
  intros Hne Hc. unfold with_score. simpl.
  now rewrite (DictFacts.set_comm _ (scores st) aname aname' v v' Hne Hc).
Qed.

Lemma student_known_write (k k' : score_key) (v : num) (c : Course num) :
  student_known k c -> student_known k (write_score k' v c).
Proof.
  unfold student_known. intros Hk.
  now rewrite (contains_of_keys _ _ _ _ (fst k) (roster_keys_write k' v c)).
Qed.

Lemma score_present_write_same (k : score_key) (v : num) (c : Course num) :
  student_known k c -> score_present k (write_score k v c).
Proof.
  destruct k as [sid aname]. unfold student_known. cbn [fst].
  intros Hk. apply DictFacts.contains_get in Hk. destruct Hk as [st Hst].
  rewrite (write_score_known sid aname v c st Hst).
  split; cbn [assignments students fst snd].
  - apply contains_register_same.
  - exists (with_score st aname v). split; [apply DictFacts.get_set_same|].
    simpl. rewrite DictFacts.contains_set. now rewrite String.eqb_refl.
Qed.

Lemma score_present_write (k k' : score_key) (v : num) (c : Course num) :
  score_present k c -> score_present k (write_score k' v c).
Proof.
  destruct k as [sid aname], k' as [sid' aname'].
  intros [Hcat [st [Hst Hsc]]]. cbn [fst snd] in *.
  destruct (Dict.get (students c) sid') as [st'|] eqn:Est'.
  - rewrite (write_score_known sid' aname' v c st' Est').
    split; cbn [assignments students fst snd].
    + now apply contains_register.
    + destruct (string_dec sid' sid) as [-> | Hne].
      * exists (with_score st' aname' v). split; [apply DictFacts.get_set_same|].
        assert (st' = st) by congruence. subst st'.
        simpl. rewrite DictFacts.contains_set, Hsc. apply orb_true_r.
      * exists st. split; [|exact Hsc].
        now rewrite DictFacts.get_set_other.
  - rewrite (write_score_unknown sid' aname' v c Est').
    split; [exact Hcat|]. exists st. auto.
Qed.

Lemma write_score_twice (k : score_key) (v v' : num) (c : Course num) :
  write_score k v (write_score k v' c) = write_score k v c.
Proof.
  destruct k as [sid aname].
  destruct (Dict.get (students c) sid) as [st|] eqn:Est.
  - rewrite (write_score_known sid aname v' c st Est).
    rewrite (write_score_known sid aname v c st Est).
    rewrite (write_score_known sid aname v _ (with_score st aname v'))
      by (cbn [students]; apply DictFacts.get_set_same).
    cbn [course_code title students assignments].
    rewrite DictFacts.set_set, with_score_twice.
    now rewrite (register_known _ aname (contains_register_same _ aname)).
  - now rewrite !(write_score_unknown sid aname _ c Est).
Qed.

Lemma write_score_comm (k k' : score_key) (v v' : num) (c : Course num) :
  k <> k' -> score_present k c ->
  write_score k v (write_score k' v' c) = write_score k' v' (write_score k v c).
Proof.
  destruct k as [sid aname], k' as [sid' aname'].
  intros Hne [Hcat [st [Hst Hsc]]]. cbn [fst snd] in *.
  rewrite (write_score_known sid aname v c st Hst).
  destruct (Dict.get (students c) sid') as [st'|] eqn:Est'.
  - rewrite (write_score_known sid' aname' v' c st' Est').
    destruct (string_dec sid sid') as [<- | Hsid].
    + assert (st' = st) by congruence. subst st'.
      assert (Ha : aname <> aname') by congruence.
      rewrite (write_score_known sid aname v _ (with_score st aname' v'))
        by (cbn [students]; apply DictFacts.get_set_same).
      rewrite (write_score_known sid aname' v' _ (with_score st aname v))
        by (cbn [students]; apply DictFacts.get_set_same).
      cbn [course_code title students assignments].
      rewrite !DictFacts.set_set, (with_score_comm st aname aname' v v' Ha Hsc).
      rewrite (register_known _ aname (contains_register _ aname aname' Hcat)).
      now rewrite (register_known _ aname Hcat).
    + rewrite (write_score_known sid aname v _ st)
        by (cbn [students]; rewrite DictFacts.get_set_other by congruence; exact Hst).
      rewrite (write_score_known sid' aname' v' _ st')
        by (cbn [students]; rewrite DictFacts.get_set_other by congruence; exact Est').
      cbn [course_code title students assignments].
      rewrite (DictFacts.set_comm _ (students c) sid sid' _ _ Hsid)
        by (apply DictFacts.contains_get; eauto).
      rewrite (register_known _ aname (contains_register _ aname aname' Hcat)).
      now rewrite (register_known _ aname Hcat).
  - rewrite (write_score_unknown sid' aname' v' c Est').
    rewrite (write_score_known sid aname v c st Hst).
    rewrite write_score_unknown; [reflexivity|].
    cbn [students]. rewrite DictFacts.get_set_other; [exact Est'|].
    intros ->. congruence.
Qed.

(** Replaying the writes of an import on its result changes nothing. *)
Lemma replay_scores (ws : list (score_key * num)) (c : Course num) :
  (forall w, In w ws -> student_known (fst w) c) ->
  apply_scores ws (apply_scores ws c) = apply_scores ws c.
Proof.
  apply (replay_is_identity (Course num) score_key num write_score score_present student_known).
  - apply score_key_dec.
  - intros k k' v s. apply student_known_write.
  - intros k v s. apply score_present_write_same.
  - intros k k' v s. apply score_present_write.
  - intros k v v' s. apply write_score_twice.
  - intros k k' v v' s. apply write_score_comm.
Qed.

Lemma roster_keys_apply (ws : list (score_key * num)) (c : Course num) :
  Dict.keys (students (apply_scores ws c)) = Dict.keys (students c).
Proof.
  revert c. induction ws as [|[k v] ws IH]; intros c; [reflexivity|].
  unfold apply_scores, apply_writes in *. cbn [fold_left fst snd].
  rewrite IH. apply roster_keys_write.
Qed.
End WriteFacts.

Section WideAsWrites.
Context {num : Type} `{Number num}.
Variable py_float : string -> option num.

Lemma apply_scores_app (ws ws' : list (score_key * num)) (c : Course num) :
  apply_scores (ws ++ ws') c = apply_scores ws' (apply_scores ws c).
Proof. apply apply_writes_app. Qed.

Lemma cells_as_writes (sid : string) (row : list string) (cells : list (nat * string))
      (c : Course num) :
  Dict.contains (students c) sid = true ->
  for_each (import_cell py_float sid row) cells c
  = Some (apply_scores (cell_writes py_float sid row cells) c).
Proof.
  revert c. induction cells as [|[i aname] cells IH]; intros c Hsid; [reflexivity|].
  cbn [for_each]. unfold cell_writes. cbn [flat_map fst snd].
  fold (cell_writes py_float sid row cells).
  rewrite apply_scores_app.
  assert (Hcell : import_cell py_float sid row c (i, aname)
                  = Some (apply_scores
                            match nth_error row i with
                            | None => []
                            | Some field =>
                                if String.eqb (strip field) "" then []
                                else match py_float (strip field) with
                                     | None => []
                                     | Some score => [((sid, aname), score)]
                                     end
                            end c)).
  { unfold import_cell.
    destruct (nth_error row i) as [field|]; [|reflexivity].
    destruct (String.eqb (strip field) ""); [reflexivity|].
    destruct (py_float (strip field)) as [score|]; [|reflexivity].
    apply DictFacts.contains_get in Hsid. destruct Hsid as [st Hst].
    rewrite (record_score_known c sid aname score st Hst).
    unfold apply_scores, apply_writes. cbn [fold_left fst snd].
    now rewrite (write_score_known sid aname score c st Hst). }
  rewrite Hcell. cbn [bind]. apply IH.
  now rewrite (contains_of_keys _ _ _ _ sid (roster_keys_apply _ c)).
Qed.

Lemma wide_row_as_writes (known : string -> bool) (names : list string)
      (c : Course num) (processed failed : nat) (row : list string) :
  (forall sid, Dict.contains (students c) sid = known sid) ->
  import_wide_row py_float names (c, processed, failed) row
  = Some (apply_scores (row_writes py_float known names row) c,
          fst (row_counts known (processed, failed) row),
          snd (row_counts known (processed, failed) row)).
Proof.
  intros Hknown. unfold import_wide_row, row_writes, row_counts.
  destruct row as [|f0 rest]; [reflexivity|].
  rewrite Hknown. destruct (known (strip f0)) eqn:Ek; cbn [negb]; [|reflexivity].
  rewrite cells_as_writes by (now rewrite Hknown).
  reflexivity.
Qed.

Lemma wide_rows_as_writes (known : string -> bool) (names : list string)
      (rows : list (list string)) (c : Course num) (processed failed : nat) :
  (forall sid, Dict.contains (students c) sid = known sid) ->
  for_each (import_wide_row py_float names) rows (c, processed, failed)
  = Some (apply_scores (flat_map (row_writes py_float known names) rows) c,
          fst (fold_left (row_counts known) rows (processed, failed)),
          snd (fold_left (row_counts known) rows (processed, failed))).
Proof.
  revert c processed failed.
  induction rows as [|row rows IH]; intros c processed failed Hknown; [reflexivity|].
  cbn [for_each flat_map fold_left].
  rewrite (wide_row_as_writes known names c processed failed row Hknown). cbn [bind].
  rewrite apply_scores_app. rewrite IH.
  - now destruct (row_counts known (processed, failed) row).
  - intros sid. rewrite <- Hknown.
    apply contains_of_keys, roster_keys_apply.
Qed.

Lemma row_writes_known (known : string -> bool) (names : list string)
      (rows : list (list string)) (w : score_key * num) :
  In w (flat_map (row_writes py_float known names) rows) -> known (fst (fst w)) = true.
Proof.
  intros Hin. apply in_flat_map in Hin. destruct Hin as [row [_ Hin]].
  unfold row_writes in Hin. destruct row as [|f0 rest]; [destruct Hin|].
  destruct (known (strip f0)) eqn:Ek; [|destruct Hin].
  unfold cell_writes in Hin. apply in_flat_map in Hin. destruct Hin as [[i aname] [_ Hin]].
  cbn [fst snd] in Hin.
  destruct (nth_error (f0 :: rest) i) as [field|]; [|destruct Hin].
  destruct (String.eqb (strip field) ""); [destruct Hin|].
  destruct (py_float (strip field)); [|destruct Hin].
  destruct Hin as [<- | []]. exact Ek.
Qed.
End WideAsWrites.

(** C9.  Ingesting a wide-format input a second time, right after the
    first, leaves the course exactly as the first pass left it (every score
    is overwritten with the value it already has, and the catalog is not
    touched) and returns the same counts. *)
Theorem wide_reingestion_is_idempotent :
  forall (num : Type) (N : Number num) (py_float : string -> option num)
         (c : Course num) (first : list string) (data : list (list string))
         (c1 : Course num) (processed failed : nat),
    is_wide first = true ->
    bulk_import_grades_csv py_float c (first :: data) = Some (c1, processed, failed) ->
    bulk_import_grades_csv py_float c1 (first :: data) = Some (c1, processed, failed).
Proof.
  intros num N py_float c first data c1 processed failed Hwide.
  unfold bulk_import_grades_csv. rewrite Hwide.
  set (names := tl (map strip first)).
  set (known := fun sid => Dict.contains (students c) sid).
  set (ws := flat_map (row_writes py_float known names) data).
  rewrite (wide_rows_as_writes py_float known names data c 0 0) by reflexivity.
  fold ws. intros [= <- <- <-].
  rewrite (wide_rows_as_writes py_float known names data (apply_scores ws c) 0 0)
    by (intros sid; apply contains_of_keys, roster_keys_apply).
  fold ws. rewrite replay_scores; [reflexivity|].
  intros w Hw. apply (row_writes_known py_float known names data w Hw).
Qed.

(** A wide import of four data rows, run twice. *)
Lemma wide_reingestion_is_idempotent_witness :
  exists c1,
    bulk_import_grades_csv float_of_digits fresh_course wide_rows = Some (c1, 3%nat, 1%nat)
    /\ bulk_import_grades_csv float_of_digits c1 wide_rows = Some (c1, 3%nat, 1%nat).
Proof.
  eexists. split.
  - vm_compute. reflexivity.
  - apply (wide_reingestion_is_idempotent float float64 float_of_digits fresh_course);
      vm_compute; reflexivity.
Defined.

(* ================================================================== *)
(** * Bulk ingestion, row by row *)

Lemma for_each_snoc {A S : Type} (body : S -> A -> option S) (items : list A)
      (x : A) (s : S) :
  for_each body (items ++ [x]) s = (s' <- for_each body items s ;; body s' x).
Proof.
  revert s. induction items as [|y items IH]; intros s; cbn [app for_each bind].
  - destruct (body s x); reflexivity.
  - destruct (body s y) as [s1|]; cbn [bind]; [apply IH | reflexivity].
Qed.

Lemma get_app (V : Type) (d d' : Dict.t V) (k : string) :
  Dict.get (d ++ d')%list k
  = match Dict.get d k with
    | Some v => Some v
    | None => Dict.get d' k
    end.
Proof.
  induction d as [|[k0 v0] d IH]; simpl; [reflexivity|].
  destruct (String.eqb k0 k); auto.
Qed.

Section RowByRow.
Context {num : Type} `{Number num}.
Variable py_float : string -> option num.

(** The file with one more row at its end: the rows before it are imported
    as they are without it, and the last row is imported on their result. *)
Lemma narrow_import_snoc (c : Course num) (rows : list (list string)) (row : list string) :
  is_wide (hd row rows) = false ->
  bulk_import_grades_csv py_float c (rows ++ [row])
  = (s <- bulk_import_grades_csv py_float c rows ;; import_narrow_row py_float s row).
Proof.
  intros Hnarrow. destruct rows as [|first data]; cbn [hd] in Hnarrow.
  - cbn [app]. unfold bulk_import_grades_csv. rewrite Hnarrow. cbn [for_each bind].
    destruct (import_narrow_row py_float (c, 0%nat, 0%nat) row); reflexivity.
  - change ((first :: data) ++ [row])%list with (first :: (data ++ [row]))%list.
    unfold bulk_import_grades_csv. rewrite Hnarrow.
    change (first :: (data ++ [row]))%list with ((first :: data) ++ [row])%list.
    apply for_each_snoc.
Qed.

Lemma wide_import_snoc (c : Course num) (first : list string) (data : list (list string))
      (row : list string) :
  is_wide first = true ->
  bulk_import_grades_csv py_float c (first :: data ++ [row])
  = (s <- bulk_import_grades_csv py_float c (first :: data) ;;
     import_wide_row py_float (tl (map strip first)) s row).
Proof.
  intros Hwide. unfold bulk_import_grades_csv. rewrite Hwide. apply for_each_snoc.
Qed.

(** What one recorded score changes, as seen through lookups. *)
Lemma record_score_observed (c : Course num) (sid aname : string) (score : num)
      (st : Student num) :
  Dict.get (students c) sid = Some st ->
  exists c2 st2,
    record_score c sid aname score = Some c2
    /\ course_code c2 = course_code c /\ title c2 = title c
    /\ Dict.keys (students c2) = Dict.keys (students c)
    /\ Dict.get (students c2) sid = Some st2
    /\ id st2 = id st /\ name st2 = name st
    /\ Dict.get (scores st2) aname = Some score
    /\ (forall other, other <> aname ->
                      Dict.get (scores st2) other = Dict.get (scores st) other)
    /\ (forall other, other <> sid ->
                      Dict.get (students c2) other = Dict.get (students c) other)
    /\ assignments c2
       = (assignments c
          ++ if Dict.contains (assignments c) aname then []
             else [(aname, mkAssignment aname (of_Z 0) (of_Z 100))])%list.
Proof.
  intros Hst.
  rewrite (record_score_known c sid aname score st Hst).
  eexists _, (with_score st aname score). split; [reflexivity|].
  cbn [course_code title students assignments].
  repeat split.
  - apply DictFacts.keys_set_present. apply DictFacts.contains_get. eauto.
  - apply DictFacts.get_set_same.
  - apply DictFacts.get_set_same.
  - intros other Hne. simpl. apply DictFacts.get_set_other. congruence.
  - intros other Hne. apply DictFacts.get_set_other. congruence.
  - apply register_assignment_app.
Qed.

(** What the writes of one row change, for a student that is known. *)
Lemma apply_scores_observed (sid : string) (ws : list (score_key * num)) :
  (forall w, In w ws -> fst (fst w) = sid) ->
  forall (c : Course num) (st : Student num),
    Dict.get (students c) sid = Some st ->
    exists st2,
      course_code (apply_scores ws c) = course_code c
      /\ title (apply_scores ws c) = title c
      /\ Dict.keys (students (apply_scores ws c)) = Dict.keys (students c)
      /\ Dict.get (students (apply_scores ws c)) sid = Some st2
      /\ id st2 = id st /\ name st2 = name st
      /\ (forall aname,
             Dict.get (scores st2) aname
             = match last_written ws aname with
               | Some v => Some v
               | None => Dict.get (scores st) aname
               end)
      /\ (forall other, other <> sid ->
                        Dict.get (students (apply_scores ws c)) other
                        = Dict.get (students c) other)
      /\ (forall aname,
             Dict.get (assignments (apply_scores ws c)) aname
             = match Dict.get (assignments c) aname with
               | Some a => Some a
               | None =>
                   match last_written ws aname with
                   | Some _ => Some (mkAssignment aname (of_Z 0) (of_Z 100))
                   | None => None
                   end
               end).
Proof.
  induction ws as [|[[sid' aname'] v] ws IH]; intros Hsid c st Hst.
  - exists st. cbn. repeat split; auto.
    intros aname. now destruct (Dict.get (assignments c) aname).
  - assert (sid' = sid) by (apply (Hsid ((sid', aname'), v)); now left). subst sid'.
    change (apply_scores (((sid, aname'), v) :: ws) c)
      with (apply_scores ws (write_score (sid, aname') v c)).
    destruct (record_score_observed c sid aname' v st Hst)
      as (c1 & st1 & Hrun & Hcode & Htitle & Hkeys & Hst1 & Hid & Hname & Hsame
          & Hothers & Hroster & Hcat).
    assert (Hw : write_score (sid, aname') v c = c1)
      by (unfold write_score; cbn [fst snd]; now rewrite Hrun).
    rewrite Hw.
    destruct (IH (fun w Hin => Hsid w (or_intror Hin)) c1 st1 Hst1)
      as [st2 [Hcode2 [Htitle2 [Hkeys2 [Hst2 [Hid2 [Hname2 [Hsc2 [Hroster2 Hcat2]]]]]]]]].
    exists st2. repeat split; try congruence.
    + intros aname. rewrite Hsc2. cbn [last_written fst snd].
      destruct (last_written ws aname); [reflexivity|].
      destruct (String.eqb aname' aname) eqn:E.
      * apply String.eqb_eq in E. subst. exact Hsame.
      * apply String.eqb_neq in E. apply Hothers. congruence.
    + intros other Hne. rewrite Hroster2 by exact Hne. now apply Hroster.
    + intros aname. rewrite Hcat2, Hcat, get_app. cbn [last_written fst snd].
      destruct (Dict.get (assignments c) aname) as [a|] eqn:Ea; [reflexivity|].
      destruct (Dict.contains (assignments c) aname') eqn:Ec; cbn [Dict.get].
      * destruct (last_written ws aname); [reflexivity|].
        destruct (String.eqb aname' aname) eqn:E; [|reflexivity].
        apply String.eqb_eq in E. subst.
        unfold Dict.contains in Ec. rewrite Ea in Ec. discriminate.
      * destruct (String.eqb aname' aname) eqn:E.
        -- apply String.eqb_eq in E. subst. now destruct (last_written ws aname).
        -- now destruct (last_written ws aname).
Qed.

Lemma cell_writes_sid (sid : string) (row : list string) (cells : list (nat * string))
      (w : score_key * num) :
  In w (cell_writes py_float sid row cells) -> fst (fst w) = sid.
Proof.
  unfold cell_writes. intros Hin. apply in_flat_map in Hin.
  destruct Hin as [[i aname] [_ Hin]]. cbn [fst snd] in Hin.
  destruct (nth_error row i) as [field|]; [|destruct Hin].
  destruct (String.eqb (strip field) ""); [destruct Hin|].
  destruct (py_float (strip field)); [|destruct Hin].
  destruct Hin as [<- | []]. reflexivity.
Qed.

Lemma cell_writes_skipped (sid : string) (row : list string) (cells : list (nat * string)) :
  (forall i aname, In (i, aname) cells -> cell_skipped py_float row i) ->
  cell_writes py_float sid row cells = [].
Proof.
  induction cells as [|[i aname] cells IH]; intros Hskip; [reflexivity|].
  unfold cell_writes. cbn [flat_map fst snd]. fold (cell_writes py_float sid row cells).
  rewrite IH by (intros j a Hin; apply (Hskip j a); now right).
  rewrite app_nil_r.
  destruct (Hskip i aname (or_introl eq_refl)) as [-> | [field [-> [Hblank | Hnan]]]].
  - reflexivity.
  - now rewrite Hblank.
  - destruct (String.eqb (strip field) ""); [reflexivity | now rewrite Hnan].
Qed.
End RowByRow.

(** C5.  In a narrow import every row is taken on the result of the rows
    before it, and none aborts the import.  A row with fewer than three
    fields, with a score that is not a number, or with an unknown student id
    adds one to [failed] and leaves the course as it is.  Any other row adds
    one to [processed] and records the score: the student has it under the
    assignment's name, nothing else about the roster changes, and the
    assignment is appended to the catalog with weight 0.0 and max_score 100
    when it was absent.  A well-formed row, a row for an unknown student and
    a row with a non-numeric score give (1, 2), with the score of the first
    row recorded. *)
Theorem narrow_rows_fail_or_record :
  (forall (num : Type) (N : Number num) (py_float : string -> option num)
          (c : Course num) (rows : list (list string)) (row : list string),
      is_wide (hd row rows) = false ->
      exists c1 processed failed,
        bulk_import_grades_csv py_float c rows = Some (c1, processed, failed)
        /\ (processed + failed = List.length rows)%nat
        /\ ((List.length row < 3)%nat ->
            bulk_import_grades_csv py_float c (rows ++ [row])
            = Some (c1, processed, S failed))
        /\ (forall f0 f1 f2 rest,
               row = f0 :: f1 :: f2 :: rest ->
               (py_float (strip f2) = None
                \/ Dict.contains (students c1) (strip f0) = false ->
                bulk_import_grades_csv py_float c (rows ++ [row])
                = Some (c1, processed, S failed))
               /\ (forall score st,
                      py_float (strip f2) = Some score ->
                      Dict.get (students c1) (strip f0) = Some st ->
                      exists c2 st2,
                        bulk_import_grades_csv py_float c (rows ++ [row])
                        = Some (c2, S processed, failed)
                        /\ course_code c2 = course_code c1 /\ title c2 = title c1
                        /\ Dict.keys (students c2) = Dict.keys (students c1)
                        /\ Dict.get (students c2) (strip f0) = Some st2
                        /\ id st2 = id st /\ name st2 = name st
                        /\ Dict.get (scores st2) (strip f1) = Some score
                        /\ (forall other, other <> strip f1 ->
                                          Dict.get (scores st2) other
                                          = Dict.get (scores st) other)
                        /\ (forall other, other <> strip f0 ->
                                          Dict.get (students c2) other
                                          = Dict.get (students c1) other)
                        /\ assignments c2
                           = (assignments c1
                              ++ if Dict.contains (assignments c1) (strip f1) then []
                                 else [(strip f1,
                                        mkAssignment (strip f1) (of_Z 0) (of_Z 100))])%list)))
  /\ (forall (py_float : string -> option float) (score : float),
         py_float "18" = Some score ->
         py_float "abc" = None ->
         bulk_import_grades_csv py_float fresh_course narrow_rows
         = Some (mkCourse "c6" "Fresh"
                          [ ("s1", mkStudent "s1" "Alice" [("HW1", score)]);
                            ("s2", mkStudent "s2" "Bob" []) ]
                          [ ("HW1", mkAssignment "HW1" 0%float 100%float) ],
                 1%nat, 2%nat)).
Proof.
  split.
  - intros num N py_float c rows row Hnarrow.
    assert (Hrows : bulk_import_grades_csv py_float c rows
                    = for_each (import_narrow_row py_float) rows (c, 0%nat, 0%nat)).
    { destruct rows as [|first data]; [reflexivity|].
      cbn [hd] in Hnarrow. unfold bulk_import_grades_csv. now rewrite Hnarrow. }
    destruct (narrow_rows_counted py_float rows c 0 0) as [c1 [p [f [Hrun Hsum]]]].
    rewrite <- Hrows in Hrun.
    exists c1, p, f. split; [exact Hrun|]. split; [lia|].
    rewrite (narrow_import_snoc py_float c rows row Hnarrow), Hrun. cbn [bind].
    split.
    + apply narrow_row_short.
    + intros f0 f1 f2 rest ->. split.
      * apply narrow_row_rejected.
      * intros score st Hscore Hst.
        destruct (record_score_observed c1 (strip f0) (strip f1) score st Hst)
          as [c2 [st2 [Hrec Hobs]]].
        exists c2, st2. split; [|exact Hobs].
        unfold import_narrow_row. rewrite Hscore.
        assert (Hc : Dict.contains (students c1) (strip f0) = true)
          by (apply DictFacts.contains_get; eauto).
        rewrite Hc. cbn [negb]. now rewrite Hrec.
  - intros py_float score H18 Habc.
    unfold bulk_import_grades_csv, narrow_rows.
    change (is_wide ["s1"; "HW1"; "18"]) with false. cbn iota.
    cbn [for_each].
    rewrite (narrow_row_recorded py_float fresh_course 0 0 "s1" "HW1" "18" []
               score (mkStudent "s1" "Alice" []) H18 eq_refl).
    cbn [bind].
    rewrite narrow_row_rejected by (right; reflexivity). cbn [bind].
    rewrite narrow_row_rejected by (left; exact Habc). cbn [bind].
    reflexivity.
Qed.

(** The three rows, with scores read as digit strings: the third row, whose
    score is not a number, is taken on the result of the first two and adds
    one to [failed]. *)
Lemma narrow_rows_fail_or_record_witness :
  bulk_import_grades_csv float_of_digits fresh_course narrow_rows
  = Some (mkCourse "c6" "Fresh"
                   [ ("s1", mkStudent "s1" "Alice" [("HW1", 18%float)]);
                     ("s2", mkStudent "s2" "Bob" []) ]
                   [ ("HW1", mkAssignment "HW1" 0%float 100%float) ],
          1%nat, 2%nat).
Proof.
  destruct (proj1 narrow_rows_fail_or_record float float64 float_of_digits fresh_course
                  [ ["s1"; "HW1"; "18"]; ["s9"; "HW1"; "10"] ] ["s2"; "HW1"; "abc"]
                  eq_refl)
    as [c1 [p [f [Hrun [_ [_ Hrow]]]]]].
  destruct (Hrow "s2" "HW1" "abc" [] eq_refl) as [Hfail _].
  change narrow_rows
    with ([ ["s1"; "HW1"; "18"]; ["s9"; "HW1"; "10"] ] ++ [ ["s2"; "HW1"; "abc"] ])%list.
  rewrite Hfail by (left; reflexivity).
  vm_compute in Hrun. injection Hrun as <- <- <-. reflexivity.
Defined.

(** C6.  In a wide import every data row is taken on the result of the rows
    before it.  An empty row changes nothing.  A row whose student id is
    unknown adds one to [failed] and leaves the course, roster and catalog,
    as it is.  A row of a known student adds one to [processed], exactly once
    and never to [failed], whatever its cells hold: the student's scores
    afterwards are the ones the numeric cells of the row give, a cell that is
    missing, blank or not a number gives none, and when every cell is such
    the course is left as it is. *)
Theorem wide_rows_fail_or_process :
  forall (num : Type) (N : Number num) (py_float : string -> option num)
         (c : Course num) (first : list string) (data : list (list string))
         (row : list string),
    is_wide first = true ->
    exists c1 processed failed,
      bulk_import_grades_csv py_float c (first :: data) = Some (c1, processed, failed)
      /\ (row = [] ->
          bulk_import_grades_csv py_float c (first :: data ++ [row])
          = Some (c1, processed, failed))
      /\ (forall f0 cells,
             row = f0 :: cells ->
             Dict.contains (students c1) (strip f0) = false ->
             bulk_import_grades_csv py_float c (first :: data ++ [row])
             = Some (c1, processed, S failed))
      /\ (forall f0 cells st,
             row = f0 :: cells ->
             Dict.get (students c1) (strip f0) = Some st ->
             exists c2 st2,
               bulk_import_grades_csv py_float c (first :: data ++ [row])
               = Some (c2, S processed, failed)
               /\ course_code c2 = course_code c1 /\ title c2 = title c1
               /\ Dict.keys (students c2) = Dict.keys (students c1)
               /\ Dict.get (students c2) (strip f0) = Some st2
               /\ id st2 = id st /\ name st2 = name st
               /\ (forall aname,
                      Dict.get (scores st2) aname
                      = match last_written
                                (cell_writes py_float (strip f0) row
                                             (enumerate 1 (tl (map strip first))))
                                aname with
                        | Some v => Some v
                        | None => Dict.get (scores st) aname
                        end)
               /\ (forall other, other <> strip f0 ->
                                 Dict.get (students c2) other
                                 = Dict.get (students c1) other)
               /\ (forall aname,
                      Dict.get (assignments c2) aname
                      = match Dict.get (assignments c1) aname with
                        | Some a => Some a
                        | None =>
                            match last_written
                                    (cell_writes py_float (strip f0) row
                                                 (enumerate 1 (tl (map strip first))))
                                    aname with
                            | Some _ => Some (mkAssignment aname (of_Z 0) (of_Z 100))
                            | None => None
                            end
                        end)
               /\ ((forall i aname,
                       In (i, aname) (enumerate 1 (tl (map strip first))) ->
                       cell_skipped py_float row i) ->
                   c2 = c1)).
Proof.
  intros num N py_float c first data row Hwide.
  destruct (bulk_import_runs py_float c (first :: data)) as [[[c1 p] f] Hrun].
  exists c1, p, f. split; [exact Hrun|].
  rewrite (wide_import_snoc py_float c first data row Hwide), Hrun. cbn [bind].
  set (names := tl (map strip first)).
  split; [|split].
  - intros ->. reflexivity.
  - intros f0 cells -> Hc. now apply wide_row_unknown.
  - intros f0 cells st -> Hst.
    assert (Hc : Dict.contains (students c1) (strip f0) = true)
      by (apply DictFacts.contains_get; eauto).
    set (ws := cell_writes py_float (strip f0) (f0 :: cells) (enumerate 1 names)).
    destruct (apply_scores_observed (strip f0) ws
                (cell_writes_sid py_float (strip f0) (f0 :: cells) (enumerate 1 names))
                c1 st Hst)
      as [st2 [Hcode [Htitle [Hkeys [Hst2 [Hid [Hname [Hsc [Hroster Hcat]]]]]]]]].
    exists (apply_scores ws c1), st2.
    split.
    { unfold import_wide_row. rewrite Hc. cbn [negb].
      rewrite (cells_as_writes py_float (strip f0) (f0 :: cells) (enumerate 1 names) c1 Hc).
      reflexivity. }
    repeat split; auto.
    intros Hskip. unfold ws.
    now rewrite (cell_writes_skipped py_float (strip f0) (f0 :: cells) _ Hskip).
Qed.

(** The last row of the wide example: Bob is known, his first cell is not a
    number and his second reads 20; the row counts as processed and only the
    second score is recorded, under a name the catalog did not have. *)
Lemma wide_rows_fail_or_process_witness :
  exists c2 st2,
    bulk_import_grades_csv float_of_digits fresh_course wide_rows
    = Some (c2, 3%nat, 1%nat)
    /\ Dict.get (students c2) "s2" = Some st2
    /\ Dict.get (scores st2) "HW1" = None
    /\ Dict.get (scores st2) "HW2" = Some 20%float
    /\ Dict.get (assignments c2) "HW2" = Some (mkAssignment "HW2" 0%float 100%float).
Proof.
  destruct (wide_rows_fail_or_process float float64 float_of_digits fresh_course
              ["ID"; "HW1"; "HW2"]
              [ ["s1"; "18"; "7"]; ["s9"; "1"; "2"]; ["s1"; "19"; " "] ]
              ["s2"; "oops"; "20"] eq_refl)
    as [c1 [p [f [Hrun [_ [_ Hknown]]]]]].
  vm_compute in Hrun. injection Hrun as <- <- <-.
  destruct (Hknown "s2" ["oops"; "20"] (mkStudent "s2" "Bob" []) eq_refl eq_refl)
    as [c2 [st2 [Hrow [_ [_ [_ [Hst2 [_ [_ [Hsc [_ [Hcat _]]]]]]]]]]]].
  exists c2, st2.
  split; [exact Hrow|]. split; [exact Hst2|].
  split; [|split].
  - rewrite Hsc. reflexivity.
  - rewrite Hsc. reflexivity.
  - rewrite Hcat. reflexivity.
Defined.

(* ================================================================== *)
(** * The roster import *)

Section RosterFacts.
Context {num : Type}.

Lemma contains_app_known (V : Type) (d d' : Dict.t V) (k : string) :
  Dict.contains d k = true -> Dict.contains (d ++ d')%list k = true.
Proof.
  intros Hc. apply DictFacts.contains_keys. unfold Dict.keys. rewrite map_app.
  apply in_or_app. left. now apply DictFacts.contains_keys.
Qed.

(** One row adds at most one student, at the end, and touches nothing else. *)
Lemma import_student_row_appends (c : Course num) (count : nat) (row : list string) :
  exists added,
    import_student_row (c, count) row
    = (mkCourse (course_code c) (title c) (students c ++ added)%list (assignments c),
       (count + List.length added)%nat)
    /\ (added = []
        \/ exists field0 rest,
            row = field0 :: rest
            /\ Dict.contains (students c) (strip field0) = false
            /\ added = [(strip field0,
                         mkStudent (strip field0)
                                   (match rest with
                                    | field1 :: _ => strip field1
                                    | [] => strip field0
                                    end) [])]).
Proof.
  destruct c as [code ttl roster catalog]. unfold import_student_row. cbn [students].
  destruct row as [|field0 rest].
  - exists []. rewrite app_nil_r, Nat.add_0_r. auto.
  - destruct (Dict.contains roster (strip field0)) eqn:Ec.
    + exists []. rewrite app_nil_r, Nat.add_0_r. auto.
    + eexists [_]. split.
      * cbn [course_code title students assignments List.length].
        rewrite (DictFacts.set_absent _ roster _ _ Ec). now rewrite Nat.add_1_r.
      * right. exists field0, rest. auto.
Qed.

Lemma import_student_row_known (c : Course num) (count : nat) (row : list string) :
  (forall field0 rest, row = field0 :: rest ->
                       Dict.contains (students c) (strip field0) = true) ->
  import_student_row (c, count) row = (c, count).
Proof.
  intros Hk. unfold import_student_row. destruct row as [|field0 rest]; [reflexivity|].
  now rewrite (Hk field0 rest eq_refl).
Qed.

Lemma import_student_row_registers (c : Course num) (count : nat) (row : list string)
      (field0 : string) (rest : list string) :
  row = field0 :: rest ->
  Dict.contains (students (fst (import_student_row (c, count) row))) (strip field0) = true.
Proof.
  intros ->. unfold import_student_row.
  destruct (Dict.contains (students c) (strip field0)) eqn:Ec; cbn [fst students].
  - exact Ec.
  - rewrite DictFacts.contains_set. now rewrite String.eqb_refl.
Qed.

Lemma import_student_row_keeps (c : Course num) (count : nat) (row : list string)
      (sid : string) :
  Dict.contains (students c) sid = true ->
  Dict.contains (students (fst (import_student_row (c, count) row))) sid = true.
Proof.
  intros Hc. destruct (import_student_row_appends c count row) as [added [-> _]].
  cbn [fst students]. now apply contains_app_known.
Qed.

(** What the whole import adds. *)
Lemma import_students_appends (rows : list (list string)) (c : Course num) (count : nat) :
  exists added,
    fold_left import_student_row rows (c, count)
    = (mkCourse (course_code c) (title c) (students c ++ added)%list (assignments c),
       (count + List.length added)%nat)
    /\ NoDup (Dict.keys added)
    /\ Forall (fun kv =>
                 Dict.contains (students c) (fst kv) = false
                 /\ id (snd kv) = fst kv
                 /\ scores (snd kv) = []
                 /\ exists field0 rest,
                     In (field0 :: rest) rows /\ fst kv = strip field0
                     /\ name (snd kv) = match rest with
                                        | field1 :: _ => strip field1
                                        | [] => strip field0
                                        end)
              added.
Proof.
  revert c count. induction rows as [|row rows IH]; intros c count.
  - exists []. cbn [fold_left List.length]. rewrite app_nil_r, Nat.add_0_r.
    destruct c. repeat split; constructor.
  - cbn [fold_left].
    destruct (import_student_row_appends c count row) as [a1 [Hrow Ha1]].
    rewrite Hrow.
    destruct (IH (mkCourse (course_code c) (title c) (students c ++ a1)%list (assignments c))
                 (count + List.length a1)%nat) as [a2 [Hrest [Hnd Hall]]].
    cbn [course_code title students assignments] in Hrest, Hall.
    exists (a1 ++ a2)%list. split; [|split].
    + rewrite Hrest, <- app_assoc, length_app, Nat.add_assoc. reflexivity.
    + destruct Ha1 as [-> | [field0 [rest [-> [Hnew ->]]]]]; [exact Hnd|].
      cbn [app Dict.keys map fst]. constructor; [|exact Hnd].
      intros Hin. change (In (strip field0) (Dict.keys a2)) in Hin.
      rewrite Forall_forall in Hall.
      unfold Dict.keys in Hin. apply in_map_iff in Hin. destruct Hin as [kv [Hk Hin]].
      destruct (Hall kv Hin) as [Habs _]. rewrite Hk in Habs.
      assert (Hc : Dict.contains (students c ++ [(strip field0,
                      mkStudent (strip field0)
                                match rest with
                                | field1 :: _ => strip field1
                                | [] => strip field0
                                end [])])%list (strip field0) = true).
      { apply DictFacts.contains_keys. unfold Dict.keys. rewrite map_app.
        apply in_or_app. right. now left. }
      congruence.
    + apply Forall_app. split.
      * destruct Ha1 as [-> | [field0 [rest [-> [Hnew ->]]]]]; [constructor|].
        constructor; [|constructor]. cbn [fst snd id name scores].
        repeat split; auto. exists field0, rest. repeat split; auto. now left.
      * rewrite Forall_forall in Hall |- *. intros kv Hin.
        destruct (Hall kv Hin) as [Habs [Hid [Hsc [field0 [rest [Hrow' Hname]]]]]].
        repeat split; auto.
        -- now apply contains_app_false in Habs.
        -- exists field0, rest. split; [now right | exact Hname].
Qed.

Lemma import_students_known (rows : list (list string)) (c : Course num) (count : nat) :
  (forall field0 rest, In (field0 :: rest) rows ->
                       Dict.contains (students c) (strip field0) = true) ->
  fold_left import_student_row rows (c, count) = (c, count).
Proof.
  induction rows as [|row rows IH]; intros Hk; [reflexivity|].
  cbn [fold_left]. rewrite import_student_row_known.
  - apply IH. intros field0 rest Hin. apply (Hk field0 rest). now right.
  - intros field0 rest ->. apply (Hk field0 rest). now left.
Qed.

Lemma import_students_registers (rows : list (list string)) (c : Course num) (count : nat) :
  (forall sid, Dict.contains (students c) sid = true ->
               Dict.contains (students (fst (fold_left import_student_row rows (c, count))))
                             sid = true)
  /\ forall field0 rest,
      In (field0 :: rest) rows ->
      Dict.contains (students (fst (fold_left import_student_row rows (c, count))))
                    (strip field0) = true.
Proof.
  revert c count. induction rows as [|row rows IH]; intros c count.
  - split; [auto | intros ? ? []].
  - cbn [fold_left].
    destruct (import_student_row (c, count) row) as [c1 n1] eqn:E.
    destruct (IH c1 n1) as [Hkeep Hreg].
    split.
    + intros sid Hc. apply Hkeep.
      pose proof (import_student_row_keeps c count row sid Hc) as Hk.
      now rewrite E in Hk.
    + intros field0 rest [-> | Hin]; [|now apply (Hreg field0 rest)].
      apply Hkeep.
      pose proof (import_student_row_registers c count _ field0 rest eq_refl) as Hk.
      now rewrite E in Hk.
Qed.
End RosterFacts.

(** X1.  [import_students_from_csv] only appends to the roster: the
    students that were there stay as they are, scores included, and in place;
    each student it adds is new, has the id it is filed under, no scores, and
    the name of its row (the id itself when the row has one field); the count
    it returns is the number of students added, and the catalog, code and
    title are untouched. *)
Theorem roster_import_only_appends :
  forall (num : Type) (c : Course num) (rows : list (list string)),
  exists added,
    import_students_from_csv c rows
    = (mkCourse (course_code c) (title c) (students c ++ added)%list (assignments c),
       List.length added)
    /\ NoDup (Dict.keys added)
    /\ Forall (fun kv =>
                 Dict.contains (students c) (fst kv) = false
                 /\ id (snd kv) = fst kv
                 /\ scores (snd kv) = []
                 /\ exists field0 rest,
                     In (field0 :: rest) rows /\ fst kv = strip field0
                     /\ name (snd kv) = match rest with
                                        | field1 :: _ => strip field1
                                        | [] => strip field0
                                        end)
              added.
Proof.
  intros num c rows. unfold import_students_from_csv.
  destruct (import_students_appends rows c 0) as [added Hadded].
  exists added. exact Hadded.
Qed.

(** X2.  After [import_students_from_csv] the id of every non-empty row is
    on the roster, and importing the same rows again adds nobody: the course
    is unchanged and the count is 0. *)
Theorem roster_import_is_idempotent :
  forall (num : Type) (c : Course num) (rows : list (list string)),
    (forall field0 rest,
        In (field0 :: rest) rows ->
        Dict.contains (students (fst (import_students_from_csv c rows))) (strip field0)
        = true)
    /\ import_students_from_csv (fst (import_students_from_csv c rows)) rows
       = (fst (import_students_from_csv c rows), 0%nat).
Proof.
  intros num c rows. unfold import_students_from_csv.
  destruct (import_students_registers rows c 0) as [_ Hreg].
  split; [exact Hreg|].
  now apply import_students_known.
Qed.

(* ================================================================== *)
(** * Single entries *)

Section EntryFacts.
Context {num : Type}.

Lemma get_app_new (V : Type) (d : Dict.t V) (k : string) (v : V) :
  Dict.contains d k = false -> Dict.get (d ++ [(k, v)])%list k = Some v.
Proof.
  intros Hc. rewrite <- (DictFacts.set_absent _ d k v Hc).
  apply DictFacts.get_set_same.
Qed.

Lemma set_score_known (roster : Dict.t (Student num)) (sid aname : string) (v : num)
      (st : Student num) :
  Dict.get roster sid = Some st ->
  set_score roster sid aname v = Some (Dict.set roster sid (with_score st aname v)).
Proof. intros Hg. unfold set_score. now rewrite Hg. Qed.
End EntryFacts.

(** X3.  [add_assignment] raises [ValueError] exactly when the name is
    taken, and then changes nothing; otherwise the assignment goes last in
    the catalog with the weight and max_score given, is found under its
    name, leaves every other assignment and the students as they were, and a
    second [add_assignment] under the same name is refused. *)
Theorem add_assignment_refuses_duplicates :
  forall (num : Type) (c : Course num) (aname : string) (w m : num),
    (Dict.contains (assignments c) aname = true ->
     add_assignment c aname w m
     = inl (ValueError "Assignment with that name already exists."))
    /\ (Dict.contains (assignments c) aname = false ->
        exists c',
          add_assignment c aname w m = inr c'
          /\ assignments c' = (assignments c ++ [(aname, mkAssignment aname w m)])%list
          /\ students c' = students c
          /\ Dict.get (assignments c') aname = Some (mkAssignment aname w m)
          /\ (forall other a, Dict.get (assignments c) other = Some a ->
                              Dict.get (assignments c') other = Some a)
          /\ forall w' m',
              add_assignment c' aname w' m'
              = inl (ValueError "Assignment with that name already exists.")).
Proof.
  intros num c aname w m. unfold add_assignment. split; intros Hc.
  - now rewrite Hc.
  - rewrite Hc. eexists. split; [reflexivity|].
    cbn [assignments students].
    rewrite (DictFacts.set_absent _ (assignments c) aname _ Hc).
    split; [reflexivity|]. split; [reflexivity|].
    split; [now apply get_app_new|].
    split.
    + intros other a. apply get_app_known.
    + intros w' m'.
      assert (Hin : Dict.contains (assignments c ++ [(aname, mkAssignment aname w m)])%list
                                  aname = true).
      { apply DictFacts.contains_get. exists (mkAssignment aname w m).
        now apply get_app_new. }
      now rewrite Hin.
Qed.

(** The survey is taken, a quiz is not. *)
Lemma add_assignment_refuses_duplicates_witness :
  add_assignment ungraded_course "Survey" 1%float 10%float
  = inl (ValueError "Assignment with that name already exists.")
  /\ exists c',
      add_assignment ungraded_course "Quiz" 1%float 10%float = inr c'
      /\ Dict.get (assignments c') "Quiz" = Some (mkAssignment "Quiz" 1%float 10%float).
Proof.
  split.
  - apply (proj1 (add_assignment_refuses_duplicates float ungraded_course "Survey"
                                                    1%float 10%float)).
    reflexivity.
  - destruct (proj2 (add_assignment_refuses_duplicates float ungraded_course "Quiz"
                                                       1%float 10%float) eq_refl)
      as [c' [Hadd [_ [_ [Hget _]]]]].
    exists c'. split; [exact Hadd | exact Hget].
Defined.

(** X4.  [enter_grade] raises [KeyError] for an unknown student, and for a
    known student with an unknown assignment (it never registers one);
    otherwise the score is stored and read back under the assignment's name,
    the student's other scores, the other students, the order of the roster
    and the catalog are as before. *)
Theorem enter_grade_stores_one_score :
  forall (num : Type) (c : Course num) (sid aname : string) (v : num),
    (Dict.contains (students c) sid = false ->
     enter_grade c sid aname v = inl (KeyError "Student not found."))
    /\ (Dict.contains (students c) sid = true ->
        Dict.contains (assignments c) aname = false ->
        enter_grade c sid aname v = inl (KeyError "Assignment not found."))
    /\ (forall st,
           Dict.get (students c) sid = Some st ->
           Dict.contains (assignments c) aname = true ->
           exists c' st',
             enter_grade c sid aname v = inr c'
             /\ assignments c' = assignments c
             /\ Dict.keys (students c') = Dict.keys (students c)
             /\ Dict.get (students c') sid = Some st'
             /\ id st' = id st /\ name st' = name st
             /\ Dict.get (scores st') aname = Some v
             /\ (forall other, other <> aname ->
                               Dict.get (scores st') other = Dict.get (scores st) other)
             /\ (forall other, other <> sid ->
                               Dict.get (students c') other = Dict.get (students c) other)).
Proof.
  intros num c sid aname v. unfold enter_grade. split; [|split].
  - intros Hs. now rewrite Hs.
  - intros Hs Ha. now rewrite Hs, Ha.
  - intros st Hst Ha.
    assert (Hs : Dict.contains (students c) sid = true)
      by (apply DictFacts.contains_get; eauto).
    rewrite Hs, Ha. cbn [negb]. rewrite (set_score_known _ sid aname v st Hst).
    exists (mkCourse (course_code c) (title c)
                     (Dict.set (students c) sid (with_score st aname v)) (assignments c)),
      (with_score st aname v).
    cbn [assignments students].
    split; [reflexivity|]. split; [reflexivity|].
    split; [now apply DictFacts.keys_set_present|].
    split; [apply DictFacts.get_set_same|].
    split; [reflexivity|]. split; [reflexivity|].
    split; [apply DictFacts.get_set_same|].
    split.
    + intros other Hne. apply DictFacts.get_set_other. congruence.
    + intros other Hne. apply DictFacts.get_set_other. congruence.
Qed.

(** Alice's exam in the survey course is set to 90. *)
Lemma enter_grade_stores_one_score_witness :
  enter_grade ungraded_course "s7" "Exam" 90%float = inl (KeyError "Student not found.")
  /\ enter_grade ungraded_course "s1" "Quiz" 90%float
     = inl (KeyError "Assignment not found.")
  /\ exists c' st',
      enter_grade ungraded_course "s1" "Exam" 90%float = inr c'
      /\ Dict.get (students c') "s1" = Some st'
      /\ Dict.get (scores st') "Exam" = Some 90%float.
Proof.
  pose proof (enter_grade_stores_one_score float ungraded_course) as T.
  split; [|split].
  - apply (proj1 (T "s7" "Exam" 90%float)). reflexivity.
  - apply (proj1 (proj2 (T "s1" "Quiz" 90%float))); reflexivity.
  - destruct (proj2 (proj2 (T "s1" "Exam" 90%float))
                    (mkStudent "s1" "Alice" [("Survey", 7%float); ("Exam", 80%float)])
                    eq_refl eq_refl)
      as [c' [st' [Hrun [_ [_ [Hget [_ [_ [Hscore _]]]]]]]]].
    exists c', st'. auto.
Defined.

(** X5.  For an assignment that is in the catalog, a narrow row with a
    numeric score does what [enter_grade] does: the same course and one more
    processed row when [enter_grade] succeeds, one more failed row and no
    change when it raises.  For a known student and an assignment that is not
    in the catalog the two differ: [enter_grade] raises, the row is
    processed. *)
Theorem narrow_row_is_enter_grade :
  forall (num : Type) (N : Number num) (py_float : string -> option num)
         (c : Course num) (processed failed : nat) (f0 f1 f2 : string)
         (rest : list string) (score : num),
    py_float (strip f2) = Some score ->
    (Dict.contains (assignments c) (strip f1) = true ->
     import_narrow_row py_float (c, processed, failed) (f0 :: f1 :: f2 :: rest)
     = match enter_grade c (strip f0) (strip f1) score with
       | inr c' => Some (c', S processed, failed)
       | inl _ => Some (c, processed, S failed)
       end)
    /\ (Dict.contains (assignments c) (strip f1) = false ->
        Dict.contains (students c) (strip f0) = true ->
        enter_grade c (strip f0) (strip f1) score = inl (KeyError "Assignment not found.")
        /\ exists c',
            import_narrow_row py_float (c, processed, failed) (f0 :: f1 :: f2 :: rest)
            = Some (c', S processed, failed)
            /\ Dict.get (assignments c') (strip f1) = Some (placeholder (strip f1))).
Proof.
  intros num N py_float c processed failed f0 f1 f2 rest score Hscore. split.
  - intros Ha. unfold import_narrow_row, enter_grade. rewrite Hscore, Ha.
    destruct (Dict.get (students c) (strip f0)) as [st|] eqn:Est.
    + assert (Hs : Dict.contains (students c) (strip f0) = true)
        by (apply DictFacts.contains_get; eauto).
      rewrite Hs. cbn [negb].
      rewrite (record_score_known c _ _ score st Est).
      rewrite (set_score_known _ _ _ score st Est). cbn [bind].
      now rewrite (register_known _ _ Ha).
    + assert (Hs : Dict.contains (students c) (strip f0) = false)
        by (unfold Dict.contains; now rewrite Est).
      now rewrite Hs.
  - intros Ha Hs. split.
    + unfold enter_grade. now rewrite Hs, Ha.
    + apply DictFacts.contains_get in Hs. destruct Hs as [st Hst].
      rewrite (narrow_row_recorded py_float c processed failed f0 f1 f2 rest score st
                                   Hscore Hst).
      eexists. split; [reflexivity|]. cbn [assignments]. rewrite Ha.
      now apply get_app_new.
Qed.

(** A row for Alice's exam, against the single entry. *)
Lemma narrow_row_is_enter_grade_witness :
  import_narrow_row float_of_digits (ungraded_course, 0%nat, 0%nat) ["s1"; "Exam"; "90"]
  = match enter_grade ungraded_course "s1" "Exam" 90%float with
    | inr c' => Some (c', 1%nat, 0%nat)
    | inl _ => Some (ungraded_course, 0%nat, 1%nat)
    end.
Proof.
  apply (proj1 (narrow_row_is_enter_grade float float64 float_of_digits ungraded_course
                                          0%nat 0%nat "s1" "Exam" "90" [] 90%float
                                          eq_refl)).
  reflexivity.
Defined.

(* ================================================================== *)
(** * The roster under bulk ingestion *)

Section RosterKept.
Context {num : Type} `{Number num}.
Variable py_float : string -> option num.

Lemma roster_kept_refl (touched : string -> Prop) (c : Course num) :
  roster_kept touched c c.
Proof.
  unfold roster_kept. repeat split; auto.
  intros sid st Hst. exists st. auto.
Qed.

Lemma roster_kept_record (touched : string -> Prop) (c c1 c2 : Course num)
      (sid aname : string) (v : num) :
  roster_kept touched c c1 ->
  touched sid ->
  record_score c1 sid aname v = Some c2 ->
  roster_kept touched c c2.
Proof.
  intros [Hcode [Htitle [Hkeys [Hall Hout]]]] Ht Hrec.
  unfold record_score, set_score in Hrec.
  destruct (Dict.get (students c1) sid) as [st1|] eqn:E1; [|discriminate].
  cbn [bind] in Hrec. injection Hrec as <-.
  unfold roster_kept. cbn [course_code title students].
  split; [exact Hcode|]. split; [exact Htitle|]. split; [|split].
  - rewrite DictFacts.keys_set_present; [exact Hkeys|].
    apply DictFacts.contains_get. eauto.
  - intros sid' st Hst. destruct (Hall sid' st Hst) as [st' [Hg [Hid [Hname Hsc]]]].
    destruct (string_dec sid sid') as [<- | Hne].
    + exists (with_score st1 aname v). rewrite DictFacts.get_set_same.
      assert (st' = st1) by congruence. subst st'.
      repeat split; auto.
      intros an Han. cbn [with_score scores]. rewrite DictFacts.contains_set.
      rewrite (Hsc an Han). apply orb_true_r.
    + exists st'. rewrite DictFacts.get_set_other by exact Hne. auto.
  - intros sid' Hnt. rewrite DictFacts.get_set_other; [now apply Hout|].
    intros ->. contradiction.
Qed.

Lemma roster_kept_cells (touched : string -> Prop) (c : Course num) (sid : string)
      (row : list string) (cells : list (nat * string)) (c1 c2 : Course num) :
  touched sid ->
  roster_kept touched c c1 ->
  for_each (import_cell py_float sid row) cells c1 = Some c2 ->
  roster_kept touched c c2.
Proof.
  intros Ht Hk. revert Hk.
  apply for_each_invariant with (I := fun c' => roster_kept touched c c').
  intros s [i aname] s' _ Hs. unfold import_cell.
  destruct (nth_error row i) as [field|]; [|now intros [= <-]].
  destruct (String.eqb (strip field) ""); [now intros [= <-]|].
  destruct (py_float (strip field)) as [score|]; [|now intros [= <-]].
  now apply roster_kept_record.
Qed.

Lemma roster_kept_wide_row (rows : list (list string)) (names : list string)
      (c : Course num) (s s' : import_state) (row : list string) :
  In row rows ->
  roster_kept (named_in rows) c (fst (fst s)) ->
  import_wide_row py_float names s row = Some s' ->
  roster_kept (named_in rows) c (fst (fst s')).
Proof.
  destruct s as [[c1 processed] failed]. cbn [fst]. intros Hin Hk.
  unfold import_wide_row. destruct row as [|field0 rest]; [now intros [= <-]|].
  destruct (Dict.contains (students c1) (strip field0)); cbn [negb];
    [|now intros [= <-]].
  destruct (for_each _ _ c1) as [c2|] eqn:Erun; cbn [bind]; [|discriminate].
  intros [= <-]. cbn [fst].
  apply (roster_kept_cells _ c (strip field0) (field0 :: rest) (enumerate 1 names) c1 c2);
    auto.
  exists field0, rest. auto.
Qed.

Lemma roster_kept_narrow_row (rows : list (list string)) (c : Course num)
      (s s' : import_state) (row : list string) :
  In row rows ->
  roster_kept (named_in rows) c (fst (fst s)) ->
  import_narrow_row py_float s row = Some s' ->
  roster_kept (named_in rows) c (fst (fst s')).
Proof.
  destruct s as [[c1 processed] failed]. cbn [fst]. intros Hin Hk.
  unfold import_narrow_row.
  destruct row as [|f0 [|f1 [|f2 rest]]]; try (now intros [= <-]).
  destruct (py_float (strip f2)) as [score|]; [|now intros [= <-]].
  destruct (Dict.contains (students c1) (strip f0)); cbn [negb]; [|now intros [= <-]].
  destruct (record_score c1 (strip f0) (strip f1) score) as [c2|] eqn:Er; cbn [bind];
    [|discriminate].
  intros [= <-]. cbn [fst].
  apply (roster_kept_record _ c c1 c2 (strip f0) (strip f1) score); auto.
  exists f0, (f1 :: f2 :: rest). auto.
Qed.

Lemma bulk_import_roster_kept (c : Course num) (rows : list (list string))
      (s' : import_state) :
  bulk_import_grades_csv py_float c rows = Some s' ->
  roster_kept (named_in rows) c (fst (fst s')).
Proof.
  unfold bulk_import_grades_csv. destruct rows as [|first data].
  - intros [= <-]. apply roster_kept_refl.
  - destruct (is_wide first).
    + apply for_each_invariant
        with (I := fun s => roster_kept (named_in (first :: data)) c (fst (fst s)));
        [|apply roster_kept_refl].
      intros s x s1 Hin. apply roster_kept_wide_row. now right.
    + apply for_each_invariant
        with (I := fun s => roster_kept (named_in (first :: data)) c (fst (fst s)));
        [|apply roster_kept_refl].
      intros s x s1 Hin. now apply roster_kept_narrow_row.
Qed.

Lemma row_counts_filter (c : Course num) (data : list (list string)) (p f : nat) :
  fold_left (row_counts (fun sid => Dict.contains (students c) sid)) data (p, f)
  = ((p + List.length (rows_of_known c data))%nat,
     (f + List.length (rows_of_unknown c data))%nat).
Proof.
  revert p f. induction data as [|row data IH]; intros p f.
  - cbn. now rewrite !Nat.add_0_r.
  - cbn [fold_left]. unfold rows_of_known, rows_of_unknown in *. cbn [filter].
    destruct row as [|field0 rest].
    + cbn [row_counts]. apply IH.
    + cbn [row_counts fst snd].
      destruct (Dict.contains (students c) (strip field0)); cbn [negb List.length];
        rewrite IH; f_equal; lia.
Qed.
End RosterKept.

(** X6.  Bulk ingestion, in either format, never adds, removes, renames or
    reorders students and keeps the course code and title: every student has
    the id and name it had and still has a score wherever it had one, and a
    student whose id no row names has exactly the scores it had. *)
Theorem bulk_import_keeps_the_roster :
  forall (num : Type) (N : Number num) (py_float : string -> option num)
         (c : Course num) (rows : list (list string)),
  exists c' processed failed,
    bulk_import_grades_csv py_float c rows = Some (c', processed, failed)
    /\ roster_kept (named_in rows) c c'.
Proof.
  intros num N py_float c rows.
  destruct (bulk_import_runs py_float c rows) as [[[c' processed] failed] Hrun].
  exists c', processed, failed. split; [exact Hrun|].
  apply (bulk_import_roster_kept py_float c rows _ Hrun).
Qed.

(** X7.  A wide import counts as processed the data rows whose id is on the
    roster and as failed the non-empty data rows whose id is not; empty rows
    and the header count as neither, and so does nothing else. *)
Theorem wide_import_counts_rows :
  forall (num : Type) (N : Number num) (py_float : string -> option num)
         (c : Course num) (first : list string) (data : list (list string)),
    is_wide first = true ->
    exists c',
      bulk_import_grades_csv py_float c (first :: data)
      = Some (c', List.length (rows_of_known c data), List.length (rows_of_unknown c data)).
Proof.
  intros num N py_float c first data Hwide.
  unfold bulk_import_grades_csv. rewrite Hwide.
  rewrite (wide_rows_as_writes py_float (fun sid => Dict.contains (students c) sid)
                               (tl (map strip first)) data c 0 0) by reflexivity.
  rewrite row_counts_filter. cbn [fst snd Nat.add]. eauto.
Qed.

(** The wide file of four data rows: three for known students, one not. *)
Lemma wide_import_counts_rows_witness :
  exists c',
    bulk_import_grades_csv float_of_digits fresh_course wide_rows = Some (c', 3%nat, 1%nat).
Proof.
  apply (wide_import_counts_rows float float64 float_of_digits fresh_course
                                 ["ID"; "HW1"; "HW2"]).
  reflexivity.
Defined.

(* ================================================================== *)
(** * The class report *)

Section ReportFacts.
Context {num : Type} `{Number num}.

Lemma wf_in_get (V : Type) (d : Dict.t V) (k : string) (v : V) :
  Dict.wf d -> In (k, v) d -> Dict.get d k = Some v.
Proof.
  unfold Dict.wf. induction d as [|[k' v'] d IH]; simpl; [tauto|].
  intros Hnd [Heq | Hin]; inversion Hnd; subst.
  - inversion Heq; subst. now rewrite String.eqb_refl.
  - destruct (String.eqb k' k) eqn:E; [|auto].
    apply String.eqb_eq in E; subst k'.
    exfalso. apply H2. change k with (fst (k, v)). now apply in_map.
Qed.

Lemma get_map_value (V W : Type) (f : V -> W) (d : Dict.t V) (k : string) (v : V) :
  Dict.get d k = Some v ->
  Dict.get (map (fun kv => (fst kv, f (snd kv))) d) k = Some (f v).
Proof.
  induction d as [|[k' v'] d IH]; simpl; [discriminate|].
  destruct (String.eqb k' k); [now intros [= ->] | exact IH].
Qed.

Lemma report_rows_map (weighted : Dict.t num) (include_letter : bool)
      (roster : Dict.t (Student num)) :
  fold_left (fun report kv =>
               (report ++ [report_row weighted include_letter (fst kv) (snd kv)])%list)
            roster []
  = map (fun kv => report_row weighted include_letter (fst kv) (snd kv)) roster.
Proof.
  assert (G : forall l acc,
             fold_left (fun report (kv : string * Student num) =>
                          (report ++ [report_row weighted include_letter (fst kv) (snd kv)])%list)
                       l acc
             = (acc ++ map (fun kv => report_row weighted include_letter (fst kv) (snd kv)) l)%list).
  { induction l as [|kv l IH]; intros acc; simpl; [now rewrite app_nil_r|].
    rewrite IH. now rewrite <- app_assoc. }
  apply G.
Qed.

Lemma generate_class_report_rows (c : Course num) (include_letter : bool) :
  generate_class_report c include_letter
  = Some (map (fun kv => report_row (results_of c) include_letter (fst kv) (snd kv))
              (students c)).
Proof.
  unfold generate_class_report. rewrite calculate_weighted_scores_safe. cbn [bind].
  now rewrite report_rows_map.
Qed.

Lemma export_rows_run (names : list string) (report : list (ReportRow num))
      (written : list (list (Cell num))) :
  Forall (fun r => row_letter r <> None) report ->
  Forall (fun row => List.length row = (4 + List.length names)%nat) written ->
  exists table,
    for_each (fun written r =>
                row <- export_row names r ;; Some (written ++ [row])%list)
             report written = Some table
    /\ List.length table = (List.length written + List.length report)%nat
    /\ Forall (fun row => List.length row = (4 + List.length names)%nat) table.
Proof.
  revert written. induction report as [|r report IH]; intros written Hl Hw.
  - exists written. cbn. rewrite Nat.add_0_r. auto.
  - inversion Hl as [|r' report' Hr Hrest]; subst.
    cbn [for_each]. unfold export_row at 1.
    destruct (row_letter r) as [letter|]; [|contradiction]. cbn [bind].
    destruct (IH (written ++ [[Text (row_id r); Text (row_name r)]
                              ++ map (fun an => match Dict.get (row_scores r) an with
                                                | Some v => Num v
                                                | None => Text ""
                                                end) names
                              ++ [Num (row_weighted_total r); Text letter]])%list Hrest)
      as [table [Hrun [Hlen Hall]]].
    + apply Forall_app. split; [exact Hw|]. constructor; [|constructor].
      cbn [app List.length]. rewrite length_app, length_map. cbn [List.length]. lia.
    + exists table. split; [exact Hrun|]. split; [|exact Hall].
      rewrite Hlen, length_app. cbn [List.length]. lia.
Qed.
End ReportFacts.

(** X8.  [generate_class_report] has one row per student, in the students'
    order: the row carries the student's id, name and scores, the weighted
    total that [calculate_weighted_scores] holds for that id (the default 0.0
    is never taken), and the letter of that total when letters are asked
    for. *)
Theorem class_report_matches_weighted_scores :
  forall (num : Type) (N : Number num) (c : Course num) (include_letter : bool),
  exists weighted report,
    calculate_weighted_scores c = Some weighted
    /\ generate_class_report c include_letter = Some report
    /\ map (@row_id num) report = Dict.keys (students c)
    /\ Forall2 (fun kv r =>
                  row_id r = fst kv
                  /\ row_name r = name (snd kv)
                  /\ row_scores r = scores (snd kv)
                  /\ Dict.get weighted (fst kv) = Some (row_weighted_total r)
                  /\ row_letter r
                     = if include_letter
                       then Some (numeric_to_letter (row_weighted_total r))
                       else None)
               (students c) report.
Proof.
  intros num N c include_letter.
  exists (results_of c),
    (map (fun kv => report_row (results_of c) include_letter (fst kv) (snd kv)) (students c)).
  split; [apply calculate_weighted_scores_safe|].
  split; [apply generate_class_report_rows|].
  split; [unfold Dict.keys; rewrite map_map; reflexivity|].
  assert (Hget : forall kv, In kv (students c) ->
                            Dict.get (results_of c) (fst kv)
                            = Some (Dict.get_default (results_of c) (fst kv) zero)).
  { intros [sid st] Hin. cbn [fst].
    destruct (results_of_covers c sid st Hin) as [t Ht].
    unfold Dict.get_default. now rewrite Ht. }
  induction (students c) as [|kv roster IH]; cbn [map]; constructor.
  - unfold report_row. cbn. repeat split; auto. apply Hget. now left.
  - apply IH. intros kv' Hin. apply Hget. now right.
Qed.

(** X9.  [export_report_csv] never raises, and what it writes is a
    rectangular table: a header and one row per student, each of four cells
    more than there are assignments. *)
Theorem exported_report_is_rectangular :
  forall (num : Type) (N : Number num) (c : Course num),
  exists table,
    export_report_csv c = Some table
    /\ List.length table = S (List.length (students c))
    /\ Forall (fun row => List.length row = (4 + List.length (assignments c))%nat) table.
Proof.
  intros num N c. unfold export_report_csv.
  rewrite generate_class_report_rows. cbn [bind].
  destruct (export_rows_run (Dict.keys (assignments c))
              (map (fun kv => report_row (results_of c) true (fst kv) (snd kv)) (students c))
              [])
    as [rows [Hrun [Hlen Hall]]].
  - apply Forall_forall. intros r Hin. apply in_map_iff in Hin.
    destruct Hin as [kv [<- _]]. discriminate.
  - constructor.
  - rewrite Hrun. cbn [bind]. eexists. split; [reflexivity|].
    assert (Hnames : List.length (Dict.keys (assignments c))
                     = List.length (assignments c))
      by (unfold Dict.keys; apply length_map).
    rewrite Hnames in Hall. rewrite length_map in Hlen.
    split.
    + cbn [List.length] in *. now rewrite Hlen.
    + constructor; [|exact Hall].
      rewrite length_map, !length_app, Hnames. cbn [List.length]. lia.
Qed.

(* ================================================================== *)
(** * Saving and loading *)

Section PersistenceFacts.
Context {num : Type} `{Number num}.

Lemma student_dict_round_trip (s : Student num) :
  student_of_dict (student_to_dict s) = s.
Proof. now destruct s. Qed.

Lemma assignment_dict_round_trip (a : Assignment num) :
  assignment_of_dict (assignment_to_dict a) = a.
Proof. now destruct a. Qed.

Lemma wf_map_values (V W : Type) (f : V -> W) (d : Dict.t V) :
  Dict.wf d -> Dict.wf (map (fun kv => (fst kv, f (snd kv))) d).
Proof. unfold Dict.wf, Dict.keys. now rewrite map_map. Qed.

(** Filing the entries of a dictionary under their keys, one after the
    other, and reading them back the same way restores it. *)
Lemma comprehension_round_trip (V W : Type) (f : V -> W) (g : W -> V) (d : Dict.t V) :
  Dict.wf d -> (forall v, g (f v) = v) ->
  Dict.comprehension g (Dict.comprehension f d) = d.
Proof.
  intros Hwf Hgf.
  rewrite (DictFacts.comprehension_wf _ _ f d Hwf).
  rewrite DictFacts.comprehension_wf by now apply wf_map_values.
  rewrite map_map. cbn [fst snd].
  rewrite <- (map_id d) at 2. apply map_ext. intros [k v]. cbn. now rewrite Hgf.
Qed.

Lemma payload_round_trip (c : Course num) :
  Dict.wf (students c) -> Dict.wf (assignments c) ->
  course_of_payload (payload_of c) = c.
Proof.
  intros Hs Ha. unfold course_of_payload, payload_of.
  cbn [p_course_code p_title p_students p_assignments].
  change (fold_left (fun roster kv => Dict.set roster (fst kv) (student_of_dict (snd kv)))
                    (Dict.comprehension student_to_dict (students c)) [])
    with (Dict.comprehension student_of_dict
                             (Dict.comprehension student_to_dict (students c))).
  change (fold_left (fun catalog kv => Dict.set catalog (fst kv) (assignment_of_dict (snd kv)))
                    (Dict.comprehension assignment_to_dict (assignments c)) [])
    with (Dict.comprehension assignment_of_dict
                             (Dict.comprehension assignment_to_dict (assignments c))).
  rewrite (comprehension_round_trip _ _ _ _ _ Hs student_dict_round_trip).
  rewrite (comprehension_round_trip _ _ _ _ _ Ha assignment_dict_round_trip).
  now destruct c.
Qed.

Lemma payload_entries (p : Payload num) :
  Dict.wf (p_students p) -> Dict.wf (p_assignments p) ->
  students (course_of_payload p)
  = map (fun kv => (fst kv, student_of_dict (snd kv))) (p_students p)
  /\ assignments (course_of_payload p)
     = map (fun kv => (fst kv, assignment_of_dict (snd kv))) (p_assignments p).
Proof.
  intros Hs Ha. unfold course_of_payload. cbn [students assignments]. split.
  - apply (DictFacts.comprehension_wf _ _ student_of_dict (p_students p) Hs).
  - apply (DictFacts.comprehension_wf _ _ assignment_of_dict (p_assignments p) Ha).
Qed.
End PersistenceFacts.

(** X10.  On a store where a file reads back as it was written, [load]
    after [save] returns the course that was saved: code, title, every
    student with id, name and scores, every assignment with name, weight and
    max_score, all in their order. *)
Theorem load_after_save_restores_the_course :
  forall (num : Type) (N : Number num) (store : Type)
         (read_file : string -> store -> option (Payload num))
         (write_file : string -> Payload num -> store -> store),
    (forall path payload fs, read_file path (write_file path payload fs) = Some payload) ->
    forall (c : Course num) (fs : store),
      Dict.wf (students c) -> Dict.wf (assignments c) ->
      load read_file (course_code c) (save write_file c fs) = Some c.
Proof.
  intros num N store read_file write_file Hrw c fs Hs Ha.
  unfold load, save. rewrite Hrw. now rewrite payload_round_trip.
Qed.

(** The demo course, on a store that is a dictionary of files. *)
Lemma load_after_save_restores_the_course_witness :
  load (fun path fs => Dict.get fs path) "demo101"
       (save (fun path payload fs => Dict.set fs path payload) demo_course [])
  = Some demo_course.
Proof.
  apply (load_after_save_restores_the_course
           float float64 (Dict.t (Payload float))
           (fun path fs => Dict.get fs path)
           (fun path payload fs => Dict.set fs path payload)).
  - intros path payload fs. apply DictFacts.get_set_same.
  - exact demo_course_students_wf.
  - exact demo_course_assignments_wf.
Defined.

(** X11.  [load] returns nothing when there is no file for the code.  When
    there is one, every student and assignment of the file is found under
    its key; an assignment filed without [max_score] gets 100, a student
    filed without [scores] gets none. *)
Theorem load_reads_what_is_filed :
  forall (num : Type) (N : Number num) (store : Type)
         (read_file : string -> store -> option (Payload num))
         (code : string) (fs : store),
    (read_file (course_path code) fs = None -> load read_file code fs = None)
    /\ (forall p,
           read_file (course_path code) fs = Some p ->
           Dict.wf (p_students p) -> Dict.wf (p_assignments p) ->
           exists c,
             load read_file code fs = Some c
             /\ course_code c = p_course_code p
             /\ Dict.keys (students c) = Dict.keys (p_students p)
             /\ Dict.keys (assignments c) = Dict.keys (p_assignments p)
             /\ (forall sid sd,
                    Dict.get (p_students p) sid = Some sd ->
                    Dict.get (students c) sid
                    = Some (mkStudent (d_id sd) (d_name sd)
                                      (match d_scores sd with
                                       | Some sc => sc
                                       | None => []
                                       end)))
             /\ (forall aname ad,
                    Dict.get (p_assignments p) aname = Some ad ->
                    Dict.get (assignments c) aname
                    = Some (mkAssignment (d_aname ad) (d_weight ad)
                                         (match d_max_score ad with
                                          | Some m => m
                                          | None => hundred
                                          end)))).
Proof.
  intros num N store read_file code fs. unfold load. split.
  - now intros ->.
  - intros p -> Hs Ha. exists (course_of_payload p). split; [reflexivity|].
    destruct (payload_entries p Hs Ha) as [Hstu Hasg]. rewrite Hstu, Hasg.
    split; [reflexivity|].
    split; [unfold Dict.keys; now rewrite map_map|].
    split; [unfold Dict.keys; now rewrite map_map|].
    split.
    + intros sid sd Hget.
      apply (get_map_value _ _ student_of_dict _ _ _ Hget).
    + intros aname ad Hget.
      apply (get_map_value _ _ assignment_of_dict _ _ _ Hget).
Qed.

(** A hand-written file without [max_score] and [scores]. *)
Lemma load_reads_what_is_filed_witness :
  load (fun path fs => Dict.get fs path) "missing" [(course_path "old", legacy_payload)]
  = None
  /\ exists c,
      load (fun path fs => Dict.get fs path) "old" [(course_path "old", legacy_payload)]
      = Some c
      /\ Dict.get (students c) "s1" = Some (mkStudent "s1" "Alice" [])
      /\ Dict.get (assignments c) "HW1" = Some (mkAssignment "HW1" 0.5%float 100%float).
Proof.
  split.
  - apply (proj1 (load_reads_what_is_filed
                    float float64 (Dict.t (Payload float))
                    (fun path fs => Dict.get fs path) "missing"
                    [(course_path "old", legacy_payload)])).
    reflexivity.
  - destruct (proj2 (load_reads_what_is_filed
                       float float64 (Dict.t (Payload float))
                       (fun path fs => Dict.get fs path) "old"
                       [(course_path "old", legacy_payload)])
                    legacy_payload eq_refl)
      as [c [Hload [_ [_ [_ [Hstu Hasg]]]]]].
    + unfold Dict.wf. simpl. repeat constructor; simpl; intuition discriminate.
    + unfold Dict.wf. simpl. repeat constructor; simpl; intuition discriminate.
    + exists c. split; [exact Hload|]. split.
      * apply (Hstu "s1" (mkStudentDict "s1" "Alice" None)). reflexivity.
      * apply (Hasg "HW1" (mkAssignmentDict "HW1" 0.5%float None)). reflexivity.
Defined.

(* ================================================================== *)
(** * Listing the saved courses *)

Module StringFacts.

Lemma length_append (a b : string) :
  String.length (a ++ b) = (String.length a + String.length b)%nat.
Proof. induction a as [|ch a IH]; simpl; [reflexivity | now rewrite IH]. Qed.

Lemma substring_all (s : string) : substring 0 (String.length s) s = s.
Proof. induction s as [|ch s IH]; simpl; [reflexivity | now rewrite IH]. Qed.

Lemma substring_prefix (a b : string) : substring 0 (String.length a) (a ++ b) = a.
Proof.
  induction a as [|ch a IH]; simpl.
  - now destruct b.
  - now rewrite IH.
Qed.

Lemma substring_suffix (a b : string) :
  substring (String.length a) (String.length b) (a ++ b) = b.
Proof.
  induction a as [|ch a IH]; simpl; [apply substring_all | exact IH].
Qed.

Lemma substring_split (s : string) (k : nat) :
  (k <= String.length s)%nat ->
  s = (substring 0 k s ++ substring k (String.length s - k) s)%string.
Proof.
  revert k. induction s as [|ch s IH]; intros k Hk; simpl in *.
  - now destruct k.
  - destruct k as [|k]; simpl.
    + now rewrite substring_all.
    + rewrite <- IH by lia. reflexivity.
Qed.

(** [s.endswith(suffix)] holds exactly when [s] is a text followed by
    [suffix]; the text is [s] without its last characters. *)
Lemma endswith_spec (s suffix : string) :
  endswith s suffix = true
  <-> s = (drop_last (String.length suffix) s ++ suffix)%string.
Proof.
  unfold endswith, drop_last. split.
  - intros Hend. apply andb_true_iff in Hend. destruct Hend as [Hle Heq].
    apply Nat.leb_le in Hle. apply String.eqb_eq in Heq.
    pose proof (substring_split s (String.length s - String.length suffix)) as Hs.
    replace (String.length s - (String.length s - String.length suffix))%nat
      with (String.length suffix) in Hs by lia.
    rewrite Heq in Hs. apply Hs. lia.
  - intros Hs.
    set (p := substring 0 (String.length s - String.length suffix) s) in *.
    rewrite Hs. rewrite length_append.
    apply andb_true_iff. split; [apply Nat.leb_le; lia|].
    apply String.eqb_eq.
    replace (String.length p + String.length suffix - String.length suffix)%nat
      with (String.length p) by lia.
    apply substring_suffix.
Qed.

Lemma drop_last_append (a b : string) : drop_last (String.length b) (a ++ b) = a.
Proof.
  unfold drop_last. rewrite length_append.
  replace (String.length a + String.length b - String.length b)%nat
    with (String.length a) by lia.
  apply substring_prefix.
Qed.

End StringFacts.

(** X12.  [list_saved_courses] lists exactly the codes whose file, the code
    followed by [.json], is in the folder; names with another ending are
    left out. *)
Theorem saved_courses_are_the_json_files :
  forall (listing : list string) (code : string),
    In code (list_saved_courses listing) <-> In (code ++ ".json")%string listing.
Proof.
  intros listing code. unfold list_saved_courses. split.
  - intros Hin. apply in_map_iff in Hin. destruct Hin as [f [Hcode Hin]].
    apply filter_In in Hin. destruct Hin as [Hin Hend].
    apply StringFacts.endswith_spec in Hend. cbn [String.length] in Hend.
    rewrite Hcode in Hend. now rewrite <- Hend.
  - intros Hin. apply in_map_iff. exists (code ++ ".json")%string. split.
    + apply (StringFacts.drop_last_append code ".json").
    + apply filter_In. split; [exact Hin|].
      apply StringFacts.endswith_spec.
      now rewrite (StringFacts.drop_last_append code ".json").
Qed.

(* ================================================================== *)
(** * Placeholders and totals *)

Module NanFacts.

Lemma is_nan_SF (x : float) :
  is_nan x = match Prim2SF x with S754_nan => true | _ => false end.
Proof.
  unfold is_nan. rewrite FloatAxioms.eqb_spec.
  destruct (Prim2SF x) as [s| s| |s m e]; try reflexivity.
  - now destruct s.
  - unfold SFeqb, SFcompare. destruct s; simpl;
      rewrite Z.compare_refl, Pos.compare_cont_refl; reflexivity.
Qed.

Lemma nan_of_SF (x : float) : Prim2SF x = S754_nan -> x = nan.
Proof. intros Hx. apply Prim2SF_inj. now rewrite Hx. Qed.

(** A share taken of a NaN total weight turns every sum into NaN. *)
Lemma add_contribution_nan (total p w tw : float) :
  is_nan tw = true -> (total + p * (w / tw))%float = nan.
Proof.
  rewrite is_nan_SF. intros Htw. apply nan_of_SF.
  rewrite add_spec, mul_spec, div_spec.
  destruct (Prim2SF tw); try discriminate.
  destruct (Prim2SF w), (Prim2SF p), (Prim2SF total); reflexivity.
Qed.

Lemma nan_add (x : float) : (nan + x)%float = nan.
Proof.
  apply nan_of_SF. rewrite add_spec. change (Prim2SF nan) with S754_nan. reflexivity.
Qed.

(** Zero divided by a divisor that is neither zero nor NaN is a zero. *)
Lemma zero_share (tw : float) :
  (tw =? 0)%float = false -> is_nan tw = false -> (0 / tw =? 0)%float = true.
Proof.
  rewrite is_nan_SF, !FloatFacts.eqb_zero, div_spec.
  change (Prim2SF 0) with (S754_zero false).
  destruct (Prim2SF tw); simpl; congruence.
Qed.

End NanFacts.

Section PlaceholderFacts.

Lemma total_value_app (tw : float) (cat cat' : Dict.t (Assignment float))
      (st : Student float) :
  total_value tw (cat ++ cat')%list st
  = fold_left (fun total kv => add total (contribution_value tw st kv)) cat'
              (total_value tw cat st).
Proof. unfold total_value. apply fold_left_app. Qed.

(** A total only reads the scores filed under the names of the catalog. *)
Lemma total_value_same_scores (tw : float) (cat : Dict.t (Assignment float))
      (st st' : Student float) :
  (forall aname a, In (aname, a) cat ->
                   Dict.get (scores st') aname = Dict.get (scores st) aname) ->
  total_value tw cat st' = total_value tw cat st.
Proof.
  unfold total_value. generalize (@zero float float64).
  induction cat as [|[aname a] cat IH]; intros z Hsame; [reflexivity|].
  cbn [fold_left]. rewrite IH by (intros an a' Hin; apply (Hsame an a'); now right).
  do 2 f_equal. unfold contribution_value, Dict.get_default. cbn [fst snd].
  now rewrite (Hsame aname a (or_introl eq_refl)).
Qed.

Lemma total_value_nan (tw : float) (cat : Dict.t (Assignment float)) (st : Student float) :
  is_nan tw = true -> cat <> [] -> total_value tw cat st = nan.
Proof.
  intros Htw Hne. unfold total_value. destruct cat as [|kv cat]; [contradiction|].
  cbn [fold_left]. unfold contribution_value at 2.
  change (@add float float64) with PrimFloat.add.
  change (@mul float float64) with PrimFloat.mul.
  change (@quot float float64) with PrimFloat.div.
  rewrite NanFacts.add_contribution_nan by exact Htw.
  clear Hne. induction cat as [|kv' cat IH]; [reflexivity|].
  cbn [fold_left]. unfold contribution_value at 2.
  change (@add float float64) with PrimFloat.add.
  change (@mul float float64) with PrimFloat.mul.
  change (@quot float float64) with PrimFloat.div.
  rewrite NanFacts.add_contribution_nan by exact Htw. exact IH.
Qed.

(** Adding a weight of 0 to the weights leaves the divisor as it is. *)
Lemma total_weight_with_placeholder (c c' : Course float) (aname : string) :
  Dict.wf (assignments c) ->
  Dict.contains (assignments c) aname = false ->
  assignments c' = (assignments c ++ [(aname, placeholder aname)])%list ->
  total_weight c' = total_weight c.
Proof.
  intros Hwf Habs Hcat.
  assert (Hwf' : Dict.wf (assignments c')).
  { rewrite Hcat. unfold Dict.wf, Dict.keys. rewrite map_app. cbn [map fst].
    apply NoDup_app; [exact Hwf | repeat constructor; intros [] |].
    intros k Hin [<- | []].
    apply DictFacts.contains_keys in Hin. congruence. }
  rewrite (total_weight_wf c' Hwf'), (total_weight_wf c Hwf).
  unfold sum_of_weights. rewrite Hcat, map_app. cbn [map snd].
  unfold py_sum. rewrite fold_left_app. cbn [fold_left].
  fold (py_sum (map (fun kv : string * Assignment float => weight (snd kv)) (assignments c))).
  set (s := py_sum _).
  change (weight (placeholder aname)) with 0%float.
  change (@add float float64 s 0%float) with (s + 0)%float.
  destruct (add_zero_unchanged s 0%float eq_refl) as [-> | [Hz ->]]; [reflexivity|].
  change (@eq0 float float64 s) with (s =? 0)%float. now rewrite Hz.
Qed.

(** One more assignment of weight 0 adds a zero to a total. *)
Lemma total_with_placeholder (tw : float) (cat : Dict.t (Assignment float))
      (st : Student float) (aname : string) :
  eq0 tw = false ->
  (is_nan tw = true -> cat <> []) ->
  is_finite (percentage_value (placeholder aname)
                              (Dict.get_default (scores st) aname zero)) = true ->
  total_value tw (cat ++ [(aname, placeholder aname)])%list st = total_value tw cat st
  \/ ((total_value tw cat st =? 0)%float = true
      /\ total_value tw (cat ++ [(aname, placeholder aname)])%list st = 0%float).
Proof.
  intros Htw Hnan Hfin. rewrite total_value_app. cbn [fold_left].
  destruct (is_nan tw) eqn:En.
  - left. rewrite (total_value_nan tw cat st En (Hnan eq_refl)).
    change (@add float float64) with PrimFloat.add. apply NanFacts.nan_add.
  - apply add_zero_unchanged.
    unfold contribution_value. cbn [fst snd].
    change (@mul float float64) with PrimFloat.mul.
    change (@quot float float64) with PrimFloat.div.
    change (weight (placeholder aname)) with 0%float.
    apply FloatFacts.mul_finite_zero; [exact Hfin|].
    now apply NanFacts.zero_share.
Qed.

Lemma round2_of_zero (t : float) : (t =? 0)%float = true -> round2 t = t.
Proof.
  rewrite FloatFacts.eqb_zero. intros Hz.
  change (@round2 float float64 t) with (float_round2 t). unfold float_round2.
  now destruct (Prim2SF t).
Qed.
End PlaceholderFacts.

(** X13.  When a bulk import records a score under a name the catalog does
    not have, the placeholder it registers (weight 0.0) changes nobody's
    weighted total: every total is what it was, or was a zero and is 0.0 now,
    as long as the scores held under the new name have finite percentages. *)
Theorem placeholder_keeps_totals :
  forall (c c' : Course float) (sid aname : string) (score : float),
    Dict.wf (students c) -> Dict.wf (assignments c) ->
    Dict.contains (assignments c) aname = false ->
    record_score c sid aname score = Some c' ->
    (forall sid' st', In (sid', st') (students c') ->
                      is_finite (percentage_value
                                   (placeholder aname)
                                   (Dict.get_default (scores st') aname zero)) = true) ->
    exists results results',
      calculate_weighted_scores c = Some results
      /\ calculate_weighted_scores c' = Some results'
      /\ Dict.get (assignments c') aname = Some (placeholder aname)
      /\ Dict.keys results' = Dict.keys results
      /\ forall sid' r r',
          Dict.get results sid' = Some r ->
          Dict.get results' sid' = Some r' ->
          r' = r \/ ((r =? 0)%float = true /\ r' = 0%float).
Proof.
  intros c c' sid aname score Hwfs Hwfa Habs Hrec Hfin.
  unfold record_score, set_score in Hrec.
  destruct (Dict.get (students c) sid) as [st|] eqn:Est; [|discriminate].
  cbn [bind] in Hrec. injection Hrec as <-.
  rewrite register_assignment_app, Habs in *.
  set (c' := mkCourse (course_code c) (title c)
                      (Dict.set (students c) sid (with_score st aname score))
                      (assignments c ++ [(aname, placeholder aname)])%list) in *.
  assert (Hkeys : Dict.keys (students c') = Dict.keys (students c))
    by (apply DictFacts.keys_set_present, DictFacts.contains_get; eauto).
  assert (Hwfs' : Dict.wf (students c')) by (unfold Dict.wf; now rewrite Hkeys).
  assert (Htw : total_weight c' = total_weight c)
    by (now apply (total_weight_with_placeholder c c' aname)).
  exists (results_of c), (results_of c').
  split; [apply calculate_weighted_scores_safe|].
  split; [apply calculate_weighted_scores_safe|].
  split; [now apply get_app_new|].
  split.
  { rewrite (results_of_wf c' Hwfs'), (results_of_wf c Hwfs).
    unfold Dict.keys in *. rewrite !map_map. exact Hkeys. }
  intros sid' r r' Hr Hr'.
  apply results_of_values in Hr. destruct Hr as [st0 [Hin0 ->]].
  apply results_of_values in Hr'. destruct Hr' as [st1 [Hin1 ->]].
  rewrite Htw. cbn [assignments c'].
  assert (Hsame : total_value (total_weight c) (assignments c) st1
                  = total_value (total_weight c) (assignments c) st0).
  { apply total_value_same_scores. intros an a Hin.
    pose proof (wf_in_get _ _ _ _ Hwfs Hin0) as Hg0.
    pose proof (wf_in_get _ _ _ _ Hwfs' Hin1) as Hg1. cbn [students c'] in Hg1.
    destruct (string_dec sid sid') as [<- | Hne].
    - rewrite DictFacts.get_set_same in Hg1. injection Hg1 as <-.
      assert (st0 = st) by congruence. subst st0.
      cbn [with_score scores]. apply DictFacts.get_set_other.
      intros ->.
      assert (Hc : Dict.contains (assignments c) an = true).
      { apply DictFacts.contains_keys. change an with (fst (an, a)). now apply in_map. }
      congruence.
    - rewrite DictFacts.get_set_other in Hg1 by exact Hne.
      assert (st1 = st0) by congruence. now subst st1. }
  destruct (total_with_placeholder (total_weight c) (assignments c) st1 aname)
    as [Heq | [Hz Heq]].
  - apply total_weight_nonzero.
  - intros Hn Hnil. unfold total_weight in Hn. rewrite Hnil in Hn. discriminate.
  - apply (Hfin sid' st1 Hin1).
  - left. now rewrite Heq, Hsame.
  - right. rewrite Heq. rewrite Hsame in Hz.
    rewrite (round2_of_zero _ Hz). split; [exact Hz | reflexivity].
Qed.

(** A quiz recorded for Alice in the demo course. *)
Lemma placeholder_keeps_totals_witness :
  exists results results',
    calculate_weighted_scores demo_course = Some results
    /\ calculate_weighted_scores demo_with_quiz = Some results'
    /\ Dict.keys results' = Dict.keys results.
Proof.
  destruct (placeholder_keeps_totals demo_course demo_with_quiz "s1" "Quiz" 7%float
                                     demo_course_students_wf demo_course_assignments_wf
                                     eq_refl eq_refl)
    as [results [results' [Hr [Hr' [_ [Hkeys _]]]]]].
  - simpl. intros sid' st' [[= <- <-]|[[= <- <-]|[[= <- <-]|[]]]]; vm_compute; reflexivity.
  - exists results, results'. auto.
Defined.
